(** * Value comparison, serialization and parsing in the generated test runners

    The generators under [src/api/src/generators] emit, for every target
    language, a runner program that evaluates each test call, parses the
    expected value, compares both and prints one JSON record per test.
    This development embeds the runner programs the generators emit
    (Python, TypeScript, Java, C#, C) and the generator-side helper
    [convertCppToJson], and states their properties.

    Conventions.
    - A text is a Rocq [string]; its characters are code units below 256.
    - A floating-point number is a [spec_float] of the binary64 format
      (precision 53, maximal exponent 1024); [SFeqb] and [SFltb] are the
      IEEE comparisons [==] and [<].
    - Functions of the language runtimes that the runners call but do not
      define ([json.loads], [json.dumps], [ast.literal_eval], [JSON.parse],
      [parseFloat], the [str] of a container, ...) are fields of a runtime
      record.
    - A value is an instance of one of the classes its runner names, is
      finite, and is nested less deep than the recursion limit of its
      runtime; an array of JavaScript has no holes. *)

From Stdlib Require Import ZArith List String Ascii Bool Lia Arith.
From Stdlib Require Import SpecFloat DecimalString DecimalZ Permutation FinFun.
Import ListNotations.
Local Open Scope string_scope.
Local Open Scope Z_scope.

Set Implicit Arguments.
Set Warnings "-register-all".

(* ------------------------------------------------------------------ *)
(** * Binary64 numbers *)

Module Double.

Definition double := spec_float.

Definition prec : Z := 53.
Definition emax : Z := 1024.

Definition nan : double := S754_nan.
Definition pos_inf : double := S754_infinity false.
Definition neg_inf : double := S754_infinity true.
Definition zero : double := S754_zero false.

Definition is_nan (f : double) : bool :=
  match f with S754_nan => true | _ => false end.

Definition is_inf (f : double) : bool :=
  match f with S754_infinity _ => true | _ => false end.

Definition is_zero (f : double) : bool :=
  match f with S754_zero _ => true | _ => false end.

Definition eqb : double -> double -> bool := SFeqb.
Definition ltb : double -> double -> bool := SFltb.
Definition sub : double -> double -> double := SFsub prec emax.
Definition abs : double -> double := SFabs.

(** The binary64 number nearest to an integer (ties to even). *)
Definition of_Z (z : Z) : double := binary_normalize prec emax z 0 false.

Definition one : double := S754_finite false 4503599627370496 (-52).

(** The successor of [one]: 1 + 2^-52. *)
Definition one_next : double := S754_finite false 4503599627370497 (-52).

(** The literal [0.0000001] of the C# and C runners, rounded to binary64:
    7555786372591432 * 2^-76. *)
Definition tolerance : double := S754_finite false 7555786372591432 (-76).

(** Truncation toward zero of a finite number. *)
Definition trunc (f : double) : option Z :=
  match f with
  | S754_zero _ => Some 0
  | S754_finite s m e =>
      let mag := if 0 <=? e then Zpos m * 2 ^ e else Zpos m / 2 ^ (- e) in
      Some (if s then - mag else mag)
  | _ => None
  end.

(** Exact comparison of an integer with a binary64 number. *)
Definition eqb_Z (n : Z) (f : double) : bool :=
  match f with
  | S754_zero _ => n =? 0
  | S754_finite s m e =>
      let v := if s then Zneg m else Zpos m in
      if 0 <=? e then n =? v * 2 ^ e
      else (v mod 2 ^ (- e) =? 0) && (n =? v / 2 ^ (- e))
  | _ => false
  end.

End Double.

Import Double.

(* ------------------------------------------------------------------ *)
(** * Texts *)

Module Text.

Definition chars (s : string) : list ascii := list_ascii_of_string s.
Definition of_chars (l : list ascii) : string := string_of_list_ascii l.

Definition code (c : ascii) : N := N_of_ascii c.

Fixpoint drop_while (p : ascii -> bool) (l : list ascii) : list ascii :=
  match l with
  | [] => []
  | c :: r => if p c then drop_while p r else l
  end.

(** Removal of the characters satisfying [p] at both ends. *)
Definition strip_with (p : ascii -> bool) (s : string) : string :=
  of_chars (rev (drop_while p (rev (drop_while p (chars s))))).

Definition starts_with (p s : string) : bool := String.prefix p s.

Definition ends_with (p s : string) : bool :=
  String.prefix (of_chars (rev (chars p))) (of_chars (rev (chars s))).

Definition is_digit (c : ascii) : bool :=
  ((48 <=? code c) && (code c <=? 57))%N.

Definition all_digits (l : list ascii) : bool := forallb is_digit l.

Definition drop_minus (l : list ascii) : list ascii :=
  match l with
  | c :: r => if Ascii.eqb c "-" then r else l
  | [] => []
  end.

(** The pattern [^-?\d+$]. *)
Definition is_int_literal (s : string) : bool :=
  let l := drop_minus (chars s) in
  negb (Nat.eqb (List.length l) 0) && all_digits l.

(** Splits a list at the first character satisfying [p]. *)
Fixpoint break (p : ascii -> bool) (l : list ascii) : list ascii * list ascii :=
  match l with
  | [] => ([], [])
  | c :: r => if p c then ([], l)
              else let '(a, b) := break p r in (c :: a, b)
  end.

Definition is_dot (c : ascii) : bool := Ascii.eqb c ".".

(** The pattern [^-?\d*\.\d+$]. *)
Definition is_frac_literal (s : string) : bool :=
  let '(a, b) := break is_dot (drop_minus (chars s)) in
  match b with
  | _ :: d => all_digits a && negb (Nat.eqb (List.length d) 0) && all_digits d
  | [] => false
  end.

(** The pattern [^-?\d+\.\d*$]. *)
Definition is_trailing_dot_literal (s : string) : bool :=
  let '(a, b) := break is_dot (drop_minus (chars s)) in
  match b with
  | _ :: d => negb (Nat.eqb (List.length a) 0) && all_digits a && all_digits d
  | [] => false
  end.

(** Decimal writing of an integer, with a leading [-] when negative. *)
Definition decimal (n : Z) : string := NilZero.string_of_int (Z.to_int n).

Definition backslash : ascii := ascii_of_nat 92.
Definition quote : ascii := ascii_of_nat 34.

(** A text between two double quotes. *)
Definition quoted (s : string) : string :=
  String quote (s ++ String quote EmptyString).

End Text.

(* ------------------------------------------------------------------ *)
(** * Computations that may raise *)

Module Outcome.

Section Outcome.

Variable E : Type.

Inductive Result (A : Type) :=
| Ok (a : A)
| Raise (e : E).

Arguments Ok {A} a.
Arguments Raise {A} e.

Definition bind {A B} (m : Result A) (f : A -> Result B) : Result B :=
  match m with
  | Ok a => f a
  | Raise e => Raise e
  end.

Section MapM.

Variables (A B : Type) (f : A -> Result B).

Fixpoint mapM (l : list A) : Result (list B) :=
  match l with
  | [] => Ok []
  | x :: r =>
      match f x with
      | Ok y =>
          match mapM r with
          | Ok ys => Ok (y :: ys)
          | Raise e => Raise e
          end
      | Raise e => Raise e
      end
  end.

End MapM.

End Outcome.

Arguments Ok {E A} a.
Arguments Raise {E A} e.

End Outcome.

Import Outcome.

Declare Scope outcome_scope.
Notation "x <- m ;; k" := (bind m (fun x => k))
  (at level 61, m at next level, right associativity) : outcome_scope.

(* ------------------------------------------------------------------ *)
(** * The Python runner ([PythonGenerator.generateRunner])

    Values are the Python objects the runner names: [None], [bool], [int],
    [float], [str], [list], [tuple], the [dict] family ([dict], [Counter],
    [OrderedDict], [defaultdict]), [set], [frozenset] and [deque].  A
    dictionary is the list of its items in iteration order and a set the
    list of its elements; Python keeps the keys of a dictionary and the
    elements of a set pairwise different and hashable.  A value is an
    instance of exactly one of these classes: an object of another class
    (a named tuple, a [Decimal], an instance of a class of the submission)
    is no value here.  The expected value is always built afresh by the
    runner, so the two values handed to the comparator share no object and
    [==] never succeeds by identity. *)

Module Python.

Inductive dict_class := Dict | Counter | OrderedDict | Defaultdict.

Inductive PyVal :=
| PNone
| PBool (b : bool)
| PInt (n : Z)
| PFloat (f : double)
| PStr (s : string)
| PList (l : list PyVal)
| PTuple (l : list PyVal)
| PDict (c : dict_class) (items : list (PyVal * PyVal))
| PSet (l : list PyVal)
| PFrozenset (l : list PyVal)
| PDeque (l : list PyVal).

(** ** Classes: [type(v)] and [isinstance(v, C)] *)

Inductive py_class :=
| CNoneType | Cbool | Cint | Cfloat | Cstr | Clist | Ctuple
| Cdict | CCounter | COrderedDict | Cdefaultdict
| Cset | Cfrozenset | Cdeque.

Definition class_of_dict (c : dict_class) : py_class :=
  match c with
  | Dict => Cdict
  | Counter => CCounter
  | OrderedDict => COrderedDict
  | Defaultdict => Cdefaultdict
  end.

Definition type (v : PyVal) : py_class :=
  match v with
  | PNone => CNoneType
  | PBool _ => Cbool
  | PInt _ => Cint
  | PFloat _ => Cfloat
  | PStr _ => Cstr
  | PList _ => Clist
  | PTuple _ => Ctuple
  | PDict c _ => class_of_dict c
  | PSet _ => Cset
  | PFrozenset _ => Cfrozenset
  | PDeque _ => Cdeque
  end.

Definition class_eqb (c d : py_class) : bool :=
  match c, d with
  | CNoneType, CNoneType | Cbool, Cbool | Cint, Cint | Cfloat, Cfloat
  | Cstr, Cstr | Clist, Clist | Ctuple, Ctuple | Cdict, Cdict
  | CCounter, CCounter | COrderedDict, COrderedDict
  | Cdefaultdict, Cdefaultdict | Cset, Cset | Cfrozenset, Cfrozenset
  | Cdeque, Cdeque => true
  | _, _ => false
  end.

(** [bool] derives from [int]; [Counter], [OrderedDict] and [defaultdict]
    derive from [dict]. *)
Definition subclass (c d : py_class) : bool :=
  class_eqb c d ||
  match c, d with
  | Cbool, Cint => true
  | (CCounter | COrderedDict | Cdefaultdict), Cdict => true
  | _, _ => false
  end.

Definition isinstance (v : PyVal) (c : py_class) : bool := subclass (type v) c.

Definition is_None (v : PyVal) : bool :=
  match v with PNone => true | _ => false end.

(** [math.isnan(v)] on a float. *)
Definition isnan (v : PyVal) : bool :=
  match v with PFloat f => is_nan f | _ => false end.

Definition dict_keys (items : list (PyVal * PyVal)) : list PyVal := map fst items.

(** ** The builtin [==]

    Numbers compare by exact value across [bool], [int] and [float];
    sequences element by element; sets and frozensets by size and
    membership; dictionaries by size and per-key values, two
    [OrderedDict]s also by key order and two [Counter]s with a missing
    count read as zero (CPython 3.10 and later). *)

Definition num_eq (a b : PyVal) : option bool :=
  match a, b with
  | PBool x, PBool y => Some (Bool.eqb x y)
  | PBool x, PInt n | PInt n, PBool x => Some (Z.b2z x =? n)
  | PBool x, PFloat f | PFloat f, PBool x => Some (eqb_Z (Z.b2z x) f)
  | PInt n, PInt m => Some (n =? m)
  | PInt n, PFloat f | PFloat f, PInt n => Some (eqb_Z n f)
  | PFloat f, PFloat g => Some (Double.eqb f g)
  | _, _ => None
  end.

Definition eq_zero (v : PyVal) : bool :=
  match num_eq (PInt 0) v with Some r => r | None => false end.

Section Eq.

Variable eq : PyVal -> PyVal -> bool.

Fixpoint all_zip (xs ys : list PyVal) : bool :=
  match xs, ys with
  | x :: xs', y :: ys' => eq x y && all_zip xs' ys'
  | _, _ => true
  end.

(** [len(xs) == len(ys)] and the elements agree pairwise. *)
Definition seq_eq (xs ys : list PyVal) : bool :=
  Nat.eqb (List.length xs) (List.length ys) && all_zip xs ys.

(** [x in ys] for the elements [ys] of a set or the keys of a dictionary. *)
Definition member (x : PyVal) (ys : list PyVal) : bool := existsb (eq x) ys.

Fixpoint all_member (xs ys : list PyVal) : bool :=
  match xs with
  | [] => true
  | x :: xs' => member x ys && all_member xs' ys
  end.

(** Equality of two sets given by their elements. *)
Definition set_eq (xs ys : list PyVal) : bool :=
  Nat.eqb (List.length xs) (List.length ys) && all_member xs ys.

(** [d[k]]: the value stored under the key equal to [k]. *)
Fixpoint dict_get (k : PyVal) (items : list (PyVal * PyVal)) : option PyVal :=
  match items with
  | [] => None
  | (k', v) :: r => if eq k k' then Some v else dict_get k r
  end.

Definition dict_has (k : PyVal) (items : list (PyVal * PyVal)) : bool :=
  member k (dict_keys items).

(** [all(cmp(xs[k], ys[k]) for k in xs)]. *)
Fixpoint items_agree (cmp : PyVal -> PyVal -> bool)
         (xs ys : list (PyVal * PyVal)) : bool :=
  match xs with
  | [] => true
  | (k, v) :: r =>
      match dict_get k ys with
      | Some w => cmp v w
      | None => false
      end && items_agree cmp r ys
  end.

(** [Counter.__eq__]: the counts of [xs] agree with those of [ys], an
    absent count being zero. *)
Fixpoint counts_agree (xs ys : list (PyVal * PyVal)) : bool :=
  match xs with
  | [] => true
  | (k, v) :: r =>
      match dict_get k ys with
      | Some w => eq v w
      | None => eq v (PInt 0)
      end && counts_agree r ys
  end.

(** The keys of [xs] and [ys] agree pairwise, in order. *)
Fixpoint keys_agree (xs ys : list (PyVal * PyVal)) : bool :=
  match xs, ys with
  | (k, _) :: xs', (k', _) :: ys' => eq k k' && keys_agree xs' ys'
  | _, _ => true
  end.

(** Some key of [items] equals [k]. *)
Definition key_of (items : list (PyVal * PyVal)) (k : PyVal) : bool :=
  existsb (fun kv => eq (fst kv) k) items.

End Eq.

Definition is_ordered (c : dict_class) : bool :=
  match c with OrderedDict => true | _ => false end.

Definition is_counter (c : dict_class) : bool :=
  match c with Counter => true | _ => false end.

Fixpoint py_eq (a b : PyVal) {struct a} : bool :=
  match a, b with
  | PNone, PNone => true
  | PStr s, PStr t => String.eqb s t
  | PList xs, PList ys
  | PTuple xs, PTuple ys
  | PDeque xs, PDeque ys => seq_eq py_eq xs ys
  | (PSet xs | PFrozenset xs), (PSet ys | PFrozenset ys) => set_eq py_eq xs ys
  | PDict c xs, PDict d ys =>
      if is_counter c && is_counter d then
        counts_agree py_eq xs ys &&
        forallb (fun kw => key_of py_eq xs (fst kw) || eq_zero (snd kw)) ys
      else
        Nat.eqb (List.length xs) (List.length ys) &&
        items_agree py_eq py_eq xs ys &&
        (negb (is_ordered c && is_ordered d)
         || keys_agree py_eq xs ys)
  | _, _ =>
      match num_eq a b with
      | Some r => r
      | None => false
      end
  end.

(** ** [deep_equals] *)

Fixpoint deep_equals (a b : PyVal) {struct a} : bool :=
  if is_None a && is_None b then true
  else if is_None a || is_None b then false
  else if isinstance a Cfloat && isinstance b Cfloat && (isnan a && isnan b)
  then true
  else if negb (class_eqb (type a) (type b)) then false
  else
    match a, b with
    | PList xs, PList ys =>
        if negb (Nat.eqb (List.length xs) (List.length ys)) then false
        else all_zip deep_equals xs ys
    | PTuple xs, PTuple ys =>
        if negb (Nat.eqb (List.length xs) (List.length ys)) then false
        else all_zip deep_equals xs ys
    | PDict _ xs, PDict _ ys =>
        if negb (set_eq py_eq (dict_keys xs) (dict_keys ys)) then false
        else items_agree py_eq deep_equals xs ys
    | PSet _, _ => py_eq a b
    | PFrozenset _, _ => py_eq a b
    | _, _ => py_eq a b
    end.

(** ** Exceptions and the interpreter's own functions *)

Record PyExc := {
  exc_name : string;          (* type(e).__name__ *)
  exc_str : string;           (* str(e) *)
  exc_bases : list string     (* the classes [e] is an instance of *)
}.

Definition exc_isinstance (e : PyExc) (cls : string) : bool :=
  existsb (String.eqb cls) (exc_bases e).

Definition Res := Result PyExc.

Record Runtime := {
  (* sys.get_int_max_str_digits(): the most digits of an int that str()
     writes (4300 unless set otherwise); 0 when there is no limit *)
  int_max_str_digits : nat;
  (* str(v), v a float or a container; it raises where it must write an
     int of too many digits *)
  repr : PyVal -> Res string;
  (* json.dumps *)
  json_dumps : PyVal -> Res string;
  (* json.loads *)
  json_loads : string -> Res PyVal;
  (* ast.literal_eval *)
  literal_eval : string -> Res PyVal;
  (* int(s); None: ValueError *)
  int_of_str : string -> option Z;
  (* float(s); None: ValueError *)
  float_of_str : string -> option double;
  (* re.sub(r'\bWORD\b', REPLACEMENT, text) *)
  sub_word : string -> string -> string -> string;
  (* the message of an error a builtin raises on a value *)
  error_text : string -> PyVal -> string
}.

Section Runner.

Variable rt : Runtime.

Local Open Scope outcome_scope.

Definition builtin_error {A} (cls : string) (v : PyVal) : Res A :=
  Raise {| exc_name := cls;
           exc_str := error_text rt cls v;
           exc_bases := [cls; "Exception"; "BaseException"] |}.

(** [n] is written with more than [limit] decimal digits. *)
Definition longer_than (limit : nat) (n : Z) : bool :=
  10 ^ Z.of_nat limit <=? Z.abs n.

(** [str(n)] for an int: a [ValueError] when [n] has more digits than
    the interpreter writes. *)
Definition str_of_int (n : Z) : Res string :=
  if negb (Nat.eqb (int_max_str_digits rt) 0)
     && longer_than (int_max_str_digits rt) n
  then builtin_error "ValueError" (PInt n)
  else Ok (Text.decimal n).

(** [str(v)]. *)
Definition py_str (v : PyVal) : Res string :=
  match v with
  | PStr s => Ok s
  | PInt n => str_of_int n
  | PBool true => Ok "True"
  | PBool false => Ok "False"
  | PNone => Ok "None"
  | _ => repr rt v
  end.

(** ** Dictionaries and sets under construction *)

(** [d[k] = v]. *)
Fixpoint dict_set (k v : PyVal) (items : list (PyVal * PyVal))
  : list (PyVal * PyVal) :=
  match items with
  | [] => [(k, v)]
  | (k', v') :: r =>
      if py_eq k k' then (k', v) :: r else (k', v') :: dict_set k v r
  end.

(** A dictionary comprehension or [dict(pairs)]: the items are stored
    one after the other. *)
Definition dict_of (items : list (PyVal * PyVal)) : list (PyVal * PyVal) :=
  fold_left (fun d kv => dict_set (fst kv) (snd kv) d) items [].

Fixpoint hashable (v : PyVal) : bool :=
  match v with
  | PNone | PBool _ | PInt _ | PFloat _ | PStr _ => true
  | PTuple l | PFrozenset l => forallb hashable l
  | PList _ | PDict _ _ | PSet _ | PDeque _ => false
  end.

(** [s.add(x)]. *)
Definition set_add (x : PyVal) (s : list PyVal) : list PyVal :=
  if member py_eq x s then s else s ++ [x].

Section From.

Variables (A : Type) (f : A -> Res PyVal).

(** [set(f(x) for x in xs)], started from the elements [acc]: every
    element is computed, hashed and added before the next one. *)
Fixpoint set_from (xs : list A) (acc : list PyVal) : Res (list PyVal) :=
  match xs with
  | [] => Ok acc
  | x :: r =>
      match f x with
      | Ok y =>
          if hashable y then set_from r (set_add y acc)
          else builtin_error "TypeError" y
      | Raise e => Raise e
      end
  end.

End From.

Section WithItem.

Variables (B : Type) (k : PyVal) (g : PyVal -> B).

(** The value stored under the key [k], handed to [g]. *)
Fixpoint with_item (items : list (PyVal * PyVal)) : option B :=
  match items with
  | [] => None
  | (k', v) :: r => if py_eq k k' then Some (g v) else with_item r
  end.

End WithItem.

(** [set(xs)] and [frozenset(xs)] for a list [xs] of elements. *)
Definition set_of (xs : list PyVal) : Res (list PyVal) :=
  set_from (fun x => Ok x) xs [].

(** ** [sorted(xs, key=lambda x: str(x))]: the key of every element is
    computed first, then the elements are sorted by their keys, the order
    of equal keys being kept *)

Fixpoint insert_sorted (x : string * PyVal) (l : list (string * PyVal))
  : list (string * PyVal) :=
  match l with
  | [] => [x]
  | y :: r =>
      if String.ltb (fst y) (fst x) then y :: insert_sorted x r
      else x :: l
  end.

Definition sorted (l : list PyVal) : Res (list PyVal) :=
  keyed <- mapM (fun x => key <- py_str x ;; Ok (key, x)) l ;;
  Ok (map snd (fold_right insert_sorted [] keyed)).

(** ** [serialize] *)

Definition marked (name : string) (value : PyVal) : PyVal :=
  PDict Dict [(PStr "__type__", PStr name); (PStr "value", value)].

Fixpoint serialize (value : PyVal) : Res PyVal :=
  match value with
  | PNone => Ok PNone
  | PBool _ => Ok value
  | PDict Counter items =>
      kvs <- mapM (fun kv => let '(k, v) := kv in
                     key <- py_str k ;; x <- serialize v ;; Ok (PStr key, x))
                  items ;;
      Ok (marked "Counter" (PDict Dict (dict_of kvs)))
  | PDict OrderedDict items =>
      kvs <- mapM (fun kv => let '(k, v) := kv in
                     key <- py_str k ;; x <- serialize v ;; Ok (PStr key, x))
                  items ;;
      Ok (marked "OrderedDict" (PDict Dict (dict_of kvs)))
  | PDict Defaultdict items =>
      kvs <- mapM (fun kv => let '(k, v) := kv in
                     key <- py_str k ;; x <- serialize v ;; Ok (PStr key, x))
                  items ;;
      Ok (marked "defaultdict" (PDict Dict (dict_of kvs)))
  | PInt _ => Ok (marked "int" value)
  | PFloat f =>
      if is_nan f then Ok (marked "float" (PStr "NaN"))
      else if is_inf f then
        Ok (marked "float"
              (PStr (if Double.ltb Double.zero f then "Infinity"
                     else "-Infinity")))
      else Ok (marked "float" value)
  | PStr _ => Ok value
  | PTuple l => xs <- mapM serialize l ;; Ok (marked "tuple" (PList xs))
  | PList l => xs <- mapM serialize l ;; Ok (PList xs)
  | PDict Dict items =>
      kvs <- mapM (fun kv => let '(k, v) := kv in
                     key <- py_str k ;; x <- serialize v ;; Ok (PStr key, x))
                  items ;;
      Ok (marked "dict" (PDict Dict (dict_of kvs)))
  | PSet l =>
      xs <- mapM serialize l ;; ordered <- sorted xs ;;
      Ok (marked "set" (PList ordered))
  | PFrozenset l =>
      xs <- mapM serialize l ;; ordered <- sorted xs ;;
      Ok (marked "frozenset" (PList ordered))
  | PDeque l => xs <- mapM serialize l ;; Ok (marked "deque" (PList xs))
  end.

(** The comprehension [{str(k): serialize(v) for k, v in value.items()}]
    and the marked dictionary made of it. *)
Definition serialize_item (kv : PyVal * PyVal) : Res (PyVal * PyVal) :=
  let '(k, v) := kv in
  key <- py_str k ;; x <- serialize v ;; Ok (PStr key, x).

Definition serialized_dict (name : string) (items : list (PyVal * PyVal))
  : Res PyVal :=
  kvs <- mapM serialize_item items ;;
  Ok (marked name (PDict Dict (dict_of kvs))).

(** [sorted([serialize(v) for v in value], key=lambda x: str(x))] under
    its marker. *)
Definition serialized_set (name : string) (l : list PyVal) : Res PyVal :=
  xs <- mapM serialize l ;; ordered <- sorted xs ;;
  Ok (marked name (PList ordered)).

(** ** The tests on the class of a value, in the order a call makes them

    [deep_equals] and [serialize] once more, written test after test as
    in the source, each test on the class of an argument being recorded
    when it is made.  The nested calls are those of the functions
    above. *)

Inductive Check :=
| IsNone (v : PyVal)                      (* v is None *)
| IsInstance (v : PyVal) (c : py_class)   (* isinstance(v, c) *)
| TypesDiffer (a b : PyVal).              (* type(a) != type(b) *)

(** A result with the tests made on the way to it. *)
Definition Checked (A : Type) : Type := (list Check * A)%type.

Definition done {A} (x : A) : Checked A := ([], x).

(** The test [c], whose answer is [holds], then what follows. *)
Definition check {A} (c : Check) (holds : bool) (next : bool -> Checked A)
  : Checked A :=
  let '(t, r) := next holds in (c :: t, r).

(** [x and TEST] and [x or TEST]: the test is made only when [x] does
    not settle the answer. *)
Definition and_check {A} (x : bool) (c : Check) (holds : bool)
           (next : bool -> Checked A) : Checked A :=
  if x then check c holds next else next false.

Definition or_check {A} (x : bool) (c : Check) (holds : bool)
           (next : bool -> Checked A) : Checked A :=
  if x then next true else check c holds next.

(** What a sequence holds, the items of a dictionary, [len(v)],
    [math.isinf(v)] and [v > 0]. *)
Definition elements (v : PyVal) : list PyVal :=
  match v with
  | PList l | PTuple l | PSet l | PFrozenset l | PDeque l => l
  | _ => []
  end.

Definition items_of (v : PyVal) : list (PyVal * PyVal) :=
  match v with PDict _ items => items | _ => [] end.

Definition len (v : PyVal) : nat :=
  match v with
  | PDict _ items => List.length items
  | _ => List.length (elements v)
  end.

Definition isinf (v : PyVal) : bool :=
  match v with PFloat f => is_inf f | _ => false end.

Definition positive (v : PyVal) : bool :=
  match v with PFloat f => Double.ltb Double.zero f | _ => false end.

(** [type(v).__name__]. *)
Definition class_name (c : py_class) : string :=
  match c with
  | CNoneType => "NoneType" | Cbool => "bool" | Cint => "int"
  | Cfloat => "float" | Cstr => "str" | Clist => "list" | Ctuple => "tuple"
  | Cdict => "dict" | CCounter => "Counter" | COrderedDict => "OrderedDict"
  | Cdefaultdict => "defaultdict" | Cset => "set"
  | Cfrozenset => "frozenset" | Cdeque => "deque"
  end.

Definition deep_equals_checked (a b : PyVal) : Checked bool :=
  check (IsNone a) (is_None a) (fun a_none =>
  and_check a_none (IsNone b) (is_None b) (fun both_none =>
  if both_none then done true else
  check (IsNone a) (is_None a) (fun a_none =>
  or_check a_none (IsNone b) (is_None b) (fun one_none =>
  if one_none then done false else
  check (IsInstance a Cfloat) (isinstance a Cfloat) (fun a_float =>
  and_check a_float (IsInstance b Cfloat) (isinstance b Cfloat) (fun floats =>
  if floats && (isnan a && isnan b) then done true else
  check (TypesDiffer a b) (negb (class_eqb (type a) (type b))) (fun differ =>
  if differ then done false else
  check (IsInstance a Clist) (isinstance a Clist) (fun a_list =>
  if a_list then
    done (if negb (Nat.eqb (len a) (len b)) then false
          else all_zip deep_equals (elements a) (elements b))
  else
  check (IsInstance a Ctuple) (isinstance a Ctuple) (fun a_tuple =>
  if a_tuple then
    done (if negb (Nat.eqb (len a) (len b)) then false
          else all_zip deep_equals (elements a) (elements b))
  else
  check (IsInstance a Cdict) (isinstance a Cdict) (fun a_dict =>
  if a_dict then
    done (if negb (set_eq py_eq (dict_keys (items_of a))
                     (dict_keys (items_of b))) then false
          else items_agree py_eq deep_equals (items_of a) (items_of b))
  else
  check (IsInstance a Cset) (isinstance a Cset) (fun a_set =>
  if a_set then done (py_eq a b) else
  check (IsInstance a Cfrozenset) (isinstance a Cfrozenset) (fun a_frozenset =>
  if a_frozenset then done (py_eq a b) else
  done (py_eq a b))))))))))))).

Definition serialize_checked (value : PyVal) : Checked (Res PyVal) :=
  check (IsNone value) (is_None value) (fun is_none =>
  if is_none then done (Ok PNone) else
  check (IsInstance value Cbool) (isinstance value Cbool) (fun is_bool =>
  if is_bool then done (Ok value) else
  check (IsInstance value CCounter) (isinstance value CCounter) (fun is_counter =>
  if is_counter then done (serialized_dict "Counter" (items_of value)) else
  check (IsInstance value COrderedDict) (isinstance value COrderedDict)
    (fun is_ordered =>
  if is_ordered then done (serialized_dict "OrderedDict" (items_of value)) else
  check (IsInstance value Cdefaultdict) (isinstance value Cdefaultdict)
    (fun is_default =>
  if is_default then done (serialized_dict "defaultdict" (items_of value)) else
  check (IsInstance value Cint) (isinstance value Cint) (fun is_int =>
  if is_int then done (Ok (marked "int" value)) else
  check (IsInstance value Cfloat) (isinstance value Cfloat) (fun is_float =>
  if is_float then
    done (if isnan value then Ok (marked "float" (PStr "NaN"))
          else if isinf value then
            Ok (marked "float"
                  (PStr (if positive value then "Infinity" else "-Infinity")))
          else Ok (marked "float" value))
  else
  check (IsInstance value Cstr) (isinstance value Cstr) (fun is_str =>
  if is_str then done (Ok value) else
  check (IsInstance value Ctuple) (isinstance value Ctuple) (fun is_tuple =>
  if is_tuple then
    done (xs <- mapM serialize (elements value) ;;
          Ok (marked "tuple" (PList xs)))
  else
  check (IsInstance value Clist) (isinstance value Clist) (fun is_list =>
  if is_list then
    done (xs <- mapM serialize (elements value) ;; Ok (PList xs))
  else
  check (IsInstance value Cdict) (isinstance value Cdict) (fun is_dict =>
  if is_dict then done (serialized_dict "dict" (items_of value)) else
  check (IsInstance value Cset) (isinstance value Cset) (fun is_set =>
  if is_set then done (serialized_set "set" (elements value)) else
  check (IsInstance value Cfrozenset) (isinstance value Cfrozenset)
    (fun is_frozenset =>
  if is_frozenset then done (serialized_set "frozenset" (elements value)) else
  check (IsInstance value Cdeque) (isinstance value Cdeque) (fun is_deque =>
  if is_deque then
    done (xs <- mapM serialize (elements value) ;;
          Ok (marked "deque" (PList xs)))
  else
  done (text <- py_str value ;;
        Ok (marked (class_name (type value)) (PStr text))))))))))))))))).

(** The tests that ask whether a value is a [bool] or an [int]. *)
Definition is_bool_or_int_test (c : Check) : bool :=
  match c with
  | IsInstance _ Cbool | IsInstance _ Cint => true
  | _ => false
  end.

(** ** [convert_expected] *)

Definition one_char (c : ascii) : PyVal := PStr (String c EmptyString).

(** [int(v)]. *)
Definition py_int (v : PyVal) : Res Z :=
  match v with
  | PInt n => Ok n
  | PBool b => Ok (Z.b2z b)
  | PFloat f =>
      match trunc f with
      | Some z => Ok z
      | None => builtin_error (if is_nan f then "ValueError" else "OverflowError") v
      end
  | PStr s =>
      match int_of_str rt s with
      | Some z => Ok z
      | None => builtin_error "ValueError" v
      end
  | _ => builtin_error "TypeError" v
  end.

(** [float(v)]. *)
Definition py_float (v : PyVal) : Res double :=
  match v with
  | PFloat f => Ok f
  | PInt n =>
      if is_inf (of_Z n) then builtin_error "OverflowError" v else Ok (of_Z n)
  | PBool b => Ok (of_Z (Z.b2z b))
  | PStr s =>
      match float_of_str rt s with
      | Some f => Ok f
      | None => builtin_error "ValueError" v
      end
  | _ => builtin_error "TypeError" v
  end.

Definition key_type : PyVal := PStr "__type__".
Definition key_value : PyVal := PStr "value".

Fixpoint convert_expected (val : PyVal) : Res PyVal :=
  match val with
  | PNone => Ok PNone
  | PBool _ => Ok val
  | PDict _ fields =>
      let plain :=
        kvs <- mapM (fun kv => y <- convert_expected (snd kv) ;;
                               Ok (fst kv, y)) fields ;;
        Ok (PDict Dict (dict_of kvs)) in
      if dict_has py_eq key_type fields && dict_has py_eq key_value fields
      then
        match dict_get py_eq key_type fields with
        | Some t =>
            match
              with_item key_value (fun v =>
                (* [convert_expected(x) for x in v] *)
                let each : Res (list PyVal) :=
                  match v with
                  | PList xs | PTuple xs | PSet xs | PFrozenset xs
                  | PDeque xs => mapM convert_expected xs
                  | PStr s => Ok (map one_char (Text.chars s))
                  | PDict _ m => mapM (fun kv => convert_expected (fst kv)) m
                  | _ => builtin_error "TypeError" v
                  end in
                (* [set(convert_expected(x) for x in v)] *)
                let each_set : Res (list PyVal) :=
                  match v with
                  | PList xs | PTuple xs | PSet xs | PFrozenset xs
                  | PDeque xs => set_from convert_expected xs []
                  | PStr s => set_of (map one_char (Text.chars s))
                  | PDict _ m =>
                      set_from (fun kv => convert_expected (fst kv)) m []
                  | _ => builtin_error "TypeError" v
                  end in
                (* [{k: convert_expected(x) for k, x in v.items()}] *)
                let each_item : Res (list (PyVal * PyVal)) :=
                  match v with
                  | PDict _ m =>
                      kvs <- mapM (fun kv => y <- convert_expected (snd kv) ;;
                                             Ok (fst kv, y)) m ;;
                      Ok (dict_of kvs)
                  | _ => builtin_error "AttributeError" v
                  end in
                if py_eq t (PStr "tuple") then
                  Some (l <- each ;; Ok (PTuple l))
                else if py_eq t (PStr "set") then
                  Some (l <- each_set ;; Ok (PSet l))
                else if py_eq t (PStr "frozenset") then
                  Some (l <- each_set ;; Ok (PFrozenset l))
                else if py_eq t (PStr "int") then
                  Some (n <- py_int v ;; Ok (PInt n))
                else if py_eq t (PStr "float") then
                  Some (if py_eq v (PStr "NaN") then Ok (PFloat nan)
                        else if py_eq v (PStr "Infinity") then Ok (PFloat pos_inf)
                        else if py_eq v (PStr "-Infinity") then Ok (PFloat neg_inf)
                        else f <- py_float v ;; Ok (PFloat f))
                else if py_eq t (PStr "dict") then
                  Some (m <- each_item ;; Ok (PDict Dict m))
                else if py_eq t (PStr "deque") then
                  Some (l <- each ;; Ok (PDeque l))
                else if py_eq t (PStr "Counter") then
                  Some (m <- each_item ;; Ok (PDict Counter m))
                else if py_eq t (PStr "OrderedDict") then
                  Some (m <- each_item ;; Ok (PDict OrderedDict m))
                else if py_eq t (PStr "defaultdict") then
                  Some (m <- each_item ;; Ok (PDict Defaultdict m))
                else if py_eq t (PStr "undefined") then
                  Some (Ok PNone)
                else None) fields
            with
            | Some (Some r) => r
            | _ => plain
            end
        | None => plain
        end
      else plain
  | PList l => l' <- mapM convert_expected l ;; Ok (PList l')
  | PInt _ | PFloat _ => Ok val
  | PStr _ => Ok val
  | _ => Ok val
  end.

(** ** [parse_expected_value] *)

(** The characters [str.strip()] removes. *)
Definition py_isspace (c : ascii) : bool :=
  let n := Text.code c in
  (((9 <=? n) && (n <=? 13)) || ((28 <=? n) && (n <=? 32))
   || (n =? 133) || (n =? 160))%N.

Definition strip (s : string) : string := Text.strip_with py_isspace s.

(** A match of a pattern made of a fixed prefix, any text (the group,
    with [re.DOTALL]) and a fixed suffix: the group. *)
Definition unwrap (prefix suffix s : string) : option string :=
  if Text.starts_with prefix s && Text.ends_with suffix s
     && (String.length prefix + String.length suffix <=? String.length s)%nat
  then Some (substring (String.length prefix)
               (String.length s - String.length prefix - String.length suffix) s)
  else None.

(** The value [v] iterates over. *)
Definition py_iter (v : PyVal) : Res (list PyVal) :=
  match v with
  | PList xs | PTuple xs | PSet xs | PFrozenset xs | PDeque xs => Ok xs
  | PStr s => Ok (map one_char (Text.chars s))
  | PDict _ m => Ok (dict_keys m)
  | _ => builtin_error "TypeError" v
  end.

(** [frozenset(v)]. *)
Definition py_frozenset (v : PyVal) : Res PyVal :=
  xs <- py_iter v ;; l <- set_of xs ;; Ok (PFrozenset l).

(** The tally of a [Counter] built from an iterable. *)
Fixpoint count_elements (xs : list PyVal) (acc : list (PyVal * PyVal))
  : Res (list (PyVal * PyVal)) :=
  match xs with
  | [] => Ok acc
  | x :: r =>
      if hashable x then
        count_elements r
          (dict_set x (match dict_get py_eq x acc with
                       | Some (PInt n) => PInt (n + 1)
                       | _ => PInt 1
                       end) acc)
      else builtin_error "TypeError" x
  end.

(** [Counter(v)]. *)
Definition py_Counter (v : PyVal) : Res PyVal :=
  match v with
  | PDict _ m => Ok (PDict Counter m)
  | _ => xs <- py_iter v ;; m <- count_elements xs [] ;; Ok (PDict Counter m)
  end.

(** The items of [dict(pairs)]: every element is a sequence of two. *)
Fixpoint pairs_of (xs : list PyVal) (acc : list (PyVal * PyVal))
  : Res (list (PyVal * PyVal)) :=
  match xs with
  | [] => Ok acc
  | x :: r =>
      match py_iter x with
      | Ok [k; v] =>
          if hashable k then pairs_of r (dict_set k v acc)
          else builtin_error "TypeError" k
      | Ok _ => builtin_error "ValueError" x
      | Raise e => Raise e
      end
  end.

(** [OrderedDict(v)]. *)
Definition py_OrderedDict (v : PyVal) : Res PyVal :=
  match v with
  | PDict _ m => Ok (PDict OrderedDict m)
  | _ => xs <- py_iter v ;; m <- pairs_of xs [] ;; Ok (PDict OrderedDict m)
  end.

(** [deque(v)]. *)
Definition py_deque (v : PyVal) : Res PyVal :=
  xs <- py_iter v ;; Ok (PDeque xs).

(** [list(range(start, stop, step))]. *)
Definition py_range (start stop step : Z) : Res PyVal :=
  if step =? 0 then builtin_error "ValueError" (PInt step)
  else
    let span := if 0 <? step then stop - start else start - stop in
    let count := if 0 <? span then (span + Z.abs step - 1) / Z.abs step else 0 in
    Ok (PList (map (fun i => PInt (start + Z.of_nat i * step))
                   (seq 0 (Z.to_nat count)))).

(** [s.split(',')]. *)
Fixpoint split_commas (l : list ascii) (cur : list ascii) : list string :=
  match l with
  | [] => [Text.of_chars (rev cur)]
  | c :: r =>
      if Ascii.eqb c "," then Text.of_chars (rev cur) :: split_commas r []
      else split_commas r (c :: cur)
  end.

Definition str_to_int (s : string) : Res Z :=
  match int_of_str rt s with
  | Some n => Ok n
  | None => builtin_error "ValueError" (PStr s)
  end.

(** A block [try: ... except: pass]: [None] when the block raised. *)
Definition try_pass (r : Res PyVal) : option (Res PyVal) :=
  match r with
  | Ok v => Some (Ok v)
  | Raise _ => None
  end.

(** A block [try: ... except (C1, C2): pass]. *)
Definition try_except (classes : list string) (r : Res PyVal)
  : option (Res PyVal) :=
  match r with
  | Ok v => Some (Ok v)
  | Raise e => if existsb (exc_isinstance e) classes then None
               else Some (Raise e)
  end.

(** A statement either returns (or raises) or lets the next one run. *)
Definition or_else {A} (step : option A) (next : A) : A :=
  match step with
  | Some r => r
  | None => next
  end.

Definition when {A} (c : bool) (r : A) : option A :=
  if c then Some r else None.

(** A constructor call [NAME(OPEN ... CLOSE)] whose argument is read by
    [ast.literal_eval] and handed to [build]. *)
Definition constructor_call (name opening closing : string)
           (empty : PyVal) (build : PyVal -> Res PyVal) (trimmed : string)
  : option (Res PyVal) :=
  if String.eqb trimmed (name ++ "()") then Some (Ok empty)
  else
    match unwrap (name ++ "(" ++ opening) (closing ++ ")") trimmed with
    | Some group =>
        let inner := strip group in
        if String.eqb inner "" then Some (Ok empty)
        else try_pass (lit <- literal_eval rt (opening ++ inner ++ closing) ;;
                       build lit)
    | None => None
    end.

Definition range_call (trimmed : string) : option (Res PyVal) :=
  match unwrap "list(range(" "))" trimmed with
  | Some group =>
      if negb (String.eqb group "")
         && negb (existsb (Ascii.eqb ")") (Text.chars group))
      then
        let args := strip group in
        match mapM (fun x => str_to_int (strip x))
                   (split_commas (Text.chars args) []) with
        | Ok [a] => try_pass (py_range 0 a 1)
        | Ok [a; b] => try_pass (py_range a b 1)
        | Ok [a; b; c] => try_pass (py_range a b c)
        | _ => None
        end
      else None
  | None => None
  end.

(** The pattern of [N**M]: the two integer literals. *)
Definition power_operands (trimmed : string) : option (string * string) :=
  let '(a, rest) := Text.break (Ascii.eqb "*") (Text.chars trimmed) in
  match rest with
  | _ :: star :: b =>
      if Ascii.eqb star "*" && Text.is_int_literal (Text.of_chars a)
         && Text.is_int_literal (Text.of_chars b)
      then Some (Text.of_chars a, Text.of_chars b) else None
  | _ => None
  end.

Definition power_expression (trimmed : string) : option (Res PyVal) :=
  match power_operands trimmed with
  | Some (b, e) =>
      match str_to_int b, str_to_int e with
      | Ok base, Ok exp =>
          when ((0 <=? exp) && (exp <=? 1000)) (Ok (PInt (base ^ exp)))
      | _, _ => None
      end
  | None => None
  end.

Definition keyword (trimmed : string) : option (Res PyVal) :=
  if String.eqb trimmed "True" then Some (Ok (PBool true))
  else if String.eqb trimmed "False" then Some (Ok (PBool false))
  else if String.eqb trimmed "None" then Some (Ok PNone)
  else if String.eqb trimmed "undefined" then Some (Ok PNone)
  else if String.eqb trimmed "NaN" then Some (Ok (PFloat nan))
  else if String.eqb trimmed "Infinity" then Some (Ok (PFloat pos_inf))
  else if String.eqb trimmed "-Infinity" then Some (Ok (PFloat neg_inf))
  else None.

Definition normalize (trimmed : string) : string :=
  sub_word rt "null" "None"
    (sub_word rt "false" "False" (sub_word rt "true" "True" trimmed)).

Definition parse_expected_value (val : PyVal) : Res PyVal :=
  match val with
  | PStr text =>
      let trimmed := strip text in
      or_else (try_except ["JSONDecodeError"; "ValueError"]
                 (parsed <- json_loads rt trimmed ;; convert_expected parsed))
     (or_else (keyword trimmed)
     (or_else (constructor_call "frozenset" "{" "}" (PFrozenset [])
                 py_frozenset trimmed)
     (or_else (constructor_call "Counter" "{" "}" (PDict Counter [])
                 py_Counter trimmed)
     (or_else (constructor_call "OrderedDict" "[" "]" (PDict OrderedDict [])
                 py_OrderedDict trimmed)
     (or_else (constructor_call "deque" "[" "]" (PDeque []) py_deque trimmed)
     (or_else (when (String.eqb trimmed "defaultdict()")
                 (Ok (PDict Defaultdict [])))
     (or_else (range_call trimmed)
     (or_else (power_expression trimmed)
     (or_else (when (Text.is_int_literal trimmed)
                 (n <- str_to_int trimmed ;; Ok (PInt n)))
     (or_else (when (Text.is_frac_literal trimmed
                     || Text.is_trailing_dot_literal trimmed)
                 (match float_of_str rt trimmed with
                  | Some f => Ok (PFloat f)
                  | None => builtin_error "ValueError" val
                  end))
     (or_else (try_except ["ValueError"; "SyntaxError"]
                 (literal_eval rt (normalize trimmed)))
        (Ok val))))))))))))
  | _ => convert_expected val
  end.

(** ** The batch loop *)

Record TestCase := { call : string; expected : PyVal }.

Record TestResult := {
  index : nat;
  actual : PyVal;
  expected_serialized : PyVal;
  passed : bool;
  error : option string
}.

Section Batch.

(** The state of the interpreter, which the evaluated call may change,
    and [eval] in that state. *)
Variable World : Type.
Variable eval : World -> string -> Res PyVal * World.

(** The body of the [try] for the test case [tc] at index [i]. *)
Definition attempt (w : World) (i : nat) (tc : TestCase)
  : Res TestResult * World :=
  let '(r, w') := eval w (call tc) in
  (actual <- r ;;
   expected <- parse_expected_value (expected tc) ;;
   let passed := deep_equals actual expected in
   actual_serialized <- serialize actual ;;
   expected_serialized <- serialize expected ;;
   Ok {| index := i;
         actual := actual_serialized;
         expected_serialized := expected_serialized;
         passed := passed;
         error := None |},
   w').

Definition failure (i : nat) (e : PyExc) : TestResult :=
  {| index := i;
     actual := PNone;
     expected_serialized := PNone;
     passed := false;
     error := Some (exc_name e ++ ": " ++ exc_str e) |}.

(** The loop over the test cases from index [i] on; an exception that
    is no [Exception] leaves the loop and ends the program. *)
Fixpoint run_from (w : World) (i : nat) (tcs : list TestCase)
         (results : list TestResult) : Res (list TestResult) :=
  match tcs with
  | [] => Ok results
  | tc :: rest =>
      match attempt w i tc with
      | (Ok r, w') => run_from w' (S i) rest (results ++ [r])
      | (Raise e, w') =>
          if exc_isinstance e "Exception"
          then run_from w' (S i) rest (results ++ [failure i e])
          else Raise e
      end
  end.

Definition run (w : World) (test_cases : list TestCase)
  : Res (list TestResult) :=
  run_from w 0 test_cases [].

(** The dictionary appended for a test case. *)
Definition record (r : TestResult) : PyVal :=
  PDict Dict
    [ (PStr "index", PInt (Z.of_nat (index r)));
      (PStr "actual", actual r);
      (PStr "expected_serialized", expected_serialized r);
      (PStr "passed", PBool (passed r));
      (PStr "error", match error r with
                     | Some text => PStr text
                     | None => PNone
                     end) ].

(** The loop, then [sys.stdout.write(json.dumps(results))], which stands
    outside every [try]: the text written, or the exception that ends the
    program with nothing written. *)
Definition main (w : World) (test_cases : list TestCase) : Res string :=
  results <- run w test_cases ;;
  json_dumps rt (PList (map record results)).

End Batch.

End Runner.

End Python.

(* ------------------------------------------------------------------ *)
(** * JavaScript values

    The values the TypeScript runner and the generators handle: the
    primitives, arrays and plain objects.  An array is the list of its
    elements: it has no holes, every index below its length is a property
    of its own.  An object is the list of its own properties, whose names
    are pairwise different. *)

Module JS.

Inductive JsVal :=
| JUndefined
| JNull
| JBool (b : bool)
| JNum (f : double)
| JStr (s : string)
| JArr (l : list JsVal)
| JObj (fields : list (string * JsVal)).

Inductive js_type := Tundefined | Tobject | Tboolean | Tnumber | Tstring.

Definition typeof (v : JsVal) : js_type :=
  match v with
  | JUndefined => Tundefined
  | JNull | JArr _ | JObj _ => Tobject
  | JBool _ => Tboolean
  | JNum _ => Tnumber
  | JStr _ => Tstring
  end.

Definition type_eqb (s t : js_type) : bool :=
  match s, t with
  | Tundefined, Tundefined | Tobject, Tobject | Tboolean, Tboolean
  | Tnumber, Tnumber | Tstring, Tstring => true
  | _, _ => false
  end.

Definition isArray (v : JsVal) : bool :=
  match v with JArr _ => true | _ => false end.

(** [a === b].  Two arrays or objects are the same only when they are one
    object; the values compared by the runner are built separately. *)
Definition strict_eq (a b : JsVal) : bool :=
  match a, b with
  | JUndefined, JUndefined => true
  | JNull, JNull => true
  | JBool x, JBool y => Bool.eqb x y
  | JNum x, JNum y => Double.eqb x y
  | JStr x, JStr y => String.eqb x y
  | _, _ => false
  end.

(** [isNaN(v)] and [isFinite(v)] on a number. *)
Definition isNaN (v : JsVal) : bool :=
  match v with JNum f => is_nan f | _ => false end.

Definition isFinite (v : JsVal) : bool :=
  match v with JNum f => negb (is_nan f || is_inf f) | _ => false end.

(** The characters below 256 that [String.prototype.trim] removes. *)
Definition js_isspace (c : ascii) : bool :=
  let n := Text.code c in
  (((9 <=? n) && (n <=? 13)) || (n =? 32) || (n =? 160))%N.

Definition trim (s : string) : string := Text.strip_with js_isspace s.

(** [v[k]] for a property name [k]. *)
Fixpoint get_field (k : string) (fields : list (string * JsVal)) : JsVal :=
  match fields with
  | [] => JUndefined
  | (k', v) :: r => if String.eqb k k' then v else get_field k r
  end.

Definition index_name (i : nat) : string := Text.decimal (Z.of_nat i).

(** The own properties of an array: its elements under their indices. *)
Fixpoint indexed (i : nat) (l : list JsVal) : list (string * JsVal) :=
  match l with
  | [] => []
  | x :: r => (index_name i, x) :: indexed (S i) r
  end.

(** [Object.keys(v)] of an array or object. *)
Definition keys (v : JsVal) : list string :=
  match v with
  | JArr l => map fst (indexed 0 l)
  | JObj fields => map fst fields
  | _ => []
  end.

Definition get (v : JsVal) (k : string) : JsVal :=
  match v with
  | JArr l => get_field k (indexed 0 l)
  | JObj fields => get_field k fields
  | _ => JUndefined
  end.

Fixpoint insert_key (k : string) (l : list string) : list string :=
  match l with
  | [] => [k]
  | y :: r => if String.ltb y k then y :: insert_key k r else k :: l
  end.

(** [keys.sort()]. *)
Definition sort_keys (l : list string) : list string :=
  fold_right insert_key [] l.

Fixpoint list_eqb (l m : list string) : bool :=
  match l, m with
  | [], [] => true
  | x :: l', y :: m' => String.eqb x y && list_eqb l' m'
  | _, _ => false
  end.

End JS.

(* ------------------------------------------------------------------ *)
(** * The TypeScript runner ([TypeScriptGenerator.generateRunner]) *)

Module TypeScript.

Import JS.

Section Compare.

Variable eq : JsVal -> JsVal -> bool.

(** [a.every((v, i) => eq(v, b[i]))]. *)
Fixpoint every_index (a b : list JsVal) : bool :=
  match a with
  | [] => true
  | v :: a' =>
      eq v (hd JUndefined b) && every_index a' (tl b)
  end.

(** [eq(a[k], b[k])] for every own property [k] of an object. *)
Fixpoint every_field (a : list (string * JsVal)) (b : JsVal) : bool :=
  match a with
  | [] => true
  | (k, v) :: a' => eq v (get b k) && every_field a' b
  end.

(** The same for the elements of an array under their indices. *)
Fixpoint every_element (i : nat) (a : list JsVal) (b : JsVal) : bool :=
  match a with
  | [] => true
  | v :: a' => eq v (get b (index_name i)) && every_element (S i) a' b
  end.

End Compare.

(** [__deepEquals__].  The last test runs over the sorted keys in the
    source; a conjunction over the properties in their own order is the
    same boolean. *)
Fixpoint __deepEquals__ (a b : JsVal) {struct a} : bool :=
  if strict_eq a b then true
  else if strict_eq a JNull || strict_eq b JNull then strict_eq a b
  else if strict_eq a JUndefined || strict_eq b JUndefined then strict_eq a b
  else if type_eqb (typeof a) Tnumber && type_eqb (typeof b) Tnumber
          && (isNaN a && isNaN b) then true
  else if negb (type_eqb (typeof a) (typeof b)) then false
  else
    match a with
    | JArr xs =>
        match b with
        | JArr ys =>
            if negb (Nat.eqb (List.length xs) (List.length ys)) then false
            else every_index __deepEquals__ xs ys
        | _ =>
            let keysA := sort_keys (keys a) in
            let keysB := sort_keys (keys b) in
            if negb (Nat.eqb (List.length keysA) (List.length keysB)) then false
            else if negb (list_eqb keysA keysB) then false
            else every_element __deepEquals__ 0 xs b
        end
    | JObj fields =>
        let keysA := sort_keys (keys a) in
        let keysB := sort_keys (keys b) in
        if negb (Nat.eqb (List.length keysA) (List.length keysB)) then false
        else if negb (list_eqb keysA keysB) then false
        else every_field __deepEquals__ fields b
    | _ => false
    end.

(** [result[k] = v] on the properties of an object made by [{}].  The
    name [__proto__] reaches the setter that [Object.prototype] has under
    that name: the object gets no property of its own.  Any other name
    gets the value, in the place of the property when the object has it
    already and after the others when it has not. *)
Fixpoint assign (k : string) (v : JsVal) (result : list (string * JsVal))
  : list (string * JsVal) :=
  match result with
  | [] => [(k, v)]
  | (k', v') :: r =>
      if String.eqb k k' then (k', v) :: r else (k', v') :: assign k v r
  end.

Definition set_property (k : string) (v : JsVal)
           (result : list (string * JsVal)) : list (string * JsVal) :=
  if String.eqb k "__proto__" then result else assign k v result.

Fixpoint __serialize__ (value : JsVal) : JsVal :=
  match value with
  | JUndefined => JNull
  | JNull => JNull
  | JNum f =>
      if isNaN value then JStr "NaN"
      else if negb (isFinite value) then
        JStr (if Double.ltb Double.zero f then "Infinity" else "-Infinity")
      else value
  | JArr l => JArr (map __serialize__ l)
  | JObj fields =>
      JObj (fold_left (fun result kv =>
                         let '(k, v) := kv in
                         set_property k (__serialize__ v) result)
                      fields [])
  | _ => value
  end.

Record Runtime := {
  JSON_parse : string -> option JsVal;   (* None: JSON.parse throws *)
  parseInt : string -> double;           (* parseInt(s, 10) *)
  parseFloat : string -> double
}.

Section Runner.

Variable rt : Runtime.

Definition looks_like_json (trimmed : string) : bool :=
  (Text.starts_with "[" trimmed && Text.ends_with "]" trimmed)
  || (Text.starts_with "{" trimmed && Text.ends_with "}" trimmed).

Definition __parseExpected__ (val : JsVal) : JsVal :=
  match val with
  | JStr text =>
      let trimmed := trim text in
      match (if looks_like_json trimmed then JSON_parse rt trimmed else None) with
      | Some parsed => parsed
      | None =>
          if String.eqb trimmed "true" then JBool true
          else if String.eqb trimmed "false" then JBool false
          else if String.eqb trimmed "null" then JNull
          else if String.eqb trimmed "undefined" then JUndefined
          else if String.eqb trimmed "NaN" then JNum nan
          else if String.eqb trimmed "Infinity" then JNum pos_inf
          else if String.eqb trimmed "-Infinity" then JNum neg_inf
          else if Text.is_int_literal trimmed then JNum (parseInt rt trimmed)
          else if Text.is_frac_literal trimmed then JNum (parseFloat rt trimmed)
          else val
      end
  | _ => val
  end.

(** ** The batch loop *)

Record TestCase := { call : string; expected : JsVal }.

Record TestResult := {
  index : nat;
  actual : JsVal;
  expected_serialized : JsVal;
  passed : bool;
  error : JsVal
}.

(** What a call throws: [null] or [undefined], or a value given by its
    [name] and [message] properties (a string, or absent) and by its
    [String(e)]. *)
Inductive Thrown :=
| ThrownNullish
| ThrownValue (name message : option string) (text : string).

(** [x || d] for a property [x] that is a string or absent. *)
Definition or_default (x : option string) (d : string) : string :=
  match x with
  | Some s => if String.eqb s "" then d else s
  | None => d
  end.

Section Batch.

Variable World : Type.
Variable eval : World -> string -> (JsVal + Thrown) * World.

Definition success (i : nat) (actual expected : JsVal) : TestResult :=
  {| index := i;
     actual := __serialize__ actual;
     expected_serialized := __serialize__ expected;
     passed := __deepEquals__ actual expected;
     error := JNull |}.

(** The [catch] block; reading a property of [null] or [undefined]
    throws in its turn. *)
Definition failure (i : nat) (e : Thrown) : option TestResult :=
  match e with
  | ThrownNullish => None
  | ThrownValue name message text =>
      Some {| index := i;
              actual := JNull;
              expected_serialized := JNull;
              passed := false;
              error := JStr (or_default name "Error" ++ ": "
                             ++ or_default message text) |}
  end.

(** The loop from index [i] on; [None] when an exception left it. *)
Fixpoint run_from (w : World) (i : nat) (tcs : list TestCase)
         (results : list TestResult) : option (list TestResult) :=
  match tcs with
  | [] => Some results
  | tc :: rest =>
      match eval w (call tc) with
      | (inl actual, w') =>
          run_from w' (S i) rest
            (results ++ [success i actual (__parseExpected__ (expected tc))])
      | (inr e, w') =>
          match failure i e with
          | Some r => run_from w' (S i) rest (results ++ [r])
          | None => None
          end
      end
  end.

Definition run (w : World) (test_cases : list TestCase)
  : option (list TestResult) :=
  run_from w 0 test_cases [].

End Batch.

End Runner.

End TypeScript.

(* ------------------------------------------------------------------ *)
(** * The generator helper [CppGenerator.convertCppToJson] *)

Module Cpp.

Import JS.

(** The variables of the rewriting loop. *)
Record Scan := {
  result : list ascii;
  inString : bool;
  escapeNext : bool
}.

Definition start : Scan :=
  {| result := []; inString := false; escapeNext := false |}.

Definition backslash : ascii := Text.backslash.
Definition quote : ascii := Text.quote.

(** One turn of the loop, on the character [char]. *)
Definition step (st : Scan) (char : ascii) : Scan :=
  if escapeNext st then
    {| result := result st ++ [char]; inString := inString st;
       escapeNext := false |}
  else if Ascii.eqb char backslash then
    {| result := result st ++ [char]; inString := inString st;
       escapeNext := true |}
  else if Ascii.eqb char quote then
    {| result := result st ++ [char]; inString := negb (inString st);
       escapeNext := escapeNext st |}
  else if negb (inString st) then
    if Ascii.eqb char "{" then
      {| result := result st ++ ["["%char]; inString := inString st;
         escapeNext := escapeNext st |}
    else if Ascii.eqb char "}" then
      {| result := result st ++ ["]"%char]; inString := inString st;
         escapeNext := escapeNext st |}
    else
      {| result := result st ++ [char]; inString := inString st;
         escapeNext := escapeNext st |}
  else
    {| result := result st ++ [char]; inString := inString st;
       escapeNext := escapeNext st |}.

(** The text the loop builds from [trimmed]. *)
Definition rewrite (trimmed : string) : string :=
  Text.of_chars (result (fold_left step (Text.chars trimmed) start)).

Section Convert.

(** [JSON.parse]; [None] when it throws. *)
Variable JSON_parse : string -> option JsVal.

Definition convertCppToJson (value : JsVal) : JsVal :=
  match value with
  | JStr text =>
      let trimmed := trim text in
      if negb (Text.starts_with "{" trimmed) || negb (Text.ends_with "}" trimmed)
      then value
      else
        match JSON_parse (rewrite trimmed) with
        | Some parsed => parsed
        | None => value
        end
  | _ => value
  end.

End Convert.

(** ** String literals

    A backslash that is not itself escaped escapes the character after
    it; a double quote that is not escaped opens or closes a string
    literal. *)

Fixpoint escaped (l : list ascii) (i : nat) : bool :=
  match i with
  | O => false
  | S j => Ascii.eqb (nth j l Ascii.zero) backslash && negb (escaped l j)
  end.

Fixpoint inside_literal (l : list ascii) (i : nat) : bool :=
  match i with
  | O => false
  | S j =>
      xorb (inside_literal l j)
           (Ascii.eqb (nth j l Ascii.zero) quote && negb (escaped l j))
  end.

(** The bracket that stands for a brace. *)
Definition bracket (c : ascii) : ascii :=
  if Ascii.eqb c "{" then "["%char
  else if Ascii.eqb c "}" then "]"%char
  else c.

End Cpp.

(* ------------------------------------------------------------------ *)
(** * The Java runner ([JavaGenerator.generateRunner])

    Values: [null], [Boolean], the integral numbers ([Integer], [Long]),
    [Double], [String], [List], arrays and [Map]. *)

Module Java.

Inductive JavaVal :=
| JvNull
| JvBoolean (b : bool)
| JvInteger (n : Z)
| JvDouble (f : double)
| JvString (s : string)
| JvList (l : list JavaVal)
| JvArray (l : list JavaVal)
| JvMap (entries : list (JavaVal * JavaVal)).

Definition is_null (v : JavaVal) : bool :=
  match v with JvNull => true | _ => false end.

(** [v instanceof Number] and [((Number) v).doubleValue()]. *)
Definition doubleValue (v : JavaVal) : option double :=
  match v with
  | JvInteger n => Some (of_Z n)
  | JvDouble f => Some f
  | _ => None
  end.

Definition double_bits_eqb (f g : double) : bool :=
  match f, g with
  | S754_zero s, S754_zero t => Bool.eqb s t
  | S754_infinity s, S754_infinity t => Bool.eqb s t
  | S754_nan, S754_nan => true
  | S754_finite s m e, S754_finite t n d =>
      Bool.eqb s t && Pos.eqb m n && Z.eqb e d
  | _, _ => false
  end.

Section Equals.

Variable eq : JavaVal -> JavaVal -> bool.

Fixpoint all2 (xs ys : list JavaVal) : bool :=
  match xs, ys with
  | [], [] => true
  | x :: xs', y :: ys' => eq x y && all2 xs' ys'
  | _, _ => false
  end.

(** [m.containsKey(k)] and [m.get(k)]. *)
Definition containsKey (m : list (JavaVal * JavaVal)) (k : JavaVal) : bool :=
  existsb (fun kv => eq k (fst kv)) m.

Fixpoint map_get (m : list (JavaVal * JavaVal)) (k : JavaVal) : JavaVal :=
  match m with
  | [] => JvNull
  | (k', v) :: r => if eq k k' then v else map_get r k
  end.

End Equals.

(** [a.equals(b)] on keys and on the values left to it: numbers and
    texts by class and value, lists element by element; an array only
    equals itself and maps are not used as keys.  A [null] key is the
    [null] key. *)
Fixpoint equals (a b : JavaVal) {struct a} : bool :=
  match a, b with
  | JvNull, JvNull => true
  | JvBoolean x, JvBoolean y => Bool.eqb x y
  | JvInteger x, JvInteger y => Z.eqb x y
  | JvDouble x, JvDouble y => double_bits_eqb x y
  | JvString x, JvString y => String.eqb x y
  | JvList xs, JvList ys => all2 equals xs ys
  | _, _ => false
  end.

Section Runner.

(** [Double.toString] and the [toString] of the containers. *)
Variable toString : JavaVal -> string.

(** [String.valueOf(v)]. *)
Definition valueOf (v : JavaVal) : string :=
  match v with
  | JvNull => "null"
  | JvBoolean true => "true"
  | JvBoolean false => "false"
  | JvInteger n => Text.decimal n
  | JvString s => s
  | _ => toString v
  end.

Section Each.

Variable eq : JavaVal -> JavaVal -> bool.

(** The loop over two sequences of the same length. *)
Fixpoint each_pair (la lb : list JavaVal) : bool :=
  match la, lb with
  | x :: la', y :: lb' => if negb (eq x y) then false else each_pair la' lb'
  | _, _ => true
  end.

(** The loop over the entries of the first map. *)
Fixpoint each_entry (ma mb : list (JavaVal * JavaVal)) : bool :=
  match ma with
  | [] => true
  | (key, va) :: rest =>
      let keyStr := JvString (valueOf key) in
      let vb := if containsKey equals mb key then map_get equals mb key
                else map_get equals mb keyStr in
      if is_null vb && negb (containsKey equals mb key)
         && negb (containsKey equals mb keyStr) then false
      else if negb (eq va vb) then false
      else each_entry rest mb
  end.

End Each.

Fixpoint deepEquals (a b : JavaVal) {struct a} : bool :=
  if is_null a && is_null b then true
  else if is_null a || is_null b then false
  else
    match doubleValue a, doubleValue b with
    | Some da, Some db =>
        if is_nan da && is_nan db then true else Double.eqb da db
    | _, _ =>
        match a, b with
        | JvList la, JvList lb =>
            if negb (Nat.eqb (List.length la) (List.length lb)) then false
            else each_pair deepEquals la lb
        | JvArray la, (JvList lb | JvArray lb) =>
            if negb (Nat.eqb (List.length la) (List.length lb)) then false
            else each_pair deepEquals la lb
        | JvMap ma, JvMap mb =>
            if negb (Nat.eqb (List.length ma) (List.length mb)) then false
            else each_entry deepEquals ma mb
        | _, _ => equals a b
        end
    end.

(** The replacements of [serialize] in a text: a backslash, then a
    double quote, each preceded by a backslash. *)
Fixpoint escape (l : list ascii) : list ascii :=
  match l with
  | [] => []
  | c :: r =>
      if Ascii.eqb c Text.backslash || Ascii.eqb c Text.quote
      then Text.backslash :: c :: escape r
      else c :: escape r
  end.

Definition quoted (s : string) : string := Text.quoted s.

Fixpoint join (l : list string) : string :=
  match l with
  | [] => ""
  | [x] => x
  | x :: r => x ++ "," ++ join r
  end.

Fixpoint serialize (obj : JavaVal) : string :=
  match obj with
  | JvNull => "null"
  | JvBoolean b => if b then "true" else "false"
  | JvInteger n =>
      let d := of_Z n in
      if is_nan d then quoted "NaN"
      else if is_inf d then
        (if Double.ltb Double.zero d then quoted "Infinity" else quoted "-Infinity")
      else Text.decimal n
  | JvDouble d =>
      if is_nan d then quoted "NaN"
      else if is_inf d then
        (if Double.ltb Double.zero d then quoted "Infinity" else quoted "-Infinity")
      else toString obj
  | JvString s => quoted (Text.of_chars (escape (Text.chars s)))
  | JvList l | JvArray l => "[" ++ join (map serialize l) ++ "]"
  | JvMap m =>
      "{" ++ join (map (fun kv => let '(k, v) := kv in
                          quoted (valueOf k) ++ ":" ++ serialize v) m) ++ "}"
  end.

End Runner.

End Java.

(* ------------------------------------------------------------------ *)
(** * The C# and C runners: the comparison of two numbers *)

Module CSharp.

(** The values of the C# runner that are no dictionaries. *)
Inductive CsVal :=
| CsNull
| CsBool (b : bool)
| CsInt (n : Z)
| CsDouble (f : double)
| CsString (s : string)
| CsList (l : list CsVal)
| CsTuple (l : list CsVal).

Definition is_null (v : CsVal) : bool :=
  match v with CsNull => true | _ => false end.

(** [IsNumeric(o)] and [Convert.ToDouble(o)]. *)
Definition ToDouble (v : CsVal) : option double :=
  match v with
  | CsInt n => Some (of_Z n)
  | CsDouble f => Some f
  | _ => None
  end.

Definition is_string (v : CsVal) : bool :=
  match v with CsString _ => true | _ => false end.

(** [Math.Abs(da - db) < 0.0000001]. *)
Definition within_tolerance (da db : double) : bool :=
  Double.ltb (Double.abs (Double.sub da db)) tolerance.

Section Runner.

Variable ToString : CsVal -> string.

Section Each.

Variable eq : CsVal -> CsVal -> bool.

Fixpoint each_pair (la lb : list CsVal) : bool :=
  match la, lb with
  | x :: la', y :: lb' => if negb (eq x y) then false else each_pair la' lb'
  | _, _ => true
  end.

End Each.

Definition to_string (v : CsVal) : string :=
  match v with
  | CsString s => s
  | _ => ToString v
  end.

(** [DeepEquals]; a tuple on the left starts the comparison again as
    the list of its fields. *)
Fixpoint DeepEquals (a b : CsVal) {struct a} : bool :=
  if is_null a && is_null b then true
  else if is_null a || is_null b then false
  else
    match ToDouble a, ToDouble b with
    | Some da, Some db =>
        if is_nan da && is_nan db then true else within_tolerance da db
    | _, _ =>
        match a, b with
        | (CsTuple la | CsList la), CsList lb =>
            if negb (Nat.eqb (List.length la) (List.length lb)) then false
            else each_pair DeepEquals la lb
        | CsTuple la, _ =>
            if is_string b
            then String.eqb (to_string (CsList la)) (to_string b)
            else false
        | CsBool x, CsBool y => Bool.eqb x y
        | _, _ =>
            if is_string a || is_string b
            then String.eqb (to_string a) (to_string b)
            else false
        end
    end.

End Runner.

End CSharp.

Module C.

(** The test the C generator emits for an expected number that is no
    integer: [fabs(actual - expected) < 0.0000001]. *)
Definition passed_double (actual expected : double) : bool :=
  Double.ltb (Double.abs (Double.sub actual expected)) tolerance.

End C.

(* ------------------------------------------------------------------ *)
(** * Values that survive the round trip of the Python runner *)

Module RoundTrip.

Import Python.

(** Induction over a value and the values inside it. *)
Section PyVal_induction.

Variable P : PyVal -> Prop.

Hypothesis HNone : P PNone.
Hypothesis HBool : forall b, P (PBool b).
Hypothesis HInt : forall n, P (PInt n).
Hypothesis HFloat : forall f, P (PFloat f).
Hypothesis HStr : forall s, P (PStr s).
Hypothesis HList : forall l, Forall P l -> P (PList l).
Hypothesis HTuple : forall l, Forall P l -> P (PTuple l).
Hypothesis HDict : forall c items,
    Forall (fun kv => P (fst kv) /\ P (snd kv)) items -> P (PDict c items).
Hypothesis HSet : forall l, Forall P l -> P (PSet l).
Hypothesis HFrozenset : forall l, Forall P l -> P (PFrozenset l).
Hypothesis HDeque : forall l, Forall P l -> P (PDeque l).

Fixpoint PyVal_nested_ind (v : PyVal) : P v :=
  let all :=
    fix all (l : list PyVal) : Forall P l :=
      match l with
      | [] => @Forall_nil _ P
      | x :: r => @Forall_cons _ P x r (PyVal_nested_ind x) (all r)
      end in
  match v with
  | PNone => HNone
  | PBool b => HBool b
  | PInt n => HInt n
  | PFloat f => HFloat f
  | PStr s => HStr s
  | PList l => @HList l (all l)
  | PTuple l => @HTuple l (all l)
  | PDict c items =>
      @HDict c items
        ((fix each (l : list (PyVal * PyVal))
            : Forall (fun kv => P (fst kv) /\ P (snd kv)) l :=
            match l with
            | [] => @Forall_nil _ _
            | (k, x) :: r =>
                @Forall_cons _ _ (k, x) r
                  (conj (PyVal_nested_ind k) (PyVal_nested_ind x)) (each r)
            end) items)
  | PSet l => @HSet l (all l)
  | PFrozenset l => @HFrozenset l (all l)
  | PDeque l => @HDeque l (all l)
  end.

End PyVal_induction.

Definition is_str (v : PyVal) : bool :=
  match v with PStr _ => true | _ => false end.

(** The elements of [l] are pairwise different under [==]. *)
Fixpoint distinct (l : list PyVal) : bool :=
  match l with
  | [] => true
  | x :: r =>
      forallb (fun y => negb (py_eq x y) && negb (py_eq y x)) r && distinct r
  end.

Fixpoint string_in (s : string) (l : list string) : bool :=
  match l with
  | [] => false
  | t :: r => String.eqb s t || string_in s r
  end.

(** The keys are texts, pairwise different. *)
Fixpoint text_keys (items : list (PyVal * PyVal)) (seen : list string) : bool :=
  match items with
  | [] => true
  | (PStr s, _) :: r => negb (string_in s seen) && text_keys r (s :: seen)
  | _ :: _ => false
  end.

(** No NaN occurs in [v], and the dictionaries in [v] have text keys. *)
Fixpoint plain (v : PyVal) : bool :=
  match v with
  | PFloat f => negb (is_nan f)
  | PNone | PBool _ | PInt _ | PStr _ => true
  | PList l | PTuple l | PSet l | PFrozenset l | PDeque l => forallb plain l
  | PDict _ items =>
      text_keys items [] && forallb (fun kv => plain (snd kv)) items
  end.

(** The values the round trip is stated for: dictionaries have text
    keys; the elements of a set or frozenset are hashable and pairwise
    different, as Python keeps them; no NaN lies inside a set, a
    frozenset or a deque. *)
Fixpoint well_formed (v : PyVal) : bool :=
  match v with
  | PNone | PBool _ | PInt _ | PFloat _ | PStr _ => true
  | PList l | PTuple l => forallb well_formed l
  | PDict _ items =>
      text_keys items [] && forallb (fun kv => well_formed (snd kv)) items
  | PSet l | PFrozenset l =>
      forallb hashable l && distinct l && forallb plain l
      && forallb well_formed l
  | PDeque l => forallb plain l && forallb well_formed l
  end.

(** Two values are alike when they differ at most in the order in which
    their sets list their elements. *)
Inductive alike : PyVal -> PyVal -> Prop :=
| alike_None : alike PNone PNone
| alike_Bool b : alike (PBool b) (PBool b)
| alike_Int n : alike (PInt n) (PInt n)
| alike_Float f : alike (PFloat f) (PFloat f)
| alike_Str s : alike (PStr s) (PStr s)
| alike_List l m : Forall2 alike l m -> alike (PList l) (PList m)
| alike_Tuple l m : Forall2 alike l m -> alike (PTuple l) (PTuple m)
| alike_Deque l m : Forall2 alike l m -> alike (PDeque l) (PDeque m)
| alike_Dict c xs ys :
    Forall2 (fun p q => fst p = fst q /\ alike (snd p) (snd q)) xs ys ->
    alike (PDict c xs) (PDict c ys)
| alike_Set l m m' :
    Permutation m m' -> Forall2 alike l m' -> alike (PSet l) (PSet m)
| alike_Frozenset l m m' :
    Permutation m m' -> Forall2 alike l m' ->
    alike (PFrozenset l) (PFrozenset m).

(** The items of two dictionaries carry the same keys and alike values. *)
Definition items_alike (xs ys : list (PyVal * PyVal)) : Prop :=
  Forall2 (fun p q => fst p = fst q /\ alike (snd p) (snd q)) xs ys.

(** [l] lists, up to order, values alike those of [m]. *)
Definition same_elements (l m : list PyVal) : Prop :=
  exists m', Permutation m m' /\ Forall2 alike l m'.

(** [py_eq x] gives alike values the same answer. *)
Definition respects (x : PyVal) : Prop :=
  forall x' b b', alike x x' -> alike b b' -> py_eq x b = py_eq x' b'.

Definition respects_item (kv : PyVal * PyVal) : Prop :=
  respects (fst kv) /\ respects (snd kv).

(** [deep_equals] accepts every value alike [x] against [x]. *)
Definition accepted (x : PyVal) : Prop :=
  forall y, alike y x -> well_formed x = true -> deep_equals y x = true.

Definition differ (x y : PyVal) : bool := negb (py_eq x y) && negb (py_eq y x).

(** A key that is [None], a [bool], an [int] or a text. *)
Definition scalar (k : PyVal) : bool :=
  match k with
  | PNone | PBool _ | PInt _ | PStr _ => true
  | _ => false
  end.

(** The keys of the items are of these kinds and, as Python keeps the
    keys of a dictionary, pairwise different. *)
Definition scalar_keys (items : list (PyVal * PyVal)) : bool :=
  forallb scalar (dict_keys items) && distinct (dict_keys items).

(** What [==] and [hash] see of such a key: a [bool] is the number it
    counts for. *)
Inductive key_code :=
| KNone
| KNumber (n : Z)
| KText (s : string).

Definition code_of (k : PyVal) : key_code :=
  match k with
  | PBool b => KNumber (Z.b2z b)
  | PInt n => KNumber n
  | PStr s => KText s
  | _ => KNone
  end.

(** The marker [serialize] gives a dictionary of class [c]. *)
Definition marker_name (c : dict_class) : string :=
  match c with
  | Dict => "dict"
  | Counter => "Counter"
  | OrderedDict => "OrderedDict"
  | Defaultdict => "defaultdict"
  end.

Section Restore.

Variable rt : Runtime.

(** The comprehension of [convert_expected] over the items [m]. *)
Definition convert_items (m : list (PyVal * PyVal))
  : Res (list (PyVal * PyVal)) :=
  bind (mapM (fun kv => bind (convert_expected rt (snd kv))
                          (fun y => Ok (fst kv, y))) m)
       (fun kvs => Ok (dict_of kvs)).



End Restore.

End RoundTrip.

(* ------------------------------------------------------------------ *)
(** * The batch loops, index by index *)

Module Batch.

Section Python.

Variable World : Type.
Variable eval : World -> string -> Python.Res Python.PyVal * World.

(** The state of the interpreter when the loop reaches index [i]. *)
Fixpoint py_world_at (w : World) (tcs : list Python.TestCase) (i : nat)
  : World :=
  match i, tcs with
  | S j, tc :: rest => py_world_at (snd (eval w (Python.call tc))) rest j
  | _, _ => w
  end.

(** What the Python loop appends at index [i], reached in state [w]:
    a record of that index, which is the failure record when the call
    raised. *)
Definition py_recorded (w : World) (i : nat) (tc : Python.TestCase)
           (r : Python.TestResult) : Prop :=
  Python.index r = i /\
  forall e, fst (eval w (Python.call tc)) = Raise e ->
            r = Python.failure i e.

End Python.

Section TypeScript.

Variable World : Type.
Variable eval :
  World -> string -> (JS.JsVal + TypeScript.Thrown) * World.

Fixpoint ts_world_at (w : World) (tcs : list TypeScript.TestCase) (i : nat)
  : World :=
  match i, tcs with
  | S j, tc :: rest => ts_world_at (snd (eval w (TypeScript.call tc))) rest j
  | _, _ => w
  end.

Definition ts_recorded (w : World) (i : nat) (tc : TypeScript.TestCase)
           (r : TypeScript.TestResult) : Prop :=
  TypeScript.index r = i /\
  forall e, fst (eval w (TypeScript.call tc)) = inr e ->
            TypeScript.failure i e = Some r.

End TypeScript.

End Batch.

(* ------------------------------------------------------------------ *)
(** * The rewriting loop of [convertCppToJson], turn by turn *)

Module Scanning.

Import Cpp.

(** What the loop holds after the characters [l]: as many characters as
    it has read, the two flags as the literals of [l] set them, and every
    character kept unless it is a brace outside a literal. *)
Definition scanned (l : list ascii) (st : Scan) : Prop :=
  List.length (result st) = List.length l /\
  escapeNext st = escaped l (List.length l) /\
  inString st = inside_literal l (List.length l) /\
  forall i, (i < List.length l)%nat ->
    nth i (result st) Ascii.zero =
    if escaped l i || inside_literal l i then nth i l Ascii.zero
    else bracket (nth i l Ascii.zero).

End Scanning.

(* ------------------------------------------------------------------ *)
(** * Inputs for the examples *)

Module Examples.

Import Python.

(** The expected text [{"__type__":"tuple","value":5}]. *)
Definition malformed_marker : string :=
  "{" ++ Text.quoted "__type__" ++ ":" ++ Text.quoted "tuple" ++ ","
      ++ Text.quoted "value" ++ ":5}".

Definition json_decode_error : PyExc :=
  {| exc_name := "JSONDecodeError"; exc_str := "Expecting value";
     exc_bases := ["JSONDecodeError"; "ValueError"; "Exception";
                   "BaseException"] |}.

Definition syntax_error : PyExc :=
  {| exc_name := "SyntaxError"; exc_str := "invalid syntax";
     exc_bases := ["SyntaxError"; "Exception"; "BaseException"] |}.

Definition zero_division : PyExc :=
  {| exc_name := "ZeroDivisionError"; exc_str := "division by zero";
     exc_bases := ["ZeroDivisionError"; "ArithmeticError"; "Exception";
                   "BaseException"] |}.

(** What [sys.exit()] raises. *)
Definition system_exit : PyExc :=
  {| exc_name := "SystemExit"; exc_str := "";
     exc_bases := ["SystemExit"; "BaseException"] |}.

Definition value_error : PyExc :=
  {| exc_name := "ValueError"; exc_str := "";
     exc_bases := ["ValueError"; "Exception"; "BaseException"] |}.

(** Some int in [v] has more than 4300 digits. *)
Fixpoint holds_long_int (v : PyVal) : bool :=
  match v with
  | PInt n => longer_than 4300 n
  | PList l | PTuple l | PSet l | PFrozenset l | PDeque l =>
      existsb holds_long_int l
  | PDict _ items =>
      existsb (fun kv => holds_long_int (fst kv) || holds_long_int (snd kv))
              items
  | _ => false
  end.

(** The int [10**4300], of 4301 digits. *)
Definition long_int : Z := 10 ^ 4300.

(** An interpreter with the limit of 4300 digits, whose [str] and
    [json.dumps] refuse a value that holds a longer int (the texts they
    write are left empty), and that decodes [malformed_marker] and [3]
    and refuses every other text. *)
Definition example_runtime : Runtime :=
  {| int_max_str_digits := 4300;
     repr := fun v => if holds_long_int v then Raise value_error else Ok "";
     json_dumps := fun v =>
       if holds_long_int v then Raise value_error else Ok "";
     json_loads := fun s =>
       if String.eqb s malformed_marker then Ok (marked "tuple" (PInt 5))
       else if String.eqb s "3" then Ok (PInt 3)
       else Raise json_decode_error;
     literal_eval := fun _ => Raise syntax_error;
     int_of_str := fun _ => None;
     float_of_str := fun _ => None;
     sub_word := fun _ _ s => s;
     error_text := fun _ _ => "" |}.

(** The submission of the examples: [add(1, 2)] is 3, [10**4300] is
    that int, [sys.exit()] leaves the interpreter and every other call
    divides by zero. *)
Definition example_eval (w : unit) (source : string) : Res PyVal * unit :=
  if String.eqb source "add(1, 2)" then (Ok (PInt 3), w)
  else if String.eqb source "10**4300" then (Ok (PInt long_int), w)
  else if String.eqb source "sys.exit()" then (Raise system_exit, w)
  else (Raise zero_division, w).

Definition example_tests : list TestCase :=
  [ {| call := "add(1, 2)"; expected := PStr "3" |};
    {| call := "1/0"; expected := PStr "3" |};
    {| call := "add(1, 2)"; expected := PStr "3" |} ].

Definition exiting_tests : list TestCase :=
  [ {| call := "sys.exit()"; expected := PStr "3" |};
    {| call := "add(1, 2)"; expected := PStr "3" |} ].

Definition long_int_tests : list TestCase :=
  [ {| call := "add(1, 2)"; expected := PStr "3" |};
    {| call := "10**4300"; expected := PStr "3" |} ].

Definition ts_runtime : TypeScript.Runtime :=
  {| TypeScript.JSON_parse := fun _ => None;
     TypeScript.parseInt := fun _ => Double.of_Z 3;
     TypeScript.parseFloat := fun _ => Double.nan |}.

(** [add(1, 2)] is 3, [(() => { throw null })()] throws [null] and
    every other call throws [new Error()], whose message is empty. *)
Definition ts_eval (w : unit) (source : string)
  : (JS.JsVal + TypeScript.Thrown) * unit :=
  if String.eqb source "add(1, 2)" then (inl (JS.JNum (Double.of_Z 3)), w)
  else if String.eqb source "(() => { throw null })()"
  then (inr TypeScript.ThrownNullish, w)
  else (inr (TypeScript.ThrownValue (Some "Error") (Some "") "Error"), w).

Definition ts_tests : list TypeScript.TestCase :=
  [ {| TypeScript.call := "add(1, 2)"; TypeScript.expected := JS.JStr "3" |};
    {| TypeScript.call := "fail()"; TypeScript.expected := JS.JStr "3" |} ].

Definition throwing_null_tests : list TypeScript.TestCase :=
  [ {| TypeScript.call := "(() => { throw null })()";
       TypeScript.expected := JS.JStr "3" |};
    {| TypeScript.call := "add(1, 2)"; TypeScript.expected := JS.JStr "3" |} ].

(** The text [{1,"{"}]. *)
Definition braces_text : string := "{1," ++ Text.quoted "{" ++ "}".

End Examples.

(* ------------------------------------------------------------------ *)
(** * The generators' own helpers

    [escapeC], [escapeCpp], [escapeCSharp] and [escapeJava] have one body;
    [parseExpectedValue] is the method of the C and of the C# generator;
    the Java and the C# generator put the same class prefix before a
    call. *)

Module Generators.

Import JS.

Definition newline : ascii := ascii_of_nat 10.
Definition carriage_return : ascii := ascii_of_nat 13.
Definition tab : ascii := ascii_of_nat 9.

(** [text.replace(/c/g, r)] for one character [c]. *)
Fixpoint replace_all (c : ascii) (r : list ascii) (text : list ascii)
  : list ascii :=
  match text with
  | [] => []
  | x :: rest =>
      if Ascii.eqb x c then r ++ replace_all c r rest
      else x :: replace_all c r rest
  end.

Definition escapeC (str : string) : string :=
  Text.of_chars
    (replace_all tab [Text.backslash; "t"%char]
    (replace_all carriage_return [Text.backslash; "r"%char]
    (replace_all newline [Text.backslash; "n"%char]
    (replace_all Text.quote [Text.backslash; Text.quote]
    (replace_all Text.backslash [Text.backslash; Text.backslash]
       (Text.chars str)))))).

Definition escapeCpp : string -> string := escapeC.
Definition escapeCSharp : string -> string := escapeC.
Definition escapeJava : string -> string := escapeC.

(** The pattern [^-?\d*\.?\d+$]. *)
Definition is_decimal_literal (s : string) : bool :=
  let '(a, b) := Text.break Text.is_dot (Text.drop_minus (Text.chars s)) in
  match b with
  | [] => negb (Nat.eqb (List.length a) 0) && Text.all_digits a
  | _ :: d =>
      Text.all_digits a && negb (Nat.eqb (List.length d) 0) && Text.all_digits d
  end.

Section Parse.

(** [JSON.parse], [parseInt] and [parseFloat]. *)
Variable rt : TypeScript.Runtime.

Definition parseExpectedValue (expected : JsVal) : JsVal :=
  match expected with
  | JStr text =>
      let trimmed := trim text in
      match (if TypeScript.looks_like_json trimmed
             then TypeScript.JSON_parse rt trimmed else None) with
      | Some parsed => parsed
      | None =>
          if String.eqb trimmed "true" then JBool true
          else if String.eqb trimmed "false" then JBool false
          else if String.eqb trimmed "null" then JNull
          else if Text.is_int_literal trimmed
          then JNum (TypeScript.parseInt rt trimmed)
          else if is_decimal_literal trimmed
          then JNum (TypeScript.parseFloat rt trimmed)
          else expected
      end
  | _ => expected
  end.

End Parse.

(** ** The class prefix of a call *)

Definition is_upper (c : ascii) : bool :=
  ((65 <=? Text.code c) && (Text.code c <=? 90))%N.

Definition is_lower (c : ascii) : bool :=
  ((97 <=? Text.code c) && (Text.code c <=? 122))%N.

(** The class [[a-zA-Z0-9_]]. *)
Definition is_word (c : ascii) : bool :=
  is_lower c || is_upper c || Text.is_digit c || Ascii.eqb c "_".

(** [/^[A-Z][a-zA-Z0-9_]*\./.test(callCode)]. *)
Definition hasClassPrefix (callCode : string) : bool :=
  match Text.chars callCode with
  | c :: rest =>
      is_upper c &&
      match Text.drop_while is_word rest with
      | d :: _ => Text.is_dot d
      | [] => false
      end
  | [] => false
  end.

(** [classNames.find(n => n === 'Solution') || classNames[0] || null];
    an empty text counts as absent. *)
Definition primaryClass (classNames : list string) : option string :=
  match find (String.eqb "Solution") classNames with
  | Some n => Some n
  | None =>
      match classNames with
      | n :: _ => if String.eqb n "" then None else Some n
      | [] => None
      end
  end.

(** The call as the runner holds it: [tc.call], with the primary class
    before it when there is one and the call shows no class prefix. *)
Definition callCode (primary : option string) (call : string) : string :=
  match primary with
  | Some p => if hasClassPrefix call then call else p ++ "." ++ call
  | None => call
  end.

End Generators.

(* ------------------------------------------------------------------ *)
(** * The C runner's [print_escaped_string] *)

Module CRunner.

Import Generators.

(** The [switch] on one character: what is written for it. *)
Definition written (c : ascii) : list ascii :=
  if Ascii.eqb c Text.quote then [Text.backslash; Text.quote]
  else if Ascii.eqb c Text.backslash then [Text.backslash; Text.backslash]
  else if Ascii.eqb c newline then [Text.backslash; "n"%char]
  else if Ascii.eqb c carriage_return then [Text.backslash; "r"%char]
  else if Ascii.eqb c tab then [Text.backslash; "t"%char]
  else [c].

(** What [print_escaped_string(s)] writes; the text at [s] ends before
    its first zero character. *)
Fixpoint print_escaped_string (s : list ascii) : list ascii :=
  match s with
  | [] => []
  | c :: rest =>
      if Ascii.eqb c Ascii.zero then []
      else written c ++ print_escaped_string rest
  end.

End CRunner.

(* ------------------------------------------------------------------ *)
(** * Shapes of values and texts *)

Module Shapes.

Import Python JS Generators.

(** ** Python values *)

(** The data of strict JSON: [None], [bool], [int], finite [float],
    [str], lists of such values and plain dictionaries with text keys. *)
Fixpoint json_ready (v : PyVal) : bool :=
  match v with
  | PNone | PBool _ | PInt _ | PStr _ => true
  | PFloat f => negb (is_nan f) && negb (is_inf f)
  | PList l => forallb json_ready l
  | PDict Dict items =>
      forallb (fun kv => RoundTrip.is_str (fst kv) && json_ready (snd kv)) items
  | _ => false
  end.

Definition ready_item (kv : PyVal * PyVal) : bool :=
  RoundTrip.is_str (fst kv) && json_ready (snd kv).

(** A decoded JSON value in which no dictionary holds both marker keys. *)
Fixpoint unmarked (v : PyVal) : bool :=
  match v with
  | PNone | PBool _ | PInt _ | PFloat _ | PStr _ => true
  | PList l => forallb unmarked l
  | PDict Dict items =>
      RoundTrip.text_keys items []
      && negb (dict_has py_eq key_type items && dict_has py_eq key_value items)
      && forallb (fun kv => unmarked (snd kv)) items
  | _ => false
  end.

(** ** JavaScript values *)

(** Induction over a value and the values inside it. *)
Section JsVal_induction.

Variable P : JsVal -> Prop.

Hypothesis HUndefined : P JUndefined.
Hypothesis HNull : P JNull.
Hypothesis HBool : forall b, P (JBool b).
Hypothesis HNum : forall f, P (JNum f).
Hypothesis HStr : forall s, P (JStr s).
Hypothesis HArr : forall l, Forall P l -> P (JArr l).
Hypothesis HObj : forall fields,
  Forall (fun kv => P (snd kv)) fields -> P (JObj fields).

Fixpoint JsVal_nested_ind (v : JsVal) : P v :=
  match v with
  | JUndefined => HUndefined
  | JNull => HNull
  | JBool b => HBool b
  | JNum f => HNum f
  | JStr s => HStr s
  | JArr l =>
      HArr ((fix all (l : list JsVal) : Forall P l :=
               match l with
               | [] => Forall_nil P
               | x :: r => Forall_cons x (JsVal_nested_ind x) (all r)
               end) l)
  | JObj fields =>
      HObj ((fix all (l : list (string * JsVal))
               : Forall (fun kv => P (snd kv)) l :=
               match l with
               | [] => Forall_nil _
               | kv :: r =>
                   Forall_cons kv (JsVal_nested_ind (snd kv)) (all r)
               end) fields)
  end.

End JsVal_induction.

(** The values [JSON.stringify] writes as they are: no [undefined] and no
    number that is NaN or infinite, at any depth. *)
Fixpoint json_safe (v : JsVal) : bool :=
  match v with
  | JUndefined => false
  | JNum f => negb (is_nan f) && negb (is_inf f)
  | JArr l => forallb json_safe l
  | JObj fields => forallb (fun kv => json_safe (snd kv)) fields
  | _ => true
  end.

Fixpoint no_repeat (l : list string) : bool :=
  match l with
  | [] => true
  | x :: r => negb (existsb (String.eqb x) r) && no_repeat r
  end.

(** The own properties of every object in [v] have different names. *)
Fixpoint proper (v : JsVal) : bool :=
  match v with
  | JArr l => forallb proper l
  | JObj fields =>
      no_repeat (map fst fields) && forallb (fun kv => proper (snd kv)) fields
  | _ => true
  end.

(** The properties [acc] are as [__serialize__] leaves them: under
    different names, none of which is [__proto__], and serialized. *)
Definition settled (acc : list (string * JsVal)) : Prop :=
  NoDup (map fst acc) /\
  forall k v, In (k, v) acc ->
    k <> "__proto__" /\ TypeScript.__serialize__ v = v.

(** The own properties of an array or object. *)
Definition entries (v : JsVal) : list (string * JsVal) :=
  match v with
  | JArr l => indexed 0 l
  | JObj fields => fields
  | _ => []
  end.

(** The last two tests of [__deepEquals__] on two objects, or on an
    array and an object. *)
Definition same_properties (a b : JsVal) : bool :=
  let keysA := sort_keys (keys a) in
  let keysB := sort_keys (keys b) in
  if negb (Nat.eqb (List.length keysA) (List.length keysB)) then false
  else if negb (list_eqb keysA keysB) then false
  else TypeScript.every_field TypeScript.__deepEquals__ (entries a) b.

(** ** Texts *)

(** The texts only the TypeScript runner reads as values. *)
Definition is_js_sentinel (trimmed : string) : bool :=
  String.eqb trimmed "undefined" || String.eqb trimmed "NaN"
  || String.eqb trimmed "Infinity" || String.eqb trimmed "-Infinity".

(** A class name as the generators extract it: [[A-Za-z0-9_]+]. *)
Definition is_name (p : string) : bool :=
  negb (String.eqb p "") && forallb is_word (Text.chars p).

Definition starts_upper (p : string) : bool :=
  match Text.chars p with
  | c :: _ => is_upper c
  | [] => false
  end.

(** Reading an escaped text: after a backslash, [n], [r] and [t] stand
    for the line feed, the carriage return and the tabulation, and any
    other character for itself. *)
Definition escape_of (x : ascii) : ascii :=
  if Ascii.eqb x "n" then newline
  else if Ascii.eqb x "r" then carriage_return
  else if Ascii.eqb x "t" then tab
  else x.

Fixpoint unescape (l : list ascii) : list ascii :=
  match l with
  | [] => []
  | c :: r =>
      if Ascii.eqb c Text.backslash then
        match r with
        | x :: r' => escape_of x :: unescape r'
        | [] => [c]
        end
      else c :: unescape r
  end.

(** No double quote of [out] opens or closes a literal, and [out] does
    not end on a backslash that escapes what follows. *)
Definition closed (out : list ascii) : Prop :=
  Cpp.escaped out (List.length out) = false /\
  forall i, (i <= List.length out)%nat -> Cpp.inside_literal out i = false.

End Shapes.

(* ------------------------------------------------------------------ *)
(** * The C# runner: [Serialize], [SplitJson] and [ParseJson] *)

Module CSharpRunner.

Import CSharp Generators.

(** What [Substring] throws on a length below zero. *)
Inductive CsExc := ArgumentOutOfRangeException.

(** The values [ParseJson] builds: [null], [bool], [double], [string],
    [List<object>] and [Dictionary<string, object>]. *)
Inductive Json :=
| JsonNull
| JsonBool (b : bool)
| JsonDouble (f : double)
| JsonString (s : string)
| JsonList (l : list Json)
| JsonDict (entries : list (string * Json)).

(** The characters below 256 that [Trim()] removes. *)
Definition cs_isspace (c : ascii) : bool :=
  let n := Text.code c in
  (((9 <=? n) && (n <=? 13)) || (n =? 32) || (n =? 133) || (n =? 160))%N.

Definition Trim (s : string) : string := Text.strip_with cs_isspace s.

(** [Trim] of the double quotes at both ends. *)
Definition TrimQuotes (s : string) : string :=
  Text.strip_with (Ascii.eqb Text.quote) s.

(** [string.Join(sep, items)]. *)
Fixpoint Join (sep : string) (items : list string) : string :=
  match items with
  | [] => ""
  | [x] => x
  | x :: rest => x ++ sep ++ Join sep rest
  end.

(** [json[i]]. *)
Definition char_at (json : string) (i : nat) : ascii :=
  nth i (Text.chars json) Ascii.zero.

(** The text of one double quote. *)
Definition quote_mark : string := String Text.quote EmptyString.

(** ** [SplitJson] *)

(** The variables of the loop. *)
Record Split := {
  result : list string;
  depth : Z;
  start : nat;
  inString : bool
}.

(** One turn of the loop, at the index [i]. *)
Definition split_step (json : string) (st : Split) (i : nat) : Split :=
  let c := char_at json i in
  let inStr :=
    if Ascii.eqb c Text.quote
       && (Nat.eqb i 0
           || negb (Ascii.eqb (char_at json (i - 1)) Text.backslash))
    then negb (inString st) else inString st in
  if negb inStr then
    if Ascii.eqb c "[" || Ascii.eqb c "{" then
      {| result := result st; depth := depth st + 1; start := start st;
         inString := inStr |}
    else if Ascii.eqb c "]" || Ascii.eqb c "}" then
      {| result := result st; depth := depth st - 1; start := start st;
         inString := inStr |}
    else if Ascii.eqb c "," && (depth st =? 0) then
      {| result :=
           result st ++ [Trim (substring (start st) (i - start st) json)];
         depth := depth st; start := (i + 1)%nat; inString := inStr |}
    else
      {| result := result st; depth := depth st; start := start st;
         inString := inStr |}
  else
    {| result := result st; depth := depth st; start := start st;
       inString := inStr |}.

Definition SplitJson (json : string) : list string :=
  let st := fold_left (split_step json) (seq 0 (String.length json))
              {| result := []; depth := 0; start := 0; inString := false |} in
  if (start st <? String.length json)%nat
  then result st
       ++ [Trim (substring (start st) (String.length json - start st) json)]
  else result st.

(** ** [ParseJson] *)

(** [pair.IndexOf(c)]. *)
Fixpoint IndexOf (c : ascii) (l : list ascii) : option nat :=
  match l with
  | [] => None
  | x :: r =>
      if Ascii.eqb x c then Some O
      else match IndexOf c r with
           | Some i => Some (S i)
           | None => None
           end
  end.

(** [dict[key] = value]. *)
Fixpoint put (key : string) (value : Json) (entries : list (string * Json))
  : list (string * Json) :=
  match entries with
  | [] => [(key, value)]
  | (k, v) :: r =>
      if String.eqb k key then (k, value) :: r else (k, v) :: put key value r
  end.

Definition Res := Result CsExc.

Section Loops.

(** The nested call of [ParseJson]; [None] when it does not return. *)
Variable parse : string -> option (Res Json).

(** [foreach (var item in ...) list.Add(ParseJson(item))]. *)
Fixpoint parse_items (items : list string) (parsed : list Json)
  : option (Res (list Json)) :=
  match items with
  | [] => Some (Ok parsed)
  | item :: rest =>
      match parse item with
      | Some (Ok v) => parse_items rest (parsed ++ [v])
      | Some (Raise e) => Some (Raise e)
      | None => None
      end
  end.

(** The loop over the pairs of an object. *)
Fixpoint parse_pairs (pairs : list string) (dict : list (string * Json))
  : option (Res (list (string * Json))) :=
  match pairs with
  | [] => Some (Ok dict)
  | entry :: rest =>
      match IndexOf ":" (Text.chars entry) with
      | Some (S n) =>
          let colonIdx := S n in
          let key := TrimQuotes (Trim (substring 0 colonIdx entry)) in
          let val := Trim (substring (colonIdx + 1)
                             (String.length entry - (colonIdx + 1)) entry) in
          match parse val with
          | Some (Ok v) => parse_pairs rest (put key v dict)
          | Some (Raise e) => Some (Raise e)
          | None => None
          end
      | _ => parse_pairs rest dict
      end
  end.

End Loops.

Section Runner.

(** [ToString()] of a number and [double.TryParse]. *)
Variable ToString : CsVal -> string.
Variable TryParse : string -> option double.

(** [ParseJson] with at most [fuel] nested calls; [None] when they do
    not suffice. *)
Fixpoint ParseJson (fuel : nat) (json : string) : option (Res Json) :=
  match fuel with
  | O => None
  | S fuel' =>
      let json := Trim json in
      if String.eqb json "null" then Some (Ok JsonNull)
      else if String.eqb json "true" then Some (Ok (JsonBool true))
      else if String.eqb json "false" then Some (Ok (JsonBool false))
      else if Text.starts_with quote_mark json && Text.ends_with quote_mark json
      then
        if (String.length json <? 2)%nat
        then Some (Raise ArgumentOutOfRangeException)
        else Some (Ok (JsonString (substring 1 (String.length json - 2) json)))
      else if Text.starts_with "[" json && Text.ends_with "]" json then
        let inner := Trim (substring 1 (String.length json - 2) json) in
        if String.eqb inner "" then Some (Ok (JsonList []))
        else
          match parse_items (ParseJson fuel') (SplitJson inner) [] with
          | Some (Ok parsed) => Some (Ok (JsonList parsed))
          | Some (Raise e) => Some (Raise e)
          | None => None
          end
      else if Text.starts_with "{" json && Text.ends_with "}" json then
        let inner := Trim (substring 1 (String.length json - 2) json) in
        if String.eqb inner "" then Some (Ok (JsonDict []))
        else
          match parse_pairs (ParseJson fuel') (SplitJson inner) [] with
          | Some (Ok dict) => Some (Ok (JsonDict dict))
          | Some (Raise e) => Some (Raise e)
          | None => None
          end
      else
        match TryParse json with
        | Some d => Some (Ok (JsonDouble d))
        | None => Some (Ok (JsonString json))
        end
  end.

(** ** [Serialize] *)

(** The two calls of [Replace] on a text: a backslash, then a double
    quote, each gets a backslash before it. *)
Definition escape_text (s : string) : string :=
  Text.of_chars
    (replace_all Text.quote [Text.backslash; Text.quote]
       (replace_all Text.backslash [Text.backslash; Text.backslash]
          (Text.chars s))).

Definition IsPositiveInfinity (d : double) : bool :=
  match d with S754_infinity false => true | _ => false end.

Definition IsNegativeInfinity (d : double) : bool :=
  match d with S754_infinity true => true | _ => false end.

(** The text of the number [obj], whose [double] value is [d]. *)
Definition number_text (obj : CsVal) (d : double) : string :=
  if is_nan d then Text.quoted "NaN"
  else if IsPositiveInfinity d then Text.quoted "Infinity"
  else if IsNegativeInfinity d then Text.quoted "-Infinity"
  else ToString obj.

Fixpoint Serialize (obj : CsVal) : string :=
  match obj with
  | CsNull => "null"
  | CsBool b => if b then "true" else "false"
  | CsString s => Text.quoted (escape_text s)
  | CsInt n => number_text obj (of_Z n)
  | CsDouble d => number_text obj d
  | CsList l | CsTuple l => "[" ++ Join "," (map Serialize l) ++ "]"
  end.

End Runner.

Section Each.

Variables (A B : Type) (f : A -> option B).

(** The results of [f] on every element, when it has one on each. *)
Fixpoint each_some (l : list A) : option (list B) :=
  match l with
  | [] => Some []
  | x :: r =>
      match f x, each_some r with
      | Some v, Some vs => Some (v :: vs)
      | _, _ => None
      end
  end.

End Each.

(** The value of the runner that a parsed value without a dictionary
    is. *)
Fixpoint value_of (j : Json) : option CsVal :=
  match j with
  | JsonNull => Some CsNull
  | JsonBool b => Some (CsBool b)
  | JsonDouble f => Some (CsDouble f)
  | JsonString s => Some (CsString s)
  | JsonList l =>
      match each_some value_of l with
      | Some vs => Some (CsList vs)
      | None => None
      end
  | JsonDict _ => None
  end.

(** ** The loop of [SplitJson], character by character

    The same loop holding the piece under way instead of the index it
    starts at, and the character before instead of the index. *)

Record Scan := {
  pieces : list string;
  level : Z;
  current : list ascii;
  inside : bool;
  previous : option ascii
}.

Definition scan_step (st : Scan) (c : ascii) : Scan :=
  let inStr :=
    if Ascii.eqb c Text.quote
       && match previous st with
          | None => true
          | Some p => negb (Ascii.eqb p Text.backslash)
          end
    then negb (inside st) else inside st in
  if negb inStr then
    if Ascii.eqb c "[" || Ascii.eqb c "{" then
      {| pieces := pieces st; level := level st + 1;
         current := current st ++ [c]; inside := inStr; previous := Some c |}
    else if Ascii.eqb c "]" || Ascii.eqb c "}" then
      {| pieces := pieces st; level := level st - 1;
         current := current st ++ [c]; inside := inStr; previous := Some c |}
    else if Ascii.eqb c "," && (level st =? 0) then
      {| pieces := pieces st ++ [Trim (Text.of_chars (current st))];
         level := level st; current := []; inside := inStr;
         previous := Some c |}
    else
      {| pieces := pieces st; level := level st;
         current := current st ++ [c]; inside := inStr; previous := Some c |}
  else
    {| pieces := pieces st; level := level st;
       current := current st ++ [c]; inside := inStr; previous := Some c |}.

Definition scan_start : Scan :=
  {| pieces := []; level := 0; current := []; inside := false;
     previous := None |}.

Definition scan_end (st : Scan) : list string :=
  match current st with
  | [] => pieces st
  | _ :: _ => pieces st ++ [Trim (Text.of_chars (current st))]
  end.

(** The two loops agree after [k] characters of the text [l]. *)
Definition agree (l : list ascii) (k : nat) (st : Split) (sc : Scan) : Prop :=
  result st = pieces sc /\ depth st = level sc /\ inString st = inside sc /\
  (start st <= k)%nat /\
  current sc = firstn (k - start st) (skipn (start st) l) /\
  previous sc = match k with O => None | S j => Some (nth j l Ascii.zero) end.

End CSharpRunner.

(** * Texts the loop of [SplitJson] reads as one item *)

Module Sealing.

Import CSharpRunner.

(** The character before does not escape a double quote. *)
Definition unescaped (prev : option ascii) : bool :=
  match prev with
  | None => true
  | Some p => negb (Ascii.eqb p Text.backslash)
  end.

(** The loop of [SplitJson] reads the text [t] as one item: met outside
    a literal at a depth that is not negative, it is added to the piece
    under way and leaves the loop outside a literal at the same depth. *)
Definition sealed (t : list ascii) : Prop :=
  forall ps d cur prev, 0 <= d -> unescaped prev = true ->
  exists p, unescaped (Some p) = true /\
    fold_left scan_step t
      {| pieces := ps; level := d; current := cur; inside := false;
         previous := prev |}
    = {| pieces := ps; level := d; current := cur ++ t; inside := false;
         previous := Some p |}.

(** A character that is no double quote, backslash, bracket, brace or
    comma. *)
Definition is_plain (c : ascii) : bool :=
  negb (Ascii.eqb c Text.quote || Ascii.eqb c Text.backslash
        || Ascii.eqb c "[" || Ascii.eqb c "{" || Ascii.eqb c "]"
        || Ascii.eqb c "}" || Ascii.eqb c ",").

(** The inside of a literal: no double quote and no backslash. *)
Definition is_inner (c : ascii) : bool :=
  negb (Ascii.eqb c Text.quote) && negb (Ascii.eqb c Text.backslash).

(** The text neither begins nor ends with a blank, and is not empty. *)
Definition tight (t : list ascii) : bool :=
  match t with
  | [] => false
  | c :: _ => negb (cs_isspace c) && negb (cs_isspace (last t c))
  end.

(** The characters of [items] joined by commas. *)
Fixpoint joined (items : list (list ascii)) : list ascii :=
  match items with
  | [] => []
  | [x] => x
  | x :: rest => x ++ ","%char :: joined rest
  end.

(** A text the loop reads as one item and [Trim] leaves as it is. *)
Definition item_ok (t : string) : Prop :=
  sealed (Text.chars t) /\ tight (Text.chars t) = true.

(** Every piece so far and the piece under way are no longer than the
    text read. *)
Definition short (k : nat) (st : Scan) : Prop :=
  (forall p, In p (pieces st) -> (String.length p <= k)%nat) /\
  (List.length (current st) <= k)%nat.

(** The text handed to the nested call for the pair [entry]. *)
Definition value_text (entry : string) (colonIdx : nat) : string :=
  Trim (substring (colonIdx + 1) (String.length entry - (colonIdx + 1)) entry).

(** The text between the brackets or braces of [json]. *)
Definition inner_text (json : string) : string :=
  Trim (substring 1 (String.length (Trim json) - 2) (Trim json)).

(** What the two replacements of the Java and C# serializers make of
    one character. *)
Definition guarded (c : ascii) : list ascii :=
  if Ascii.eqb c Text.backslash || Ascii.eqb c Text.quote
  then [Text.backslash; c] else [c].

End Sealing.

(** * Values the C# runner writes and reads back *)

Module Simple.

Import CSharp CSharpRunner Sealing.

(** Induction over a value and the values inside it. *)
Section CsVal_induction.

Variable P : CsVal -> Prop.

Hypothesis HNull : P CsNull.
Hypothesis HBool : forall b, P (CsBool b).
Hypothesis HInt : forall n, P (CsInt n).
Hypothesis HDouble : forall f, P (CsDouble f).
Hypothesis HString : forall s, P (CsString s).
Hypothesis HList : forall l, Forall P l -> P (CsList l).
Hypothesis HTuple : forall l, Forall P l -> P (CsTuple l).

Fixpoint CsVal_nested_ind (v : CsVal) : P v :=
  let all := fix all (l : list CsVal) : Forall P l :=
               match l with
               | [] => Forall_nil P
               | x :: r => Forall_cons x (CsVal_nested_ind x) (all r)
               end in
  match v with
  | CsNull => HNull
  | CsBool b => HBool b
  | CsInt n => HInt n
  | CsDouble f => HDouble f
  | CsString s => HString s
  | CsList l => HList (all l)
  | CsTuple l => HTuple (all l)
  end.

End CsVal_induction.

(** The characters of the text of a number. *)
Definition is_number_char (c : ascii) : bool :=
  Text.is_digit c || Ascii.eqb c "-" || Ascii.eqb c "+" || Ascii.eqb c "."
  || Ascii.eqb c "E" || Ascii.eqb c "e".

Definition number_word (t : string) : bool :=
  match Text.chars t with
  | [] => false
  | l => forallb is_number_char l
  end.

Definition same_double (f g : double) : bool :=
  match f, g with
  | S754_zero s, S754_zero t => Bool.eqb s t
  | S754_infinity s, S754_infinity t => Bool.eqb s t
  | S754_nan, S754_nan => true
  | S754_finite s m e, S754_finite t n d =>
      Bool.eqb s t && Pos.eqb m n && Z.eqb e d
  | _, _ => false
  end.

Section Simple.

Variable ToString : CsVal -> string.
Variable TryParse : string -> option double.

(** The number [obj] of value [d] is finite, [ToString] writes it with
    the characters of a number and [double.TryParse] reads that text
    back as [d]. *)
Definition simple_number (obj : CsVal) (d : double) : bool :=
  negb (is_nan d) && negb (is_inf d) && number_word (ToString obj)
  && match TryParse (ToString obj) with
     | Some d' => same_double d' d
     | None => false
     end.

(** The values the round trip is stated for: numbers as above and texts
    without double quote and backslash, at any depth. *)
Fixpoint simple (v : CsVal) : bool :=
  match v with
  | CsNull | CsBool _ => true
  | CsString s => forallb is_inner (Text.chars s)
  | CsInt n => simple_number v (of_Z n)
  | CsDouble d => simple_number v d
  | CsList l | CsTuple l => forallb simple l
  end.

End Simple.

(** The expected value that the text of a value stands for: numbers
    are read as [double], and a tuple comes back as a list. *)
Fixpoint expected_of (v : CsVal) : CsVal :=
  match v with
  | CsInt n => CsDouble (of_Z n)
  | CsList l | CsTuple l => CsList (map expected_of l)
  | _ => v
  end.

(** What [ParseJson] makes of the text of a value. *)
Fixpoint json_of (v : CsVal) : Json :=
  match v with
  | CsNull => JsonNull
  | CsBool b => JsonBool b
  | CsInt n => JsonDouble (of_Z n)
  | CsDouble d => JsonDouble d
  | CsString s => JsonString s
  | CsList l | CsTuple l => JsonList (map json_of l)
  end.

End Simple.

(** * A C# value and its runtime functions *)

Module CsExamples.

Import CSharp.

Definition half : double := S754_finite false 4503599627370496 (-53).

(** [1] is written [1] and the half [0.5]. *)
Definition example_ToString (v : CsVal) : string :=
  match v with
  | CsInt n => Text.decimal n
  | _ => "0.5"
  end.

Definition example_TryParse (s : string) : option double :=
  if String.eqb s "1" then Some (of_Z 1)
  else if String.eqb s "0.5" then Some half
  else None.

Definition example_value : CsVal :=
  CsList [CsInt 1; CsString "a,b]"; CsTuple [CsBool true; CsNull; CsDouble half];
          CsList []].

End CsExamples.

(* ------------------------------------------------------------------ *)
(** * Properties of the comparators and serializers *)

Import Python RoundTrip.

(** ** Equality of binary64 numbers *)

Lemma SFeqb_finite_inv s m e t n d :
  SFeqb (S754_finite s m e) (S754_finite t n d) = true ->
  s = t /\ m = n /\ e = d.
Proof.
  unfold SFeqb, SFcompare.
  change (Pos.compare_cont Eq m n) with (Pos.compare m n).
  destruct s, t; try discriminate;
    destruct (Z.compare_spec e d) as [He | He | He]; try discriminate;
    destruct (Pos.compare_spec m n) as [Hm | Hm | Hm];
    simpl; try discriminate; intros _; subst; auto.
Qed.

Lemma SFeqb_finite_refl s m e :
  SFeqb (S754_finite s m e) (S754_finite s m e) = true.
Proof.
  unfold SFeqb, SFcompare.
  change (Pos.compare_cont Eq m m) with (Pos.compare m m).
  rewrite Z.compare_refl, Pos.compare_refl.
  destruct s; reflexivity.
Qed.

Lemma double_eqb_refl f : is_nan f = false -> Double.eqb f f = true.
Proof.
  destruct f as [s | s | | s m e]; try discriminate; intros _.
  - reflexivity.
  - destruct s; reflexivity.
  - apply SFeqb_finite_refl.
Qed.

(** [==] holds between two numbers exactly when neither is NaN and they
    are the same number or two zeros. *)
Lemma double_eqb_spec (a b : double) :
  Double.eqb a b = true <->
  is_nan a = false /\ is_nan b = false /\
  (a = b \/ (is_zero a = true /\ is_zero b = true)).
Proof.
  unfold Double.eqb. split.
  - destruct a as [s | s | | s m e], b as [t | t | | t n d];
      try (destruct s; discriminate); try (destruct t; discriminate);
      try discriminate; intros H.
    + simpl. auto.
    + destruct s, t; try discriminate; simpl; auto.
    + apply SFeqb_finite_inv in H. destruct H as (-> & -> & ->). simpl. auto.
  - intros (Ha & Hb & [<- | [Hz Hz']]).
    + now apply double_eqb_refl.
    + destruct a, b; try discriminate. reflexivity.
Qed.

(** ** Int against Float *)

(** C1, as the code has it.  In the Python runner [deep_equals] answers
    [False] whenever one argument is an [int] and the other a [float],
    whatever their values.  The Java runner's [deepEquals] compares two
    numbers through their [double] values, and the TypeScript runner knows
    one kind of number, so there the integer one equals the float one. *)
Theorem int_float_strict_in_python_only (n : Z) (f : double)
        (toString : Java.JavaVal -> string) :
  deep_equals (PInt n) (PFloat f) = false /\
  deep_equals (PFloat f) (PInt n) = false /\
  Java.deepEquals toString (Java.JvInteger n) (Java.JvDouble f)
  = (if is_nan (of_Z n) && is_nan f then true else Double.eqb (of_Z n) f) /\
  TypeScript.__deepEquals__ (JS.JNum (of_Z 1)) (JS.JNum one) = true.
Proof. repeat split; reflexivity. Qed.

(** C1 fails on the Java runner: [deepEquals(1, 1.0)] is [true]. *)
Lemma java_int_equals_float :
  Java.deepEquals (fun _ => EmptyString) (Java.JvInteger 1) (Java.JvDouble one)
  = true.
Proof. reflexivity. Qed.

(** ** Float against Float *)

Lemma deep_equals_floats (a b : double) :
  deep_equals (PFloat a) (PFloat b) = (is_nan a && is_nan b) || Double.eqb a b.
Proof. cbn. destruct (is_nan a && is_nan b); reflexivity. Qed.

(** C2, as the code has it.  In the Python runner two floats are equal
    when both are NaN, and otherwise exactly when neither is NaN and they
    are the same number (or two zeros); the Java runner compares with [==]
    too.  The C# runner and the C runner accept two numbers whose
    difference is below [0.0000001]. *)
Theorem float_equality_exact_in_python (a b : double)
        (toString : Java.JavaVal -> string)
        (ToString : CSharp.CsVal -> string) :
  (deep_equals (PFloat a) (PFloat b) = true <->
   (is_nan a = true /\ is_nan b = true) \/
   (is_nan a = false /\ is_nan b = false /\
    (a = b \/ (is_zero a = true /\ is_zero b = true)))) /\
  Java.deepEquals toString (Java.JvDouble a) (Java.JvDouble b)
  = deep_equals (PFloat a) (PFloat b) /\
  CSharp.DeepEquals ToString (CSharp.CsDouble a) (CSharp.CsDouble b)
  = (is_nan a && is_nan b) || CSharp.within_tolerance a b /\
  C.passed_double a b = CSharp.within_tolerance a b.
Proof.
  split; [| split; [| split]].
  - rewrite deep_equals_floats, orb_true_iff, andb_true_iff, double_eqb_spec.
    reflexivity.
  - rewrite deep_equals_floats. simpl.
    destruct (is_nan a && is_nan b); reflexivity.
  - simpl. destruct (is_nan a && is_nan b); reflexivity.
  - reflexivity.
Qed.

(** C2 fails on the C# and C runners: 1 and its successor 1 + 2^-52 are
    different numbers that both runners take for equal. *)
Lemma csharp_accepts_unequal_floats :
  Double.eqb one one_next = false /\
  CSharp.DeepEquals (fun _ => EmptyString)
    (CSharp.CsDouble one) (CSharp.CsDouble one_next) = true /\
  C.passed_double one one_next = true.
Proof. repeat split; vm_compute; reflexivity. Qed.

(** ** Sequences and tuples *)

Lemma Forall2_same_length A B (R : A -> B -> Prop) l m :
  Forall2 R l m -> List.length l = List.length m.
Proof. induction 1; simpl; congruence. Qed.

Lemma all_zip_Forall2 (cmp : PyVal -> PyVal -> bool) xs : forall ys,
  List.length xs = List.length ys ->
  (all_zip cmp xs ys = true <-> Forall2 (fun x y => cmp x y = true) xs ys).
Proof.
  induction xs as [| x xs IH]; intros [| y ys] Hl; try discriminate; simpl.
  - split; [constructor | reflexivity].
  - rewrite andb_true_iff, (IH ys) by (simpl in Hl; congruence). split.
    + intros [Hx Hr]. now constructor.
    + intros H. inversion H; subst. auto.
Qed.

Lemma length_checked_Forall2 (cmp : PyVal -> PyVal -> bool) xs ys :
  (if negb (Nat.eqb (List.length xs) (List.length ys)) then false
   else all_zip cmp xs ys) = true <->
  Forall2 (fun x y => cmp x y = true) xs ys.
Proof.
  destruct (Nat.eqb_spec (List.length xs) (List.length ys)) as [E | E]; simpl.
  - now apply all_zip_Forall2.
  - split; [discriminate |]. intros H.
    now apply Forall2_same_length in H.
Qed.

Lemma every_index_Forall2 (cmp : JS.JsVal -> JS.JsVal -> bool) xs : forall ys,
  List.length xs = List.length ys ->
  (TypeScript.every_index cmp xs ys = true <->
   Forall2 (fun x y => cmp x y = true) xs ys).
Proof.
  induction xs as [| x xs IH]; intros [| y ys] Hl; try discriminate; simpl.
  - split; [constructor | reflexivity].
  - rewrite andb_true_iff, (IH ys) by (simpl in Hl; congruence). split.
    + intros [Hx Hr]. now constructor.
    + intros H. inversion H; subst. auto.
Qed.

(** C7, as the code has it.  In the Python runner a list is never equal
    to a tuple, in either order, whatever their elements; two lists, and
    two tuples, are equal exactly when they have the same length and their
    elements are equal one by one in order.  The arrays of the TypeScript
    runner, which knows no tuple, compare in the same way.  In the C#
    runner a tuple that stands on the side of the actual value is compared
    as the list of its fields, so that it equals every list that the list
    of its fields equals; a list on that side never equals a tuple. *)
Theorem sequence_never_equals_tuple (xs ys : list PyVal)
        (js ks : list JS.JsVal)
        (ToString : CSharp.CsVal -> string) (cs ds : list CSharp.CsVal) :
  deep_equals (PList xs) (PTuple ys) = false /\
  deep_equals (PTuple xs) (PList ys) = false /\
  (deep_equals (PList xs) (PList ys) = true <->
   Forall2 (fun x y => deep_equals x y = true) xs ys) /\
  (deep_equals (PTuple xs) (PTuple ys) = true <->
   Forall2 (fun x y => deep_equals x y = true) xs ys) /\
  (TypeScript.__deepEquals__ (JS.JArr js) (JS.JArr ks) = true <->
   Forall2 (fun x y => TypeScript.__deepEquals__ x y = true) js ks) /\
  CSharp.DeepEquals ToString (CSharp.CsTuple cs) (CSharp.CsList ds)
  = CSharp.DeepEquals ToString (CSharp.CsList cs) (CSharp.CsList ds) /\
  CSharp.DeepEquals ToString (CSharp.CsList cs) (CSharp.CsTuple ds) = false.
Proof.
  split; [reflexivity |]. split; [reflexivity |].
  split; [| split; [| split; [| split]]].
  - apply length_checked_Forall2.
  - apply length_checked_Forall2.
  - simpl.
    destruct (Nat.eqb_spec (List.length js) (List.length ks)) as [E | E]; simpl.
    + now apply every_index_Forall2.
    + split; [discriminate |]. intros H.
      now apply Forall2_same_length in H.
  - reflexivity.
  - reflexivity.
Qed.

(** C7 fails on the C# runner: the tuple [(1, 2, 3)] equals the list
    [[1, 2, 3]] that [ParseJson] reads as expected value. *)
Lemma csharp_tuple_equals_list :
  CSharp.DeepEquals (fun _ => EmptyString)
    (CSharp.CsTuple [CSharp.CsInt 1; CSharp.CsInt 2; CSharp.CsInt 3])
    (CSharp.CsList [CSharp.CsDouble (of_Z 1); CSharp.CsDouble (of_Z 2);
                    CSharp.CsDouble (of_Z 3)]) = true.
Proof. vm_compute. reflexivity. Qed.

(** ** Floats that are not finite *)

(** C8, as the code has it.  The Python runner serializes NaN and the two
    infinities as the [float] wrapper around the sentinel text, never as
    the bare text.  The TypeScript and Java runners have no wrapper: they
    emit the sentinel as a bare JSON string. *)
Theorem nonfinite_floats_wrapped_in_python (rt : Runtime)
        (toString : Java.JavaVal -> string) :
  serialize rt (PFloat nan) = Ok (marked "float" (PStr "NaN")) /\
  serialize rt (PFloat pos_inf) = Ok (marked "float" (PStr "Infinity")) /\
  serialize rt (PFloat neg_inf) = Ok (marked "float" (PStr "-Infinity")) /\
  TypeScript.__serialize__ (JS.JNum nan) = JS.JStr "NaN" /\
  TypeScript.__serialize__ (JS.JNum pos_inf) = JS.JStr "Infinity" /\
  TypeScript.__serialize__ (JS.JNum neg_inf) = JS.JStr "-Infinity" /\
  Java.serialize toString (Java.JvDouble nan) = Text.quoted "NaN" /\
  Java.serialize toString (Java.JvDouble pos_inf) = Text.quoted "Infinity" /\
  Java.serialize toString (Java.JvDouble neg_inf) = Text.quoted "-Infinity".
Proof. repeat split; reflexivity. Qed.

(** C8 fails on the TypeScript runner: NaN is serialized as the bare text
    [NaN], which is no wrapper object. *)
Lemma typescript_emits_bare_sentinel :
  TypeScript.__serialize__ (JS.JNum nan) = JS.JStr "NaN" /\
  JS.typeof (TypeScript.__serialize__ (JS.JNum nan)) = JS.Tstring.
Proof. split; reflexivity. Qed.

(** ** Booleans *)

(** The functions written test after test are the functions. *)
Lemma deep_equals_checked_result (a b : PyVal) :
  snd (deep_equals_checked a b) = deep_equals a b.
Proof.
  destruct a as [| x | n | f | s | l | l | c items | l | l | l],
           b as [| y | m | g | t | k | k | d others | k | k | k];
    try reflexivity;
    repeat match goal with c : dict_class |- _ => destruct c end;
    try reflexivity;
    unfold deep_equals_checked, check, and_check, or_check, done; cbn;
    repeat match goal with
           | |- context [is_nan ?h] => destruct (is_nan h)
           end; reflexivity.
Qed.

Lemma serialize_checked_result (rt : Runtime) (v : PyVal) :
  snd (serialize_checked rt v) = serialize rt v.
Proof.
  destruct v as [| x | n | f | s | l | l | c items | l | l | l];
    try reflexivity.
  destruct c; reflexivity.
Qed.

(** C10, as the code has it.  In the Python runner a [bool] is never
    equal to an [int], in either order, and [serialize] returns a boolean
    as it is, not under the marker of an [int], although a [bool] is an
    instance of [int].  [serialize] asks whether the value is a [bool]
    before it asks whether it is an [int], and a boolean leaves at the
    first of the two tests.  [deep_equals] asks neither question: it
    rejects a [bool] against an [int] on the test of the exact types. *)
Theorem bool_is_not_int (rt : Runtime) (b : bool) (n : Z) :
  deep_equals (PBool b) (PInt n) = false /\
  deep_equals (PInt n) (PBool b) = false /\
  serialize rt (PBool b) = Ok (PBool b) /\
  isinstance (PBool b) Cint = true /\
  serialize_checked rt (PBool b)
  = ([IsNone (PBool b); IsInstance (PBool b) Cbool], serialize rt (PBool b)) /\
  deep_equals_checked (PBool b) (PInt n)
  = ([IsNone (PBool b); IsNone (PBool b); IsNone (PInt n);
      IsInstance (PBool b) Cfloat; TypesDiffer (PBool b) (PInt n)],
     deep_equals (PBool b) (PInt n)) /\
  (forall v, snd (serialize_checked rt v) = serialize rt v) /\
  (forall x y, snd (deep_equals_checked x y) = deep_equals x y).
Proof.
  repeat (split; [reflexivity |]).
  split; [apply serialize_checked_result | apply deep_equals_checked_result].
Qed.

(** C10 fails on [deep_equals]: on [True] against [1] the call tests
    [None] and [float], then the two types, and answers; it never asks
    whether a value is a [bool] or an [int]. *)
Lemma deep_equals_makes_no_bool_test :
  existsb is_bool_or_int_test (fst (deep_equals_checked (PBool true) (PInt 1)))
  = false /\
  snd (deep_equals_checked (PBool true) (PInt 1)) = false /\
  deep_equals (PBool true) (PInt 1) = false.
Proof. repeat split; reflexivity. Qed.

(* ------------------------------------------------------------------ *)
(** * The round trip through [serialize] and [convert_expected] *)

(** ** Alike values *)

Lemma alike_refl : forall v, alike v v.
Proof.
  induction v using PyVal_nested_ind; try constructor.
  - induction H; constructor; auto.
  - induction H; constructor; auto.
  - induction H; constructor; intuition.
  - apply alike_Set with (m' := l); [reflexivity |].
    induction H; constructor; auto.
  - apply alike_Frozenset with (m' := l); [reflexivity |].
    induction H; constructor; auto.
  - induction H; constructor; auto.
Qed.

(** the class is preserved *)
Lemma alike_type a b : alike a b -> type a = type b.
Proof. destruct 1; reflexivity. Qed.

Lemma alike_num_eq a a' b b' :
  alike a a' -> alike b b' -> num_eq a b = num_eq a' b'.
Proof.
  intros Ha Hb; destruct Ha; destruct Hb; reflexivity.
Qed.

Lemma all_zip_alike la la' :
  Forall respects la -> Forall2 alike la la' ->
  forall lb lb', Forall2 alike lb lb' ->
  all_zip py_eq la lb = all_zip py_eq la' lb'.
Proof.
  intros HP Ha. induction Ha as [| x x' la la' Hx Ha IH]; intros lb lb' Hb.
  - reflexivity.
  - inversion HP as [| ? ? Px Pr]; subst.
    destruct Hb as [| y y' lb lb' Hy Hb]; simpl; [reflexivity |].
    rewrite (Px x' y y' Hx Hy), (IH Pr lb lb' Hb). reflexivity.
Qed.

Lemma seq_eq_alike la la' lb lb' :
  Forall respects la -> Forall2 alike la la' -> Forall2 alike lb lb' ->
  seq_eq py_eq la lb = seq_eq py_eq la' lb'.
Proof.
  intros HP Ha Hb. unfold seq_eq.
  rewrite (Forall2_same_length Ha), (Forall2_same_length Hb).
  rewrite (all_zip_alike HP Ha Hb). reflexivity.
Qed.

(** ** Sets *)


Lemma Forall2_In_l A B (R : A -> B -> Prop) l m x :
  Forall2 R l m -> In x l -> exists y, In y m /\ R x y.
Proof.
  induction 1 as [| a b l m Hab H IH]; simpl; [tauto |].
  intros [-> | Hx]; [eauto |].
  destruct (IH Hx) as (y & Hy & Hr). eauto.
Qed.

Lemma Forall2_In_r A B (R : A -> B -> Prop) l m y :
  Forall2 R l m -> In y m -> exists x, In x l /\ R x y.
Proof.
  induction 1 as [| a b l m Hab H IH]; simpl; [tauto |].
  intros [-> | Hy]; [eauto |].
  destruct (IH Hy) as (x & Hx & Hr). eauto.
Qed.

Lemma same_elements_l l m x :
  same_elements l m -> In x l -> exists y, In y m /\ alike x y.
Proof.
  intros (m' & Hp & Hf) Hx.
  destruct (Forall2_In_l x Hf Hx) as (y & Hy & Hr).
  exists y. split; [| exact Hr].
  eapply Permutation_in; [symmetry; exact Hp | exact Hy].
Qed.

Lemma same_elements_r l m y :
  same_elements l m -> In y m -> exists x, In x l /\ alike x y.
Proof.
  intros (m' & Hp & Hf) Hy.
  apply (Permutation_in _ Hp) in Hy.
  exact (Forall2_In_r y Hf Hy).
Qed.

Lemma same_elements_length l m :
  same_elements l m -> List.length l = List.length m.
Proof.
  intros (m' & Hp & Hf).
  rewrite (Forall2_same_length Hf). symmetry. apply Permutation_length, Hp.
Qed.

Lemma member_true eq x ys :
  member eq x ys = true <-> exists y, In y ys /\ eq x y = true.
Proof. unfold member. apply existsb_exists. Qed.

Lemma all_member_true eq xs ys :
  all_member eq xs ys = true <->
  forall x, In x xs -> exists y, In y ys /\ eq x y = true.
Proof.
  induction xs as [| x xs IH]; simpl.
  - split; [intros _ x [] | reflexivity].
  - rewrite andb_true_iff, IH, member_true. split.
    + intros [Hx Hr] z [<- | Hz]; auto.
    + intros H. split; [apply H; auto | intros z Hz; apply H; auto].
Qed.

Lemma all_member_alike la la' lb lb' :
  Forall respects la -> same_elements la la' -> same_elements lb lb' ->
  all_member py_eq la lb = all_member py_eq la' lb'.
Proof.
  intros HP Ha Hb. apply eq_true_iff_eq.
  rewrite !all_member_true. rewrite Forall_forall in HP. split.
  - intros H x' Hx'.
    destruct (same_elements_r x' Ha Hx') as (x & Hx & Hxx).
    destruct (H x Hx) as (y & Hy & He).
    destruct (same_elements_l y Hb Hy) as (y' & Hy' & Hyy).
    exists y'. split; [exact Hy' |].
    rewrite <- (HP x Hx x' y y' Hxx Hyy). exact He.
  - intros H x Hx.
    destruct (same_elements_l x Ha Hx) as (x' & Hx' & Hxx).
    destruct (H x' Hx') as (y' & Hy' & He).
    destruct (same_elements_r y' Hb Hy') as (y & Hy & Hyy).
    exists y. split; [exact Hy |].
    rewrite (HP x Hx x' y y' Hxx Hyy). exact He.
Qed.

Lemma set_eq_alike la la' lb lb' :
  Forall respects la -> same_elements la la' -> same_elements lb lb' ->
  set_eq py_eq la lb = set_eq py_eq la' lb'.
Proof.
  intros HP Ha Hb. unfold set_eq.
  rewrite (same_elements_length Ha), (same_elements_length Hb).
  rewrite (all_member_alike HP Ha Hb). reflexivity.
Qed.

(** ** Dictionaries *)

Lemma items_alike_keys xs ys :
  items_alike xs ys -> map fst xs = map fst ys.
Proof.
  induction 1 as [| p q xs ys [Hk _] H IH]; simpl; congruence.
Qed.

Lemma dict_get_alike k ys ys' :
  items_alike ys ys' ->
  match dict_get py_eq k ys, dict_get py_eq k ys' with
  | Some w, Some w' => alike w w'
  | None, None => True
  | _, _ => False
  end.
Proof.
  induction 1 as [| [k1 w] [k2 w'] ys ys' [Hk Hw] H IH]; simpl in *.
  - exact I.
  - subst k2. destruct (py_eq k k1); [exact Hw | exact IH].
Qed.


Lemma items_agree_alike xs xs' ys ys' :
  Forall respects_item xs -> items_alike xs xs' -> items_alike ys ys' ->
  items_agree py_eq py_eq xs ys = items_agree py_eq py_eq xs' ys'.
Proof.
  intros HP Hx Hy.
  induction Hx as [| [k v] [k' v'] xs xs' [Hk Hv] Hx IH]; simpl in *.
  - reflexivity.
  - inversion HP as [| ? ? [_ Pv] Pr]; subst. simpl in Pv.
    rewrite (IH Pr).
    pose proof (dict_get_alike k' Hy) as G.
    destruct (dict_get py_eq k' ys) as [w |], (dict_get py_eq k' ys') as [w' |];
      try contradiction; [| reflexivity].
    rewrite (Pv v' w w' Hv G). reflexivity.
Qed.

Lemma counts_agree_alike xs xs' ys ys' :
  Forall respects_item xs -> items_alike xs xs' -> items_alike ys ys' ->
  counts_agree py_eq xs ys = counts_agree py_eq xs' ys'.
Proof.
  intros HP Hx Hy.
  induction Hx as [| [k v] [k' v'] xs xs' [Hk Hv] Hx IH]; simpl in *.
  - reflexivity.
  - inversion HP as [| ? ? [_ Pv] Pr]; subst. simpl in Pv.
    rewrite (IH Pr).
    pose proof (dict_get_alike k' Hy) as G.
    destruct (dict_get py_eq k' ys) as [w |], (dict_get py_eq k' ys') as [w' |];
      try contradiction.
    + rewrite (Pv v' w w' Hv G). reflexivity.
    + rewrite (Pv v' (PInt 0) (PInt 0) Hv (alike_Int 0)). reflexivity.
Qed.

Lemma key_of_alike xs xs' k :
  items_alike xs xs' -> key_of py_eq xs k = key_of py_eq xs' k.
Proof.
  unfold key_of.
  induction 1 as [| p q xs xs' [Hk _] H IH]; simpl; [reflexivity |].
  rewrite Hk, IH. reflexivity.
Qed.

Lemma eq_zero_alike w w' : alike w w' -> eq_zero w = eq_zero w'.
Proof.
  intros H. unfold eq_zero.
  rewrite (alike_num_eq (alike_Int 0) H). reflexivity.
Qed.

Lemma zero_counts_alike xs xs' ys ys' :
  items_alike xs xs' -> items_alike ys ys' ->
  forallb (fun kw => key_of py_eq xs (fst kw) || eq_zero (snd kw)) ys =
  forallb (fun kw => key_of py_eq xs' (fst kw) || eq_zero (snd kw)) ys'.
Proof.
  intros Hx.
  induction 1 as [| p q ys ys' [Hk Hw] H IH]; simpl; [reflexivity |].
  rewrite IH, Hk, (key_of_alike _ Hx), (eq_zero_alike Hw). reflexivity.
Qed.

Lemma keys_agree_alike xs xs' :
  items_alike xs xs' -> forall ys ys', items_alike ys ys' ->
  keys_agree py_eq xs ys = keys_agree py_eq xs' ys'.
Proof.
  induction 1 as [| [k v] [k' v'] xs xs' [Hk _] Hx IH]; intros ys ys' Hy;
    simpl in *; [reflexivity |].
  destruct Hy as [| [j w] [j' w'] ys ys' [Hj _] Hy]; simpl in *; [reflexivity |].
  subst. rewrite (IH _ _ Hy). reflexivity.
Qed.

Lemma dict_eq_alike c d xs xs' ys ys' :
  Forall respects_item xs -> items_alike xs xs' -> items_alike ys ys' ->
  py_eq (PDict c xs) (PDict d ys) = py_eq (PDict c xs') (PDict d ys').
Proof.
  intros HP Hx Hy. simpl.
  rewrite (counts_agree_alike HP Hx Hy), (zero_counts_alike Hx Hy).
  rewrite (items_agree_alike HP Hx Hy), (keys_agree_alike Hx Hy).
  rewrite (Forall2_same_length Hx), (Forall2_same_length Hy).
  reflexivity.
Qed.

Lemma alike_set_elements l m m' :
  Permutation m m' -> Forall2 alike l m' -> same_elements l m.
Proof. intros Hp Hf. exists m'. auto. Qed.

Lemma py_eq_alike a : respects a.
Proof.
  induction a using PyVal_nested_ind; intros a' y y' Ha Hb;
    inversion Ha; subst; clear Ha.
  1-5: destruct Hb; reflexivity.
  - destruct Hb; try reflexivity. simpl. apply seq_eq_alike; assumption.
  - destruct Hb; try reflexivity. simpl. apply seq_eq_alike; assumption.
  - destruct Hb; try reflexivity.
    apply dict_eq_alike; try assumption.
  - destruct Hb; try reflexivity; simpl;
      apply set_eq_alike; eauto using alike_set_elements.
  - destruct Hb; try reflexivity; simpl;
      apply set_eq_alike; eauto using alike_set_elements.
  - destruct Hb; try reflexivity. simpl. apply seq_eq_alike; assumption.
Qed.

(** ** Text keys *)

Lemma text_keys_fresh items : forall seen k v,
  text_keys items seen = true -> In (k, v) items ->
  exists s, k = PStr s /\ string_in s seen = false.
Proof.
  induction items as [| [k0 v0] r IH]; intros seen k v Ht Hin; [destruct Hin |].
  simpl in Ht. destruct k0 as [| | | | s0 | | | | | |]; try discriminate.
  apply andb_true_iff in Ht. destruct Ht as [Hs Hr].
  destruct Hin as [E | Hin].
  - inversion E; subst. exists s0. split; [reflexivity |].
    now apply negb_true_iff.
  - destruct (IH _ _ _ Hr Hin) as (s & -> & Hf).
    exists s. split; [reflexivity |].
    simpl in Hf. apply orb_false_iff in Hf. tauto.
Qed.

Lemma dict_get_In items : forall seen k v,
  text_keys items seen = true -> In (k, v) items ->
  dict_get py_eq k items = Some v.
Proof.
  induction items as [| [k0 v0] r IH]; intros seen k v Ht Hin; [destruct Hin |].
  pose proof Ht as Ht0.
  simpl in Ht. destruct k0 as [| | | | s0 | | | | | |]; try discriminate.
  apply andb_true_iff in Ht. destruct Ht as [Hs Hr].
  destruct Hin as [E | Hin].
  - inversion E; subst. simpl. rewrite String.eqb_refl. reflexivity.
  - destruct (text_keys_fresh _ _ _ _ Hr Hin) as (s & -> & Hf).
    simpl in Hf. apply orb_false_iff in Hf. destruct Hf as [Hne _].
    simpl. rewrite Hne. exact (IH _ _ _ Hr Hin).
Qed.

Lemma text_key_eq items seen k v :
  text_keys items seen = true -> In (k, v) items -> py_eq k k = true.
Proof.
  intros Ht Hin. destruct (text_keys_fresh _ _ _ _ Ht Hin) as (s & -> & _).
  simpl. apply String.eqb_refl.
Qed.

(** ** [==] on a plain value *)

Lemma all_zip_refl cmp l :
  Forall (fun x => cmp x x = true) l -> all_zip cmp l l = true.
Proof. induction 1; simpl; [reflexivity |]. now rewrite H, IHForall. Qed.

Lemma all_member_refl cmp l :
  Forall (fun x => cmp x x = true) l -> all_member cmp l l = true.
Proof.
  intros H. apply all_member_true. intros x Hx. exists x. split; [exact Hx |].
  rewrite Forall_forall in H. auto.
Qed.

Lemma items_agree_sub cmp xs sub :
  text_keys xs [] = true -> incl sub xs ->
  Forall (fun kv => cmp (snd kv) (snd kv) = true) sub ->
  items_agree py_eq cmp sub xs = true.
Proof.
  intros Ht Hi H. induction H as [| [k v] r Hv H IH]; simpl; [reflexivity |].
  rewrite (dict_get_In _ _ _ _ Ht (Hi _ (or_introl eq_refl))).
  simpl in Hv. rewrite Hv, IH; [reflexivity |].
  intros z Hz. apply Hi. now right.
Qed.

Lemma counts_agree_sub xs sub :
  text_keys xs [] = true -> incl sub xs ->
  Forall (fun kv => py_eq (snd kv) (snd kv) = true) sub ->
  counts_agree py_eq sub xs = true.
Proof.
  intros Ht Hi H. induction H as [| [k v] r Hv H IH]; simpl; [reflexivity |].
  rewrite (dict_get_In _ _ _ _ Ht (Hi _ (or_introl eq_refl))).
  simpl in Hv. rewrite Hv, IH; [reflexivity |].
  intros z Hz. apply Hi. now right.
Qed.

Lemma key_of_In xs seen k v :
  text_keys xs seen = true -> In (k, v) xs -> key_of py_eq xs k = true.
Proof.
  intros Ht Hin. unfold key_of. apply existsb_exists.
  exists (k, v). split; [exact Hin |]. simpl. eapply text_key_eq; eauto.
Qed.

Lemma keys_agree_refl xs seen :
  text_keys xs seen = true -> keys_agree py_eq xs xs = true.
Proof.
  revert seen. induction xs as [| [k v] r IH]; intros seen Ht; [reflexivity |].
  simpl. rewrite (text_key_eq _ _ k v Ht (or_introl eq_refl)).
  simpl in Ht. destruct k; try discriminate.
  apply andb_true_iff in Ht. destruct Ht as [_ Hr].
  exact (IH _ Hr).
Qed.

Lemma forallb_Forall A (p : A -> bool) l :
  forallb p l = true -> Forall (fun x => p x = true) l.
Proof. intros H. apply Forall_forall. now apply forallb_forall. Qed.

Lemma Forall_impl2 A (P Q R : A -> Prop) l :
  (forall x, P x -> Q x -> R x) -> Forall P l -> Forall Q l -> Forall R l.
Proof.
  intros H HP. induction HP; intros HQ; inversion HQ; subst; constructor; auto.
Qed.

Lemma py_eq_plain v : plain v = true -> py_eq v v = true.
Proof.
  induction v using PyVal_nested_ind; simpl; intros Hp.
  - reflexivity.
  - apply Bool.eqb_reflx.
  - apply Z.eqb_refl.
  - apply double_eqb_refl. now apply negb_true_iff.
  - apply String.eqb_refl.
  - unfold seq_eq. rewrite Nat.eqb_refl. simpl. apply all_zip_refl.
    eapply Forall_impl2; [| exact H | exact (forallb_Forall _ _ Hp)]. auto.
  - unfold seq_eq. rewrite Nat.eqb_refl. simpl. apply all_zip_refl.
    eapply Forall_impl2; [| exact H | exact (forallb_Forall _ _ Hp)]. auto.
  - apply andb_true_iff in Hp. destruct Hp as [Ht Hv].
    assert (Hvals : Forall (fun kv => py_eq (snd kv) (snd kv) = true) items).
    { eapply Forall_impl2; [| exact H | exact (forallb_Forall _ _ Hv)].
      simpl. intros kv [_ Hs] Hq. auto. }
    rewrite Nat.eqb_refl.
    rewrite (counts_agree_sub Ht (incl_refl _) Hvals).
    rewrite (items_agree_sub py_eq Ht (incl_refl _) Hvals).
    rewrite (keys_agree_refl _ _ Ht).
    replace (forallb _ items) with true.
    + rewrite orb_true_r. destruct (is_counter c && is_counter c); reflexivity.
    + symmetry. apply forallb_forall. intros [k w] Hin. simpl.
      rewrite (key_of_In _ _ k w Ht Hin). reflexivity.
  - unfold set_eq. rewrite Nat.eqb_refl. simpl. apply all_member_refl.
    eapply Forall_impl2; [| exact H | exact (forallb_Forall _ _ Hp)]. auto.
  - unfold set_eq. rewrite Nat.eqb_refl. simpl. apply all_member_refl.
    eapply Forall_impl2; [| exact H | exact (forallb_Forall _ _ Hp)]. auto.
  - unfold seq_eq. rewrite Nat.eqb_refl. simpl. apply all_zip_refl.
    eapply Forall_impl2; [| exact H | exact (forallb_Forall _ _ Hp)]. auto.
Qed.

(** An alike value equals a plain one. *)
Lemma py_eq_alike_plain y x : alike y x -> plain x = true -> py_eq y x = true.
Proof.
  intros Ha Hp. rewrite (py_eq_alike Ha (alike_refl x)).
  now apply py_eq_plain.
Qed.

Lemma all_zip_accepted l0 l :
  Forall2 alike l0 l -> Forall accepted l -> forallb well_formed l = true ->
  all_zip deep_equals l0 l = true.
Proof.
  induction 1 as [| y x l0 l Hyx H IH]; intros HP Hw; [reflexivity |].
  inversion HP as [| ? ? Px Pr]; subst.
  simpl in Hw. apply andb_true_iff in Hw. destruct Hw as [Hx Hr].
  simpl. rewrite (Px y Hyx Hx), (IH Pr Hr). reflexivity.
Qed.

Lemma items_agree_accepted xs : text_keys xs [] = true ->
  forall sub_y sub_x, items_alike sub_y sub_x -> incl sub_x xs ->
  Forall (fun kv => accepted (snd kv)) sub_x ->
  forallb (fun kv => well_formed (snd kv)) sub_x = true ->
  items_agree py_eq deep_equals sub_y xs = true.
Proof.
  intros Ht sub_y sub_x H.
  induction H as [| [k y] [k' x] sub_y sub_x [Hk Hyx] H IH]; intros Hi HP Hw;
    [reflexivity |].
  simpl in Hk, Hyx. subst k'.
  inversion HP as [| ? ? Px Pr]; subst. simpl in Px.
  simpl in Hw. apply andb_true_iff in Hw. destruct Hw as [Hx Hr].
  simpl. rewrite (dict_get_In _ _ _ _ Ht (Hi _ (or_introl eq_refl))).
  rewrite (Px y Hyx Hx). simpl. apply IH; auto.
  intros z Hz. apply Hi. now right.
Qed.

Lemma class_eqb_refl c : class_eqb c c = true.
Proof. destruct c; reflexivity. Qed.

Lemma keys_set_eq xs : text_keys xs [] = true ->
  set_eq py_eq (dict_keys xs) (dict_keys xs) = true.
Proof.
  intros Ht. unfold set_eq. rewrite Nat.eqb_refl. simpl.
  apply all_member_refl. apply Forall_forall. intros k Hk.
  unfold dict_keys in Hk. apply in_map_iff in Hk.
  destruct Hk as ([k' v] & <- & Hin). simpl.
  eapply text_key_eq; eauto.
Qed.

Lemma deep_equals_alike x : accepted x.
Proof.
  induction x using PyVal_nested_ind; intros y Ha Hw;
    pose proof Ha as Ha'; inversion Ha; subst; clear Ha;
    try match goal with F : Forall2 _ _ _ |- _ => rename F into HF end.
  - reflexivity.
  - simpl. apply Bool.eqb_reflx.
  - simpl. apply Z.eqb_refl.
  - simpl. destruct (is_nan f) eqn:E; simpl; [reflexivity |].
    now apply double_eqb_refl.
  - simpl. apply String.eqb_refl.
  - simpl in *. rewrite (Forall2_same_length HF), Nat.eqb_refl. simpl.
    now apply all_zip_accepted.
  - simpl in *. rewrite (Forall2_same_length HF), Nat.eqb_refl. simpl.
    now apply all_zip_accepted.
  - simpl in Hw. apply andb_true_iff in Hw. destruct Hw as [Ht Hv].
    simpl. rewrite class_eqb_refl. simpl.
    rewrite andb_false_r. unfold dict_keys at 1.
    rewrite (items_alike_keys HF). fold (dict_keys items).
    rewrite (keys_set_eq _ Ht). simpl.
    eapply items_agree_accepted; eauto using incl_refl.
    eapply Forall_impl; [| exact H]. simpl. tauto.
  - simpl in Hw. rewrite !andb_true_iff in Hw. destruct Hw as [[[_ _] Hp] _].
    change (py_eq (PSet l0) (PSet l) = true).
    apply py_eq_alike_plain; [exact Ha' | exact Hp].
  - simpl in Hw. rewrite !andb_true_iff in Hw. destruct Hw as [[[_ _] Hp] _].
    change (py_eq (PFrozenset l0) (PFrozenset l) = true).
    apply py_eq_alike_plain; [exact Ha' | exact Hp].
  - simpl in Hw. rewrite !andb_true_iff in Hw. destruct Hw as [Hp _].
    change (py_eq (PDeque l0) (PDeque l) = true).
    apply py_eq_alike_plain; [exact Ha' | exact Hp].
Qed.

Section Markers.

Variable rt : Runtime.

Lemma convert_marked_int n :
  convert_expected rt (marked "int" (PInt n)) = Ok (PInt n).
Proof. reflexivity. Qed.

Lemma convert_marked_float f :
  convert_expected rt (marked "float" (PFloat f)) = Ok (PFloat f).
Proof. reflexivity. Qed.

Lemma convert_marked_sentinel :
  convert_expected rt (marked "float" (PStr "NaN")) = Ok (PFloat nan) /\
  convert_expected rt (marked "float" (PStr "Infinity")) = Ok (PFloat pos_inf) /\
  convert_expected rt (marked "float" (PStr "-Infinity")) = Ok (PFloat neg_inf).
Proof. repeat split; reflexivity. Qed.








End Markers.

(** ** Pairwise different elements *)



Lemma forallb_perm A (p : A -> bool) l m :
  Permutation l m -> forallb p l = forallb p m.
Proof.
  induction 1; simpl; try congruence.
  - rewrite !andb_assoc, (andb_comm (p y)). reflexivity.
Qed.



(** ** Hashable values *)


Lemma Forall_perm A (P : A -> Prop) l m :
  Permutation l m -> Forall P l -> Forall P m.
Proof.
  intros Hp H. rewrite Forall_forall in *. intros x Hx.
  apply H. eapply Permutation_in; [symmetry; exact Hp | exact Hx].
Qed.


(** ** Dictionaries with text keys *)

Lemma dict_set_fresh k v acc :
  (forall kv, In kv acc -> py_eq k (fst kv) = false) ->
  dict_set k v acc = (acc ++ [(k, v)])%list.
Proof.
  induction acc as [| [k' v'] acc IH]; intros H; [reflexivity |].
  pose proof (H (k', v') (or_introl eq_refl)) as E. simpl in E.
  simpl. rewrite E.
  rewrite IH; [reflexivity |]. intros kv Hkv. apply H. now right.
Qed.

Lemma string_in_false s l : string_in s l = false -> ~ In s l.
Proof.
  induction l as [| t l IH]; simpl; [tauto |].
  intros H. apply orb_false_iff in H. destruct H as [Hn Hl].
  intros [<- | Hin]; [| exact (IH Hl Hin)].
  rewrite String.eqb_refl in Hn. discriminate.
Qed.

Lemma dict_of_fold items : forall acc seen,
  text_keys items seen = true ->
  (forall kv, In kv acc -> exists s, fst kv = PStr s /\ In s seen) ->
  fold_left (fun d kv => dict_set (fst kv) (snd kv) d) items acc = (acc ++ items)%list.
Proof.
  induction items as [| [k v] items IH]; intros acc seen Ht Hacc; simpl.
  - now rewrite app_nil_r.
  - simpl in Ht. destruct k as [| | | | s | | | | | |]; try discriminate.
    apply andb_true_iff in Ht. destruct Ht as [Hs Hr].
    apply negb_true_iff in Hs.
    rewrite dict_set_fresh.
    + rewrite (IH _ (s :: seen) Hr).
      * now rewrite <- app_assoc.
      * intros kv Hkv. apply in_app_or in Hkv. destruct Hkv as [Hkv | [<- | []]].
        -- destruct (Hacc kv Hkv) as (t & Ht & Hin). exists t. simpl. auto.
        -- exists s. simpl. auto.
    + intros kv Hkv. destruct (Hacc kv Hkv) as (t & Ht & Hin). rewrite Ht.
      simpl. apply String.eqb_neq. intros ->.
      exact (string_in_false _ _ Hs Hin).
Qed.

Lemma dict_of_text_keys items :
  text_keys items [] = true -> dict_of items = items.
Proof.
  intros Ht. unfold dict_of.
  rewrite (dict_of_fold _ [] [] Ht); [reflexivity |]. intros kv [].
Qed.


(** ** Sorting *)

Lemma mapM_Forall2 (A B : Type) (f : A -> Res B) l : forall ys,
  mapM f l = Ok ys <-> Forall2 (fun x y => f x = Ok y) l ys.
Proof.
  induction l as [| x l IH]; intros ys; simpl.
  - split; [intros E; inversion E; constructor | intros H; now inversion H].
  - destruct (f x) as [y | e] eqn:Ex.
    + destruct (mapM f l) as [ys' | e] eqn:El.
      * split.
        -- intros E. inversion E; subst. constructor; [exact Ex |].
           now apply IH.
        -- intros H. inversion H as [| ? y' ? l' Hy Hl]; subst.
           apply IH in Hl. congruence.
      * split; [discriminate |]. intros H.
        inversion H as [| ? y' ? l' Hy Hl]; subst. apply IH in Hl. discriminate.
    + split; [discriminate |]. intros H.
      inversion H as [| ? y' ? l' Hy Hl]; subst. congruence.
Qed.

Lemma insert_sorted_perm x l : Permutation (insert_sorted x l) (x :: l).
Proof.
  induction l as [| y l IH]; simpl; [reflexivity |].
  destruct (String.ltb _ _); [| reflexivity].
  rewrite IH. apply perm_swap.
Qed.

Lemma sort_perm l : Permutation (fold_right insert_sorted [] l) l.
Proof.
  induction l as [| x l IH]; simpl; [reflexivity |].
  rewrite insert_sorted_perm. now constructor.
Qed.

Section Sorting.

Variable rt : Runtime.

Lemma keyed_elements l : forall keyed,
  mapM (fun x => bind (py_str rt x) (fun key => Ok (key, x))) l = Ok keyed ->
  map snd keyed = l.
Proof.
  intros keyed E. apply mapM_Forall2 in E.
  induction E as [| x kx l keyed Hx H IH]; simpl; [reflexivity |].
  destruct (py_str rt x); simpl in Hx; [| discriminate].
  inversion Hx as [Ek]. simpl. now rewrite IH.
Qed.

(** [sorted] returns the elements it is given, in some order. *)
Lemma sorted_perm l ordered :
  sorted rt l = Ok ordered -> Permutation ordered l.
Proof.
  unfold sorted. intros E.
  destruct (mapM _ l) as [keyed | e] eqn:Ek; simpl in E; [| discriminate].
  inversion E; subst. rewrite <- (keyed_elements _ Ek).
  apply Permutation_map, sort_perm.
Qed.


End Sorting.

Section RestoreFacts.

Variable rt : Runtime.

Lemma serialize_dict c items :
  serialize rt (PDict c items) = serialized_dict rt (marker_name c) items.
Proof. destruct c; reflexivity. Qed.













(** ** When [serialize] returns *)





End RestoreFacts.




(** Where [str] must write an int of more digits than the interpreter
    allows, [serialize] raises: on a set that holds such an int, and on a
    dictionary that has it as a key. *)
Lemma serialize_raises_on_long_int :
  serialize Examples.example_runtime (PSet [PInt Examples.long_int])
  = Raise Examples.value_error /\
  serialize Examples.example_runtime
    (PDict Dict [(PInt Examples.long_int, PNone)])
  = Raise Examples.value_error /\
  serialize Examples.example_runtime (PInt Examples.long_int)
  = Ok (marked "int" (PInt Examples.long_int)).
Proof.
  split; [vm_compute; reflexivity |].
  split; [vm_compute; reflexivity | reflexivity].
Qed.

(* ------------------------------------------------------------------ *)
(** * Dictionaries *)

Lemma text_keys_NoDup items : forall seen,
  text_keys items seen = true -> NoDup (dict_keys items).
Proof.
  induction items as [| [k v] items IH]; intros seen Ht; [constructor |].
  pose proof Ht as Ht0. simpl in Ht.
  destruct k as [| | | | s | | | | | |]; try discriminate.
  apply andb_true_iff in Ht. destruct Ht as [_ Hr].
  simpl. constructor; [| exact (IH _ Hr)].
  intros Hin. unfold dict_keys in Hin. apply in_map_iff in Hin.
  destruct Hin as ([k' v'] & Ek & Hin). simpl in Ek. subst k'.
  destruct (text_keys_fresh _ _ _ _ Hr Hin) as (t & Et & Hf).
  inversion Et; subst t. simpl in Hf. rewrite String.eqb_refl in Hf.
  discriminate.
Qed.

Lemma text_keys_are_text items seen k :
  text_keys items seen = true -> In k (dict_keys items) ->
  exists s, k = PStr s.
Proof.
  intros Ht Hin. unfold dict_keys in Hin. apply in_map_iff in Hin.
  destruct Hin as ([k' v'] & Ek & Hin). simpl in Ek. subst k'.
  destruct (text_keys_fresh _ _ _ _ Ht Hin) as (s & -> & _). eauto.
Qed.

Lemma py_eq_text s k : py_eq (PStr s) k = true -> k = PStr s.
Proof.
  destruct k; try discriminate. simpl. intros H.
  apply String.eqb_eq in H. now subst.
Qed.

Lemma deep_equals_dicts c d a b :
  deep_equals (PDict c a) (PDict d b) = true ->
  set_eq py_eq (dict_keys a) (dict_keys b) = true.
Proof.
  intros H.
  destruct (set_eq py_eq (dict_keys a) (dict_keys b)) eqn:E; [reflexivity |].
  destruct c, d; simpl in H; try discriminate; rewrite E in H; discriminate.
Qed.

(** ** Keys that are [None], booleans, ints or texts *)

Lemma py_eq_code x y :
  scalar x = true -> scalar y = true ->
  (py_eq x y = true <-> code_of x = code_of y).
Proof.
  destruct x as [| a | n | | s | | | | | |], y as [| b | m | | t | | | | | |];
    try discriminate; intros _ _; simpl;
    try (split; [discriminate | discriminate]);
    try (split; reflexivity).
  - destruct a, b; simpl; split; intros H; try reflexivity; discriminate.
  - rewrite Z.eqb_eq. split; intros H; [now subst | now inversion H].
  - rewrite Z.eqb_eq. split; intros H; [now subst | now inversion H].
  - rewrite Z.eqb_eq. split; intros H; [now subst | now inversion H].
  - rewrite String.eqb_eq. split; intros H; [now subst | now inversion H].
Qed.

(** [k == x] depends on a key [x] through its code only. *)
Lemma py_eq_same_code k x y :
  scalar x = true -> scalar y = true -> code_of x = code_of y ->
  py_eq k x = py_eq k y.
Proof.
  destruct x as [| a | n | | s | | | | | |], y as [| b | m | | t | | | | | |];
    try discriminate; intros _ _ E; inversion E; subst; try reflexivity.
  - destruct a, b; try discriminate; reflexivity.
  - destruct k as [| z | j | | | | | | | |]; try reflexivity; simpl.
    + destruct z, a; reflexivity.
    + apply Z.eqb_sym.
  - destruct k as [| z | j | | | | | | | |]; try reflexivity; simpl.
    + destruct z, b; reflexivity.
    + apply Z.eqb_sym.
Qed.

Lemma distinct_codes l :
  forallb scalar l = true -> distinct l = true -> NoDup (map code_of l).
Proof.
  induction l as [| x l IH]; simpl; intros Hs Hd; [constructor |].
  apply andb_true_iff in Hs, Hd. destruct Hs as [Hx Hs], Hd as [Hxd Hd].
  constructor; [| now apply IH].
  intros Hin. apply in_map_iff in Hin. destruct Hin as (y & Ey & Hy).
  rewrite forallb_forall in Hxd, Hs.
  specialize (Hxd y Hy). apply andb_true_iff in Hxd. destruct Hxd as [Hxy _].
  apply negb_true_iff in Hxy.
  assert (T : py_eq x y = true)
    by (apply py_eq_code; [exact Hx | now apply Hs | now symmetry]).
  congruence.
Qed.

Lemma member_code k l :
  forallb scalar l = true -> scalar k = true ->
  (member py_eq k l = true <-> In (code_of k) (map code_of l)).
Proof.
  intros Hs Hk. rewrite member_true, in_map_iff.
  rewrite forallb_forall in Hs. split.
  - intros (y & Hy & E). exists y. split; [| exact Hy].
    symmetry. apply py_eq_code; auto.
  - intros (y & E & Hy). exists y. split; [exact Hy |].
    apply py_eq_code; auto.
Qed.

(** Two dictionaries that [deep_equals] accepts have the same codes of
    keys. *)
Lemma same_key_codes c d a b :
  scalar_keys a = true -> scalar_keys b = true ->
  deep_equals (PDict c a) (PDict d b) = true ->
  forall q, In q (map code_of (dict_keys a))
            <-> In q (map code_of (dict_keys b)).
Proof.
  unfold scalar_keys. intros Ha Hb H.
  apply andb_true_iff in Ha, Hb. destruct Ha as [Sa Da], Hb as [Sb Db].
  apply deep_equals_dicts in H. unfold set_eq in H.
  apply andb_true_iff in H. destruct H as [Hl Hm].
  apply Nat.eqb_eq in Hl. rewrite all_member_true in Hm.
  assert (Hincl : incl (map code_of (dict_keys a)) (map code_of (dict_keys b))).
  { intros q Hq. apply in_map_iff in Hq. destruct Hq as (x & <- & Hx).
    destruct (Hm x Hx) as (y & Hy & E). apply in_map_iff. exists y.
    split; [| exact Hy]. symmetry. apply py_eq_code; auto.
    - rewrite forallb_forall in Sa. auto.
    - rewrite forallb_forall in Sb. auto. }
  intros q. split; [apply Hincl |].
  apply (NoDup_length_incl (distinct_codes _ Sa Da));
    [rewrite !length_map; lia | exact Hincl].
Qed.

(** C3, as the code has it.  In the Python runner two dictionaries whose
    keys are [None], booleans, ints or texts are equal only if they have
    the same keys: whatever is a key of one is a key of the other, so that
    a key present on one side and absent on the other makes [deep_equals]
    answer [False], for [Counter] and [defaultdict] too (no default value
    stands in).  Keys are compared with [==]: an [int] is never the key
    that its decimal text is, in either order.  The Java runner's
    [deepEquals] looks a key up as it is and then as its text, so the map
    with the key 1 compares with the map whose key is the text 1 value by
    value. *)
Theorem dict_key_sets_must_match (c d : dict_class)
        (a b : list (PyVal * PyVal)) :
  scalar_keys a = true -> scalar_keys b = true ->
  deep_equals (PDict c a) (PDict d b) = true ->
  (forall k, member py_eq k (dict_keys a) = member py_eq k (dict_keys b)) /\
  (forall n s, py_eq (PInt n) (PStr s) = false /\
               py_eq (PStr s) (PInt n) = false) /\
  (forall n s v w,
      deep_equals (PDict c [(PInt n, v)]) (PDict d [(PStr s, w)]) = false /\
      deep_equals (PDict c [(PStr s, w)]) (PDict d [(PInt n, v)]) = false) /\
  (forall toString n v w,
      Java.deepEquals toString
        (Java.JvMap [(Java.JvInteger n, v)])
        (Java.JvMap [(Java.JvString (Text.decimal n), w)])
      = Java.deepEquals toString v w).
Proof.
  intros Ha Hb H. split; [| split; [| split]].
  - pose proof (same_key_codes c d a b Ha Hb H) as Hc.
    unfold scalar_keys in Ha, Hb.
    apply andb_true_iff in Ha, Hb. destruct Ha as [Sa _], Hb as [Sb _].
    rewrite forallb_forall in Sa, Sb.
    assert (G : forall xs ys,
               (forall x, In x xs -> scalar x = true) ->
               (forall y, In y ys -> scalar y = true) ->
               (forall q, In q (map code_of xs) -> In q (map code_of ys)) ->
               forall k, member py_eq k xs = true -> member py_eq k ys = true).
    { intros xs ys Sx Sy Hi k Hk. apply member_true in Hk.
      destruct Hk as (x & Hx & E).
      assert (Hq : In (code_of x) (map code_of ys))
        by (apply Hi, in_map, Hx).
      apply in_map_iff in Hq. destruct Hq as (y & Ey & Hy).
      apply member_true. exists y. split; [exact Hy |].
      rewrite <- E. symmetry. apply py_eq_same_code; auto. }
    intros k. apply eq_true_iff_eq. split.
    + apply G; auto. intros q. apply Hc.
    + apply G; auto. intros q. apply Hc.
  - intros n s. split; reflexivity.
  - intros n s v w. split; destruct c, d; reflexivity.
  - intros toString n v w. simpl.
    rewrite String.eqb_refl. simpl. rewrite !andb_false_r.
    destruct (Java.deepEquals toString v w); reflexivity.
Qed.

(* ------------------------------------------------------------------ *)
(** * The batch loops *)

Section PythonBatch.

Import Python Batch.

Variable rt : Runtime.
Variable World : Type.
Variable eval : World -> string -> Res PyVal * World.

Lemma attempt_world w i tc :
  snd (attempt rt eval w i tc) = snd (eval w (call tc)).
Proof. unfold attempt. destruct (eval w (call tc)); reflexivity. Qed.

Lemma attempt_raise w i tc e :
  fst (eval w (call tc)) = Raise e -> fst (attempt rt eval w i tc) = Raise e.
Proof.
  unfold attempt. destruct (eval w (call tc)) as [r w']; simpl.
  intros ->. reflexivity.
Qed.

Lemma attempt_index w i tc r :
  fst (attempt rt eval w i tc) = Ok r -> index r = i.
Proof.
  unfold attempt. destruct (eval w (call tc)) as [[a | e] w']; simpl;
    [| discriminate].
  destruct (parse_expected_value rt (expected tc)) as [x |]; simpl;
    [| discriminate].
  destruct (serialize rt a); simpl; [| discriminate].
  destruct (serialize rt x); simpl; [| discriminate].
  intros E. inversion E. reflexivity.
Qed.


Lemma py_run_from_spec tcs : forall w i0 acc,
  (forall j tc e,
      nth_error tcs j = Some tc ->
      fst (attempt rt eval (py_world_at eval w tcs j) (i0 + j) tc) = Raise e ->
      exc_isinstance e "Exception" = true) ->
  exists rs,
    run_from rt eval w i0 tcs acc = Ok (acc ++ rs)%list /\
    List.length rs = List.length tcs /\
    forall j tc, nth_error tcs j = Some tc ->
      exists r, nth_error rs j = Some r /\
                py_recorded eval (py_world_at eval w tcs j) (i0 + j) tc r.
Proof.
  induction tcs as [| tc tcs IH]; intros w i0 acc Hexc.
  - exists []. simpl. rewrite app_nil_r. repeat split.
    intros [| j] tc H; discriminate.
  - simpl.
    pose proof (attempt_world w i0 tc) as Ew.
    pose proof (@attempt_index w i0 tc) as Ei.
    pose proof (@attempt_raise w i0 tc) as Er.
    pose proof (Hexc 0%nat tc) as H0. simpl in H0. rewrite Nat.add_0_r in H0.
    destruct (attempt rt eval w i0 tc) as [[r | e] w'] eqn:Ea; simpl in *.
    + destruct (IH w' (S i0) (acc ++ [r])%list) as (rs & E & Hl & Hr).
      { intros j tc' e Hn Hraise. apply (Hexc (S j) tc' e Hn).
        simpl. rewrite <- Ew, Nat.add_succ_r. exact Hraise. }
      exists (r :: rs). rewrite E, <- app_assoc. simpl.
      split; [reflexivity |]. split; [now rewrite Hl |].
      intros [| j] tc' Hn; simpl in *.
      * inversion Hn; subst tc'. exists r. split; [reflexivity |].
        split; [rewrite Nat.add_0_r; now apply Ei |].
        intros e He. specialize (Er e He). discriminate.
      * rewrite <- Ew, Nat.add_succ_r. exact (Hr j tc' Hn).
    + rewrite (H0 e eq_refl eq_refl).
      destruct (IH w' (S i0) (acc ++ [failure i0 e])%list) as (rs & E & Hl & Hr).
      { intros j tc' e' Hn Hraise. apply (Hexc (S j) tc' e' Hn).
        simpl. rewrite <- Ew, Nat.add_succ_r. exact Hraise. }
      exists (failure i0 e :: rs). rewrite E, <- app_assoc. simpl.
      split; [reflexivity |]. split; [now rewrite Hl |].
      intros [| j] tc' Hn; simpl in *.
      * inversion Hn; subst tc'. exists (failure i0 e). split; [reflexivity |].
        rewrite Nat.add_0_r. split; [reflexivity |].
        intros e' He'. specialize (Er e' He'). congruence.
      * rewrite <- Ew, Nat.add_succ_r. exact (Hr j tc' Hn).
Qed.

End PythonBatch.

Section TypeScriptBatch.

Import JS TypeScript Batch.

Variable rt : Runtime.
Variable World : Type.
Variable eval : World -> string -> (JsVal + Thrown) * World.


Lemma failure_index i e r : failure i e = Some r -> index r = i.
Proof. destruct e; simpl; [discriminate |]. intros E. inversion E. reflexivity. Qed.

Lemma ts_run_from_spec tcs : forall w i0 acc,
  (forall j tc,
      nth_error tcs j = Some tc ->
      fst (eval (ts_world_at eval w tcs j) (call tc)) <> inr ThrownNullish) ->
  exists rs,
    run_from rt eval w i0 tcs acc = Some (acc ++ rs)%list /\
    List.length rs = List.length tcs /\
    forall j tc, nth_error tcs j = Some tc ->
      exists r, nth_error rs j = Some r /\
                ts_recorded eval (ts_world_at eval w tcs j) (i0 + j) tc r.
Proof.
  induction tcs as [| tc tcs IH]; intros w i0 acc Hexc.
  - exists []. simpl. rewrite app_nil_r. repeat split.
    intros [| j] tc H; discriminate.
  - simpl.
    pose proof (Hexc 0%nat tc eq_refl) as H0. simpl in H0.
    destruct (eval w (call tc)) as [[a | e] w'] eqn:Ea; simpl in *.
    + destruct (IH w' (S i0)
                  (acc ++ [success i0 a (__parseExpected__ rt (expected tc))])%list)
        as (rs & E & Hl & Hr).
      { intros j tc' Hn. specialize (Hexc (S j) tc' Hn). simpl in Hexc.
        rewrite Ea in Hexc. exact Hexc. }
      eexists (_ :: rs). rewrite E, <- app_assoc. simpl.
      split; [reflexivity |]. split; [now rewrite Hl |].
      intros [| j] tc' Hn; simpl in *.
      * inversion Hn; subst tc'. eexists. split; [reflexivity |].
        unfold ts_recorded. rewrite Ea. simpl.
        split; [now rewrite Nat.add_0_r | discriminate].
      * rewrite Nat.add_succ_r. exact (Hr j tc' Hn).
    + destruct e as [| name message text]; [congruence |]. simpl.
      match goal with |- context [run_from _ _ _ _ _ (acc ++ [?r])%list] =>
        destruct (IH w' (S i0) (acc ++ [r])%list) as (rs & E & Hl & Hr);
        [| exists (r :: rs)] end.
      { intros j tc' Hn. specialize (Hexc (S j) tc' Hn). simpl in Hexc.
        rewrite Ea in Hexc. exact Hexc. }
      rewrite E, <- app_assoc. simpl.
      split; [reflexivity |]. split; [now rewrite Hl |].
      intros [| j] tc' Hn; simpl in *.
      * inversion Hn; subst tc'. eexists. split; [reflexivity |].
        unfold ts_recorded. rewrite Ea. simpl.
        split; [now rewrite Nat.add_0_r |].
        intros e E'. inversion E'; subst. rewrite Nat.add_0_r. reflexivity.
      * rewrite Nat.add_succ_r. exact (Hr j tc' Hn).
Qed.

End TypeScriptBatch.

(** C3 fails on the Java runner: the map with the [Integer] key 1 equals
    the map with the [String] key 1, although the two keys differ. *)
Lemma java_matches_key_by_its_text :
  Java.equals (Java.JvInteger 1) (Java.JvString "1") = false /\
  Java.deepEquals (fun _ => EmptyString)
    (Java.JvMap [(Java.JvInteger 1, Java.JvString "x")])
    (Java.JvMap [(Java.JvString "1", Java.JvString "x")]) = true.
Proof. split; reflexivity. Qed.

Lemma dict_key_sets_must_match_witness :
  let a := [(PInt 1, PStr "x"); (PStr "1", PFloat nan); (PNone, PInt 0)] in
  let b := [(PStr "1", PFloat nan); (PNone, PInt 0); (PInt 1, PStr "x")] in
  scalar_keys a = true /\ scalar_keys b = true /\
  deep_equals (PDict Counter a) (PDict Counter b) = true /\
  forall k, member py_eq k (dict_keys a) = member py_eq k (dict_keys b).
Proof.
  intros a b. repeat (split; [reflexivity |]).
  exact (proj1 (dict_key_sets_must_match Counter Counter a b
                  eq_refl eq_refl eq_refl)).
Defined.

(** What the loops do when no exception leaves them.  When every
    exception raised inside the [try] of the Python loop derives from
    [Exception], and no call of the TypeScript loop throws [null] or
    [undefined], each loop produces exactly one record per test case, in
    order, the record at index [j] carrying the index [j].  When the call
    at index [j] raises, the record holds no actual value, [passed] false,
    and as error the name of the exception, a colon and a space, and its
    message; the TypeScript runner writes [Error] for a name that is
    absent or empty and [String(e)] for such a message.  The following
    indices are processed all the same. *)
Lemma batch_records_every_index
        (rt : Runtime) (World : Type)
        (eval : World -> string -> Res PyVal * World)
        (w : World) (tcs : list TestCase)
        (trt : TypeScript.Runtime) (TWorld : Type)
        (teval : TWorld -> string -> (JS.JsVal + TypeScript.Thrown) * TWorld)
        (tw : TWorld) (ttcs : list TypeScript.TestCase) :
  (forall j tc e,
      nth_error tcs j = Some tc ->
      fst (attempt rt eval (Batch.py_world_at eval w tcs j) j tc) = Raise e ->
      exc_isinstance e "Exception" = true) ->
  (forall j tc,
      nth_error ttcs j = Some tc ->
      fst (teval (Batch.ts_world_at teval tw ttcs j) (TypeScript.call tc))
      <> inr TypeScript.ThrownNullish) ->
  (exists results,
      run rt eval w tcs = Ok results /\
      List.length results = List.length tcs /\
      forall j tc, nth_error tcs j = Some tc ->
        exists r,
          nth_error results j = Some r /\ index r = j /\
          forall e,
            fst (eval (Batch.py_world_at eval w tcs j) (call tc)) = Raise e ->
            r = {| index := j; actual := PNone; expected_serialized := PNone;
                   passed := false;
                   error := Some (exc_name e ++ ": " ++ exc_str e) |}) /\
  (exists results,
      TypeScript.run trt teval tw ttcs = Some results /\
      List.length results = List.length ttcs /\
      forall j tc, nth_error ttcs j = Some tc ->
        exists r,
          nth_error results j = Some r /\ TypeScript.index r = j /\
          forall name message text,
            fst (teval (Batch.ts_world_at teval tw ttcs j) (TypeScript.call tc))
            = inr (TypeScript.ThrownValue name message text) ->
            r = {| TypeScript.index := j; TypeScript.actual := JS.JNull;
                   TypeScript.expected_serialized := JS.JNull;
                   TypeScript.passed := false;
                   TypeScript.error :=
                     JS.JStr (TypeScript.or_default name "Error" ++ ": "
                              ++ TypeScript.or_default message text) |}).
Proof.
  intros Hpy Hts. split.
  - destruct (py_run_from_spec rt eval tcs w 0 []) as (rs & E & Hl & Hr).
    { exact Hpy. }
    exists rs. split; [exact E |]. split; [exact Hl |].
    intros j tc Hn. destruct (Hr j tc Hn) as (r & Hj & Hi & He).
    exists r. split; [exact Hj |]. split; [exact Hi |]. exact He.
  - destruct (ts_run_from_spec trt teval ttcs tw 0 []) as (rs & E & Hl & Hr).
    { exact Hts. }
    exists rs. split; [exact E |]. split; [exact Hl |].
    intros j tc Hn. destruct (Hr j tc Hn) as (r & Hj & Hi & He).
    exists r. split; [exact Hj |]. split; [exact Hi |].
    intros name message text Et. specialize (He _ Et). simpl in He.
    now inversion He.
Qed.

Lemma batch_records_every_index_witness :
  (exists results,
      run Examples.example_runtime Examples.example_eval tt
          Examples.example_tests = Ok results /\
      List.length results = 3%nat /\
      nth_error results 1
      = Some {| index := 1; actual := PNone; expected_serialized := PNone;
                passed := false;
                error := Some "ZeroDivisionError: division by zero" |}) /\
  (exists results,
      TypeScript.run Examples.ts_runtime Examples.ts_eval tt Examples.ts_tests
      = Some results /\
      List.length results = 2%nat).
Proof.
  destruct (batch_records_every_index
              Examples.example_runtime Examples.example_eval tt
              Examples.example_tests
              Examples.ts_runtime Examples.ts_eval tt Examples.ts_tests)
    as [(rs & E & Hl & Hr) (ts & Et & Htl & _)].
  - intros j tc e Hn.
    destruct j as [| [| [| j]]]; simpl in Hn;
      [| | | destruct j; discriminate];
      inversion Hn; subst; vm_compute; intros He; inversion He; reflexivity.
  - intros j tc Hn.
    destruct j as [| [| j]]; simpl in Hn; [| | destruct j; discriminate];
      inversion Hn; subst; vm_compute; discriminate.
  - split.
    + exists rs. split; [exact E |]. split; [exact Hl |].
      destruct (Hr 1%nat _ eq_refl) as (r & Hn & _ & He).
      rewrite Hn. f_equal. exact (He Examples.zero_division eq_refl).
    + exists ts. split; [exact Et | exact Htl].
Defined.

(** C4 does not hold of the runners: an exception can leave the loop,
    and the program then ends with no record written, whatever the index.
    The Python loop catches [Exception] only, so [sys.exit()] at index 0
    ends it: no record is appended and index 1 is never run.  A call that
    returns an int of more than 4300 digits gets its record, but
    [json.dumps], which stands after the loop outside every [try], raises
    on it and nothing is written.  The [catch] of the TypeScript loop
    reads [e.name] of what was thrown, so a call that throws [null] ends
    that loop in the same way. *)
Theorem batch_loop_is_left_early :
  run Examples.example_runtime Examples.example_eval tt Examples.exiting_tests
  = Raise Examples.system_exit /\
  main Examples.example_runtime Examples.example_eval tt Examples.exiting_tests
  = Raise Examples.system_exit /\
  (exists results,
      run Examples.example_runtime Examples.example_eval tt
          Examples.long_int_tests = Ok results /\
      List.length results = 2%nat) /\
  main Examples.example_runtime Examples.example_eval tt
       Examples.long_int_tests
  = Raise Examples.value_error /\
  TypeScript.run Examples.ts_runtime Examples.ts_eval tt
                 Examples.throwing_null_tests = None.
Proof.
  split; [reflexivity |]. split; [reflexivity |].
  split; [eexists; split; [vm_compute; reflexivity | reflexivity] |].
  split; [vm_compute; reflexivity | reflexivity].
Qed.

(* ------------------------------------------------------------------ *)
(** * Parsing the expected value *)

(** When no rule of [parse_expected_value] applies, the text comes back as
    it was written, untrimmed. *)
Lemma parse_expected_value_falls_back (rt : Runtime) (text : string) :
  let trimmed := strip text in
  try_except ["JSONDecodeError"; "ValueError"]
    (bind (json_loads rt trimmed) (fun parsed => convert_expected rt parsed))
  = None ->
  keyword trimmed = None ->
  constructor_call rt "frozenset" "{" "}" (PFrozenset [])
    (py_frozenset rt) trimmed = None ->
  constructor_call rt "Counter" "{" "}" (PDict Counter [])
    (py_Counter rt) trimmed = None ->
  constructor_call rt "OrderedDict" "[" "]" (PDict OrderedDict [])
    (py_OrderedDict rt) trimmed = None ->
  constructor_call rt "deque" "[" "]" (PDeque []) (py_deque rt) trimmed = None ->
  String.eqb trimmed "defaultdict()" = false ->
  range_call rt trimmed = None ->
  power_expression rt trimmed = None ->
  Text.is_int_literal trimmed = false ->
  Text.is_frac_literal trimmed || Text.is_trailing_dot_literal trimmed = false ->
  try_except ["ValueError"; "SyntaxError"]
    (literal_eval rt (normalize rt trimmed)) = None ->
  parse_expected_value rt (PStr text) = Ok (PStr text).
Proof.
  intros trimmed H1 H2 H3 H4 H5 H6 H7 H8 H9 H10 H11 H12.
  unfold parse_expected_value. fold trimmed.
  rewrite H1, H2, H3, H4, H5, H6, H7, H8, H9, H10, H11, H12. reflexivity.
Qed.

(** The TypeScript runner's [__parseExpected__] always returns a value;
    it returns the text as it was written when the text neither parses as
    JSON nor is a keyword or a number. *)
Lemma parseExpected_falls_back (rt : TypeScript.Runtime) (text : string) :
  let trimmed := JS.trim text in
  (if TypeScript.looks_like_json trimmed
   then TypeScript.JSON_parse rt trimmed else None) = None ->
  existsb (String.eqb trimmed)
    ["true"; "false"; "null"; "undefined"; "NaN"; "Infinity"; "-Infinity"]
  = false ->
  Text.is_int_literal trimmed = false ->
  Text.is_frac_literal trimmed = false ->
  TypeScript.__parseExpected__ rt (JS.JStr text) = JS.JStr text.
Proof.
  intros trimmed H1 H2 H3 H4. simpl in H2.
  unfold TypeScript.__parseExpected__. fold trimmed. rewrite H1, H3, H4.
  repeat (apply orb_false_iff in H2; destruct H2 as [E H2];
          rewrite E; clear E).
  reflexivity.
Qed.

(** C5 does not hold of the Python runner: on the expected text
    [{"__type__":"tuple","value":5}], which [json.loads] decodes,
    [convert_expected] iterates over the number 5 and raises a
    [TypeError]; the [except] clause around it names [JSONDecodeError]
    and [ValueError] only, and [parse_expected_value] raises. *)
Theorem parse_raises_on_malformed_marker (rt : Runtime) :
  json_loads rt Examples.malformed_marker = Ok (marked "tuple" (PInt 5)) ->
  parse_expected_value rt (PStr Examples.malformed_marker)
  = Raise {| exc_name := "TypeError";
             exc_str := error_text rt "TypeError" (PInt 5);
             exc_bases := ["TypeError"; "Exception"; "BaseException"] |}.
Proof.
  intros H. unfold parse_expected_value.
  change (strip Examples.malformed_marker) with Examples.malformed_marker.
  rewrite H. reflexivity.
Qed.

Lemma parse_raises_on_malformed_marker_witness :
  json_loads Examples.example_runtime Examples.malformed_marker
  = Ok (marked "tuple" (PInt 5)) /\
  parse_expected_value Examples.example_runtime
    (PStr Examples.malformed_marker)
  = Raise {| exc_name := "TypeError"; exc_str := "";
             exc_bases := ["TypeError"; "Exception"; "BaseException"] |}.
Proof.
  split; [reflexivity |].
  exact (parse_raises_on_malformed_marker Examples.example_runtime eq_refl).
Defined.

(* ------------------------------------------------------------------ *)
(** * The rewriting of braces *)

Section CppScan.

Import JS Cpp Scanning.

Lemma escaped_app l r : forall i, (i <= List.length l)%nat ->
  escaped (l ++ r) i = escaped l i.
Proof.
  induction i as [| i IH]; intros Hi; [reflexivity |].
  simpl. rewrite IH by lia. rewrite app_nth1 by lia. reflexivity.
Qed.

Lemma inside_literal_app l r : forall i, (i <= List.length l)%nat ->
  inside_literal (l ++ r) i = inside_literal l i.
Proof.
  induction i as [| i IH]; intros Hi; [reflexivity |].
  simpl. rewrite IH, escaped_app by lia. rewrite app_nth1 by lia. reflexivity.
Qed.


Lemma nth_last A (l : list A) x d : nth (List.length l) (l ++ [x]) d = x.
Proof. rewrite app_nth2 by lia. now rewrite Nat.sub_diag. Qed.

Lemma bracket_other c :
  Ascii.eqb c "{" = false -> Ascii.eqb c "}" = false -> bracket c = c.
Proof. unfold bracket. intros -> ->. reflexivity. Qed.

Lemma scanned_step l st c : scanned l st -> scanned (l ++ [c]) (step st c).
Proof.
  intros (Hlen & Hesc & Hin & Hnth).
  assert (Hprev : forall out, List.length out = List.length l ->
            (forall i, (i < List.length l)%nat ->
               nth i out Ascii.zero = nth i (result st) Ascii.zero) ->
            forall x,
            x = (if escaped l (List.length l) || inside_literal l (List.length l)
                 then c else bracket c) ->
            forall i, (i < S (List.length l))%nat ->
              nth i (out ++ [x]) Ascii.zero =
              if escaped (l ++ [c]) i || inside_literal (l ++ [c]) i
              then nth i (l ++ [c]) Ascii.zero
              else bracket (nth i (l ++ [c]) Ascii.zero)).
  { intros out Ho Hout x Hx i Hi.
    rewrite escaped_app, inside_literal_app by lia.
    destruct (Nat.eq_dec i (List.length l)) as [-> | Hne].
    - rewrite <- Ho at 1. rewrite !nth_last. exact Hx.
    - rewrite !app_nth1 by lia. rewrite Hout by lia. apply Hnth. lia. }
  assert (E1 : escaped (l ++ [c]) (S (List.length l)) =
               Ascii.eqb c backslash && negb (escapeNext st)).
  { simpl. rewrite nth_last, escaped_app, <- Hesc by lia. reflexivity. }
  assert (E2 : inside_literal (l ++ [c]) (S (List.length l)) =
               xorb (inString st) (Ascii.eqb c quote && negb (escapeNext st))).
  { simpl. rewrite nth_last, escaped_app, inside_literal_app, <- Hesc, <- Hin
      by lia. reflexivity. }
  rewrite <- Hesc, <- Hin in Hprev.
  unfold scanned. rewrite (length_app l [c]). simpl List.length.
  rewrite Nat.add_1_r, E1, E2. clear E1 E2.
  assert (Hout : List.length (result st ++ [c]) = S (List.length l))
    by (rewrite length_app, Hlen; simpl; lia).
  assert (Hb : List.length (result st ++ [bracket c]) = S (List.length l))
    by (rewrite length_app, Hlen; simpl; lia).
  assert (Es :
    (if Ascii.eqb c "{"
     then {| result := result st ++ ["["%char]; inString := inString st;
             escapeNext := escapeNext st |}
     else if Ascii.eqb c "}"
     then {| result := result st ++ ["]"%char]; inString := inString st;
             escapeNext := escapeNext st |}
     else {| result := result st ++ [c]; inString := inString st;
             escapeNext := escapeNext st |})
    = {| result := result st ++ [bracket c]; inString := inString st;
         escapeNext := escapeNext st |}).
  { unfold bracket. destruct (Ascii.eqb c "{");
      [| destruct (Ascii.eqb c "}")]; reflexivity. }
  unfold step. rewrite Es. clear Es.
  destruct (escapeNext st) eqn:Ee;
    [| destruct (Ascii.eqb c backslash) eqn:Eb;
       [apply Ascii.eqb_eq in Eb; subst c
       | destruct (Ascii.eqb c quote) eqn:Eq;
         [apply Ascii.eqb_eq in Eq; subst c
         | destruct (inString st) eqn:Ei ] ] ];
    simpl; rewrite ?Hout, ?Hb, ?andb_false_r, ?xorb_false_r, ?xorb_true_r;
    repeat split; auto; apply Hprev; auto;
    destruct (inString st); reflexivity.
Qed.

Lemma scanned_all l : scanned l (fold_left step l start).
Proof.
  induction l as [| c l IH] using rev_ind.
  - repeat split. intros i Hi. simpl in Hi. lia.
  - rewrite fold_left_app. simpl. now apply scanned_step.
Qed.

Lemma chars_of_chars l : Text.chars (Text.of_chars l) = l.
Proof. apply list_ascii_of_string_of_list_ascii. Qed.

End CppScan.

(** C9.  For a text that, once trimmed, begins with an opening brace and
    ends with a closing one, the rewritten text has the same length and,
    at every position, the character of the trimmed text, except that a
    brace standing outside the double-quoted literals (and not escaped by
    a backslash) is replaced by the square bracket of the same side: the
    characters inside a literal, escaped ones included, are copied as they
    are.  When [JSON.parse] refuses the rewritten text the text given is
    returned as it was, untrimmed; otherwise the parsed value is. *)
Theorem convertCppToJson_rewrites_outside_literals
        (JSON_parse : string -> option JS.JsVal) (text : string) :
  Text.starts_with "{" (JS.trim text) = true ->
  Text.ends_with "}" (JS.trim text) = true ->
  let l := Text.chars (JS.trim text) in
  let out := Text.chars (Cpp.rewrite (JS.trim text)) in
  List.length out = List.length l /\
  (forall i, (i < List.length l)%nat ->
     nth i out Ascii.zero =
     if Cpp.escaped l i || Cpp.inside_literal l i then nth i l Ascii.zero
     else Cpp.bracket (nth i l Ascii.zero)) /\
  (JSON_parse (Cpp.rewrite (JS.trim text)) = None ->
   Cpp.convertCppToJson JSON_parse (JS.JStr text) = JS.JStr text) /\
  (forall parsed, JSON_parse (Cpp.rewrite (JS.trim text)) = Some parsed ->
   Cpp.convertCppToJson JSON_parse (JS.JStr text) = parsed).
Proof.
  intros Hs He l out.
  destruct (scanned_all l) as (Hlen & _ & _ & Hnth).
  assert (Eo : out = Cpp.result (fold_left Cpp.step l Cpp.start))
    by (unfold out, Cpp.rewrite; now rewrite chars_of_chars).
  rewrite Eo.
  split; [exact Hlen |]. split; [exact Hnth |].
  unfold Cpp.convertCppToJson. rewrite Hs, He. simpl.
  split; [intros -> | intros parsed ->]; reflexivity.
Qed.

Lemma convertCppToJson_rewrites_outside_literals_witness :
  let text := (" " ++ Examples.braces_text ++ " ")%string in
  Text.starts_with "{" (JS.trim text) = true /\
  Text.ends_with "}" (JS.trim text) = true /\
  Cpp.rewrite (JS.trim text) = ("[1," ++ Text.quoted "{" ++ "]")%string /\
  Cpp.convertCppToJson (fun _ => None) (JS.JStr text) = JS.JStr text.
Proof.
  intros text. repeat (split; [reflexivity |]).
  destruct (convertCppToJson_rewrites_outside_literals (fun _ => None) text
              eq_refl eq_refl) as (_ & _ & H & _).
  exact (H eq_refl).
Defined.

(* ------------------------------------------------------------------ *)
(** * Further properties of the Python runner *)

Section PythonValues.

Import Shapes.

(** X1.  [deep_equals] accepts two values only if they have the same
    exact type: besides [int] against [float], [bool] against [int] and
    [list] against [tuple], a [set] never equals a [frozenset], a [dict]
    never a [Counter], an [OrderedDict] or a [defaultdict], and a [deque]
    never a [list]. *)
Theorem deep_equals_same_type (a b : PyVal) :
  deep_equals a b = true -> type a = type b.
Proof.
  destruct a, b; try (simpl; discriminate); try reflexivity;
    try (destruct c; simpl; discriminate).
  destruct c, c0; simpl; try discriminate; reflexivity.
Qed.

Lemma deep_equals_same_type_witness :
  let a := PDict Counter [(PStr "a", PInt 1)] in
  let b := PDict Counter [(PStr "a", PInt 1)] in
  deep_equals a b = true /\ type a = type b.
Proof.
  intros a b. split; [reflexivity |].
  apply (deep_equals_same_type a b). reflexivity.
Defined.

(** X2.  [deep_equals] accepts every well-formed value against an equal
    copy of itself, NaN included where it stands outside a set, a
    frozenset and a deque. *)
Theorem deep_equals_accepts_equal_copy (v : PyVal) :
  well_formed v = true -> deep_equals v v = true.
Proof. intros H. exact (deep_equals_alike (alike_refl v) H). Qed.

Lemma deep_equals_accepts_equal_copy_witness :
  let v := PTuple [PFloat nan; PSet [PInt 1; PStr "a"];
                   PDict OrderedDict [(PStr "k", PList [PNone])]] in
  well_formed v = true /\ deep_equals v v = true.
Proof.
  intros v. split; [reflexivity |].
  apply (deep_equals_accepts_equal_copy v). reflexivity.
Defined.

(** ** Dictionaries whatever the order of their items *)

Lemma text_keys_spec items : forall seen,
  text_keys items seen = true <->
  Forall (fun kv => exists s, fst kv = PStr s /\ string_in s seen = false) items
  /\ NoDup (dict_keys items).
Proof.
  induction items as [| [k v] items IH]; intros seen; simpl.
  - split; [intros _; split; constructor | reflexivity].
  - split.
    + intros H. split.
      * apply Forall_forall. intros [k' v'] Hin.
        destruct (text_keys_fresh ((k, v) :: items) seen k' v' H Hin)
          as (s & -> & Hs).
        exists s. split; [reflexivity | exact Hs].
      * exact (text_keys_NoDup ((k, v) :: items) seen H).
    + intros [HF HN]. inversion HF as [| ? ? (s & Es & Hs) HF']; subst.
      simpl in Es. subst k. inversion HN as [| ? ? Hnot HN']; subst.
      rewrite Hs. simpl. apply IH. split; [| exact HN'].
      apply Forall_forall. intros [k' v'] Hin.
      rewrite Forall_forall in HF'. destruct (HF' _ Hin) as (t & Et & Ht).
      simpl in Et. subst k'. exists t. split; [reflexivity |].
      simpl. rewrite Ht, orb_false_r.
      destruct (String.eqb t s) eqn:E; [| reflexivity].
      apply String.eqb_eq in E. subst t. exfalso. apply Hnot.
      unfold dict_keys. apply in_map_iff. exists (PStr s, v'). auto.
Qed.

Lemma text_keys_perm xs ys seen :
  Permutation xs ys -> text_keys xs seen = true -> text_keys ys seen = true.
Proof.
  intros Hp H. apply text_keys_spec in H. destruct H as [HF HN].
  apply text_keys_spec. split.
  - exact (Forall_perm Hp HF).
  - apply (Permutation_NoDup (l := dict_keys xs)); [| exact HN].
    unfold dict_keys. now apply Permutation_map.
Qed.

(** X3.  [deep_equals] compares two dictionaries of one class whatever
    the order of their items: a dictionary with text keys and well-formed
    values equals every dictionary that holds the same items in another
    order, two [OrderedDict]s included. *)
Theorem deep_equals_ignores_item_order (c : dict_class)
        (xs ys : list (PyVal * PyVal)) :
  Permutation xs ys -> well_formed (PDict c xs) = true ->
  deep_equals (PDict c xs) (PDict c ys) = true.
Proof.
  intros Hp Hw. simpl in Hw. apply andb_true_iff in Hw. destruct Hw as [Ht Hv].
  pose proof (text_keys_perm [] Hp Ht) as Hty.
  assert (Hset : set_eq py_eq (dict_keys xs) (dict_keys ys) = true).
  { unfold set_eq. apply andb_true_iff. split.
    - apply Nat.eqb_eq. unfold dict_keys. rewrite !length_map.
      now apply Permutation_length.
    - apply all_member_true. intros k Hk. exists k. split.
      + unfold dict_keys in *. eapply Permutation_in; [| exact Hk].
        now apply Permutation_map.
      + destruct (text_keys_are_text _ _ k Ht Hk) as (s & ->).
        simpl. apply String.eqb_refl. }
  assert (Hitems : items_agree py_eq deep_equals xs ys = true).
  { apply items_agree_sub; [exact Hty | |].
    - intros kv Hin. eapply Permutation_in; eauto.
    - apply Forall_forall. intros kv Hin.
      apply deep_equals_alike; [apply alike_refl |].
      rewrite forallb_forall in Hv. now apply Hv. }
  destruct c; simpl; rewrite Hset, Hitems; reflexivity.
Qed.

Lemma deep_equals_ignores_item_order_witness :
  let xs := [(PStr "a", PInt 1); (PStr "b", PInt 2)] in
  let ys := [(PStr "b", PInt 2); (PStr "a", PInt 1)] in
  Permutation xs ys /\ well_formed (PDict OrderedDict xs) = true /\
  deep_equals (PDict OrderedDict xs) (PDict OrderedDict ys) = true /\
  py_eq (PDict OrderedDict xs) (PDict OrderedDict ys) = false.
Proof.
  intros xs ys.
  assert (Hp : Permutation xs ys) by apply perm_swap.
  split; [exact Hp |]. split; [reflexivity |]. split; [| reflexivity].
  apply (deep_equals_ignores_item_order OrderedDict Hp). reflexivity.
Defined.

(** ** What [serialize] returns *)

Section Ready.

Variable rt : Runtime.

Lemma dict_set_ready k v acc :
  ready_item (k, v) = true -> forallb ready_item acc = true ->
  forallb ready_item (dict_set k v acc) = true.
Proof.
  intros Hkv. induction acc as [| [k' v'] acc IH]; simpl; intros Ha.
  - now rewrite Hkv.
  - apply andb_true_iff in Ha. destruct Ha as [Hk' Hr].
    destruct (py_eq k k'); simpl.
    + rewrite Hr, andb_true_r. unfold ready_item in *. simpl in *.
      apply andb_true_iff in Hkv, Hk'. apply andb_true_iff. tauto.
    + rewrite Hk'. simpl. now apply IH.
Qed.

Lemma dict_of_ready items :
  forallb ready_item items = true -> forallb ready_item (dict_of items) = true.
Proof.
  unfold dict_of. assert (G : forall acc, forallb ready_item acc = true ->
    forallb ready_item items = true ->
    forallb ready_item
      (fold_left (fun d kv => dict_set (fst kv) (snd kv) d) items acc) = true).
  { induction items as [| [k v] items IH]; simpl; intros acc Ha Hi; [exact Ha |].
    apply andb_true_iff in Hi. destruct Hi as [Hkv Hi].
    apply IH; [| exact Hi]. now apply dict_set_ready. }
  now apply G.
Qed.

Lemma items_ready items : forall kvs,
  Forall (fun kv => forall w, serialize rt (snd kv) = Ok w ->
                              json_ready w = true) items ->
  mapM (serialize_item rt) items = Ok kvs ->
  forallb ready_item kvs = true.
Proof.
  induction items as [| [k v] items IH]; intros kvs H E; simpl in E.
  - inversion E. reflexivity.
  - inversion H as [| ? ? Hv Hr]; subst. simpl in Hv.
    destruct (py_str rt k) as [key |]; simpl in E; [| discriminate].
    destruct (serialize rt v) as [w |] eqn:Ev; simpl in E; [| discriminate].
    destruct (mapM (serialize_item rt) items) as [kvs' |] eqn:El;
      [| discriminate].
    inversion E; subst. simpl. rewrite (IH _ Hr eq_refl), andb_true_r.
    unfold ready_item. simpl. now apply Hv.
Qed.

Lemma map_ready l : forall ws,
  Forall (fun v => forall w, serialize rt v = Ok w -> json_ready w = true) l ->
  mapM (serialize rt) l = Ok ws ->
  forallb json_ready ws = true.
Proof.
  intros ws H E. apply mapM_Forall2 in E. revert H.
  induction E as [| v w l ws Hw E IH]; intros H; [reflexivity |].
  inversion H as [| ? ? Hv Hr]; subst. simpl.
  now rewrite (Hv w Hw), (IH Hr).
Qed.

Lemma serialize_ready v : forall w,
  serialize rt v = Ok w -> json_ready w = true.
Proof.
  induction v as [| b | n | f | s | l IH | l IH | c items IH | l IH | l IH | l IH]
    using PyVal_nested_ind; intros w E;
    [ | | | | | | | rewrite serialize_dict in E; unfold serialized_dict in E
      | | | ]; simpl in E.
  - inversion E. reflexivity.
  - inversion E. reflexivity.
  - inversion E. reflexivity.
  - destruct (is_nan f) eqn:En; [inversion E; reflexivity |].
    destruct (is_inf f) eqn:Ei; inversion E; [reflexivity |].
    simpl. now rewrite En, Ei.
  - inversion E. reflexivity.
  - destruct (mapM (serialize rt) l) as [xs |] eqn:Ex; inversion E.
    simpl. exact (map_ready IH Ex).
  - destruct (mapM (serialize rt) l) as [xs |] eqn:Ex; inversion E.
    simpl. rewrite andb_true_r. exact (map_ready IH Ex).
  - destruct (mapM (serialize_item rt) items) as [kvs |] eqn:Ek; inversion E.
    assert (Hi : Forall (fun kv => forall w, serialize rt (snd kv) = Ok w ->
                                             json_ready w = true) items).
    { eapply Forall_impl; [| exact IH]. intros kv [_ H]. exact H. }
    pose proof (dict_of_ready _ (items_ready Hi Ek)) as R.
    simpl. fold ready_item. now rewrite R.
  - destruct (mapM (serialize rt) l) as [xs |] eqn:Ex; simpl in E;
      [| discriminate].
    destruct (sorted rt xs) as [ordered |] eqn:Eo; inversion E.
    simpl. rewrite andb_true_r.
    rewrite (forallb_perm _ (sorted_perm _ _ Eo)). exact (map_ready IH Ex).
  - destruct (mapM (serialize rt) l) as [xs |] eqn:Ex; simpl in E;
      [| discriminate].
    destruct (sorted rt xs) as [ordered |] eqn:Eo; inversion E.
    simpl. rewrite andb_true_r.
    rewrite (forallb_perm _ (sorted_perm _ _ Eo)). exact (map_ready IH Ex).
  - destruct (mapM (serialize rt) l) as [xs |] eqn:Ex; inversion E.
    simpl. rewrite andb_true_r. exact (map_ready IH Ex).
Qed.

(** ** Expected values without type markers *)

Lemma convert_plain_dict c fields :
  dict_has py_eq key_type fields && dict_has py_eq key_value fields = false ->
  convert_expected rt (PDict c fields) =
  bind (convert_items rt fields) (fun kvs => Ok (PDict Dict kvs)).
Proof.
  intros H. simpl. rewrite H. unfold convert_items.
  destruct (mapM _ fields); reflexivity.
Qed.

Lemma mapM_unchanged l :
  Forall (fun v => convert_expected rt v = Ok v) l ->
  mapM (convert_expected rt) l = Ok l.
Proof.
  induction 1 as [| v l Hv H IH]; simpl; [reflexivity |]. now rewrite Hv, IH.
Qed.

Lemma items_unchanged items :
  Forall (fun kv => convert_expected rt (snd kv) = Ok (snd kv)) items ->
  mapM (fun kv : PyVal * PyVal =>
          bind (convert_expected rt (snd kv)) (fun y => Ok (fst kv, y))) items
  = Ok items.
Proof.
  induction 1 as [| [k v] items Hv H IH]; simpl; [reflexivity |].
  simpl in Hv. rewrite Hv. simpl. now rewrite IH.
Qed.

Lemma convert_unmarked v : unmarked v = true -> convert_expected rt v = Ok v.
Proof.
  induction v as [| b | n | f | s | l IH | l IH | c items IH | l IH | l IH | l IH]
    using PyVal_nested_ind; intros Hu; try reflexivity; try discriminate.
  - simpl in Hu. simpl.
    rewrite mapM_unchanged; [reflexivity |].
    apply forallb_Forall in Hu.
    eapply Forall_impl2; [| exact IH | exact Hu]. auto.
  - destruct c; try discriminate. simpl in Hu.
    apply andb_true_iff in Hu. destruct Hu as [Hu Hv].
    apply andb_true_iff in Hu. destruct Hu as [Ht Hm].
    apply negb_true_iff in Hm.
    rewrite (convert_plain_dict Dict _ Hm). unfold convert_items.
    rewrite items_unchanged.
    + simpl. now rewrite (dict_of_text_keys _ Ht).
    + apply forallb_Forall in Hv.
      eapply Forall_impl2; [| exact IH | exact Hv].
      intros kv [_ H] Hk. auto.
Qed.

End Ready.

(** X4.  Whenever [serialize] returns, the value it returns is data of
    strict JSON: [None], a [bool], an [int], a finite [float], a [str], a
    list, or a plain [dict] whose keys are texts, and so at every depth;
    never a tuple, a set, a frozenset, a deque, a [Counter], an
    [OrderedDict], a [defaultdict], a NaN or an infinity.  ([serialize]
    raises where [str] must write an int of more digits than the
    interpreter allows.) *)
Theorem serialize_returns_json (rt : Runtime) (v w : PyVal) :
  serialize rt v = Ok w -> json_ready w = true.
Proof. apply serialize_ready. Qed.

Lemma serialize_returns_json_witness :
  let v := PDict Counter [(PInt 1, PSet [PFloat nan; PTuple [PInt 2]])] in
  exists w, serialize Examples.example_runtime v = Ok w /\
            json_ready w = true.
Proof.
  intros v.
  destruct (serialize Examples.example_runtime v) as [w | e] eqn:Es;
    [| vm_compute in Es; discriminate].
  exists w. split; [reflexivity |].
  exact (serialize_returns_json Examples.example_runtime v Es).
Defined.

(** X5.  [convert_expected] returns a decoded JSON value as it is when no
    dictionary in it holds both keys [__type__] and [value]; hence
    [parse_expected_value] reads an expected text that [json.loads]
    decodes to such a value as that value. *)
Theorem convert_expected_keeps_plain_json (rt : Runtime) (v : PyVal) :
  unmarked v = true ->
  convert_expected rt v = Ok v /\
  forall text, json_loads rt (strip text) = Ok v ->
               parse_expected_value rt (PStr text) = Ok v.
Proof.
  intros Hu. pose proof (convert_unmarked rt v Hu) as E.
  split; [exact E |]. intros text Hj.
  unfold parse_expected_value. rewrite Hj. simpl. rewrite E. reflexivity.
Qed.

Lemma convert_expected_keeps_plain_json_witness :
  let v := PList [PNone; PBool true; PInt 3; PFloat one; PStr "a";
                  PDict Dict [(PStr "__type__", PStr "set");
                              (PStr "k", PList [PInt 1])]] in
  unmarked v = true /\ convert_expected Examples.example_runtime v = Ok v.
Proof.
  intros v. split; [reflexivity |].
  apply (convert_expected_keeps_plain_json Examples.example_runtime v).
  reflexivity.
Defined.

End PythonValues.

(* ------------------------------------------------------------------ *)
(** * Further properties of the TypeScript runner *)

Section TypeScriptValues.

Import JS TypeScript Shapes.

(** ** [__serialize__] *)

(** The loop of [__serialize__] over the properties of an object. *)
Lemma serialize_object fields :
  __serialize__ (JObj fields)
  = JObj (fold_left (fun result kv =>
                       set_property (fst kv) (__serialize__ (snd kv)) result)
                    fields []).
Proof.
  simpl. f_equal. generalize (@nil (string * JsVal)).
  induction fields as [| [k v] fields IH]; intros acc; [reflexivity |].
  simpl. apply IH.
Qed.

Lemma assign_keys k v acc :
  In k (map fst acc) -> map fst (assign k v acc) = map fst acc.
Proof.
  induction acc as [| [k' v'] acc IH]; simpl; [tauto |].
  destruct (String.eqb_spec k k') as [-> | Hne]; [reflexivity |].
  intros [E | Hin]; [congruence |]. simpl. now rewrite IH.
Qed.

Lemma assign_fresh k v acc :
  ~ In k (map fst acc) -> assign k v acc = (acc ++ [(k, v)])%list.
Proof.
  induction acc as [| [k' v'] acc IH]; simpl; intros Hn; [reflexivity |].
  destruct (String.eqb_spec k k') as [-> | Hne]; [tauto |].
  rewrite IH by tauto. reflexivity.
Qed.

Lemma assign_In k v acc k0 v0 :
  In (k0, v0) (assign k v acc) -> (k0 = k /\ v0 = v) \/ In (k0, v0) acc.
Proof.
  induction acc as [| [k' v'] acc IH]; simpl.
  - intros [E | []]. inversion E. auto.
  - destruct (String.eqb_spec k k') as [-> | Hne]; simpl.
    + intros [E | Hin]; [inversion E; auto | auto].
    + intros [E | Hin]; [auto |]. destruct (IH Hin); auto.
Qed.

Lemma assign_NoDup k v acc :
  NoDup (map fst acc) -> NoDup (map fst (assign k v acc)).
Proof.
  intros Hn. destruct (in_dec string_dec k (map fst acc)) as [Hin | Hin].
  - now rewrite assign_keys.
  - rewrite assign_fresh, map_app by exact Hin. simpl.
    apply NoDup_app; [exact Hn | repeat constructor; intros [] | ].
    intros x Hx [<- | []]. contradiction.
Qed.

Lemma set_property_settled k v acc :
  __serialize__ v = v -> settled acc -> settled (set_property k v acc).
Proof.
  intros Hv [Hn Hs]. unfold set_property.
  destruct (String.eqb_spec k "__proto__") as [-> | Hne]; [now split |].
  split; [now apply assign_NoDup |].
  intros k0 v0 Hin. destruct (assign_In _ _ _ _ _ Hin) as [[-> ->] | Hold];
    [now split | now apply Hs].
Qed.

Lemma fold_settled fields : forall acc,
  Forall (fun kv => __serialize__ (__serialize__ (snd kv))
                    = __serialize__ (snd kv)) fields ->
  settled acc ->
  settled (fold_left (fun result kv =>
                        set_property (fst kv) (__serialize__ (snd kv)) result)
                     fields acc).
Proof.
  induction fields as [| [k v] fields IH]; intros acc H Ha; [exact Ha |].
  inversion H as [| ? ? Hv Hr]; subst. simpl in *.
  apply IH; [exact Hr |]. now apply set_property_settled.
Qed.

(** Settled properties go through the loop unchanged. *)
Lemma fold_fixed fields : forall acc,
  settled (acc ++ fields)%list ->
  fold_left (fun result kv =>
               set_property (fst kv) (__serialize__ (snd kv)) result)
            fields acc
  = (acc ++ fields)%list.
Proof.
  induction fields as [| [k v] fields IH]; intros acc Hs; simpl.
  - now rewrite app_nil_r.
  - destruct Hs as [Hn Hv].
    destruct (Hv k v) as [Hk Ev]; [apply in_or_app; right; now left |].
    rewrite Ev. unfold set_property.
    destruct (String.eqb_spec k "__proto__") as [E | _]; [contradiction |].
    rewrite assign_fresh.
    + rewrite IH; [now rewrite <- app_assoc |].
      rewrite <- app_assoc. now split.
    + rewrite map_app in Hn. simpl in Hn.
      apply NoDup_remove_2 in Hn. intros Hin. apply Hn.
      apply in_or_app. now left.
Qed.

Lemma serialize_again v : __serialize__ (__serialize__ v) = __serialize__ v.
Proof.
  induction v as [| | b | f | s | l IH | fields IH] using JsVal_nested_ind;
    try reflexivity.
  - simpl. destruct (is_nan f) eqn:En; [reflexivity |].
    destruct (is_inf f) eqn:Ei; simpl; [reflexivity |].
    now rewrite En, Ei.
  - simpl. f_equal. rewrite map_map.
    induction IH as [| v l Hv H IHl]; simpl; [reflexivity |].
    now rewrite Hv, IHl.
  - rewrite serialize_object.
    set (result := fold_left _ fields []).
    rewrite serialize_object. f_equal.
    apply (fold_fixed result []). simpl.
    apply fold_settled; [exact IH |].
    split; [constructor | intros k v []].
Qed.

Lemma set_property_safe k v acc :
  json_safe v = true ->
  forallb (fun kv => json_safe (snd kv)) acc = true ->
  forallb (fun kv => json_safe (snd kv)) (set_property k v acc) = true.
Proof.
  intros Hv Ha. unfold set_property.
  destruct (String.eqb k "__proto__"); [exact Ha |].
  induction acc as [| [k' v'] acc IH]; simpl in *.
  - now rewrite Hv.
  - apply andb_true_iff in Ha. destruct Ha as [Hv' Hr].
    destruct (String.eqb k k'); simpl.
    + now rewrite Hv, Hr.
    + now rewrite Hv', IH.
Qed.

Lemma serialize_safe v : json_safe (__serialize__ v) = true.
Proof.
  induction v as [| | b | f | s | l IH | fields IH] using JsVal_nested_ind;
    try reflexivity.
  - simpl. destruct (is_nan f) eqn:En; [reflexivity |].
    destruct (is_inf f) eqn:Ei; simpl; [reflexivity |].
    now rewrite En, Ei.
  - simpl. induction IH as [| v l Hv H IHl]; simpl; [reflexivity |].
    now rewrite Hv, IHl.
  - rewrite serialize_object. simpl.
    assert (G : forall acc,
               forallb (fun kv => json_safe (snd kv)) acc = true ->
               forallb (fun kv => json_safe (snd kv))
                 (fold_left (fun result kv =>
                    set_property (fst kv) (__serialize__ (snd kv)) result)
                    fields acc) = true).
    { induction IH as [| [k v] l Hv H IHl]; intros acc Ha; [exact Ha |].
      simpl. apply IHl. now apply set_property_safe. }
    now apply G.
Qed.

(** X6.  [__serialize__] is idempotent: serializing a serialized value
    changes nothing.  (A property named [__proto__] is lost the first
    time.) *)
Theorem ts_serialize_is_idempotent (v : JsVal) :
  __serialize__ (__serialize__ v) = __serialize__ v.
Proof. apply serialize_again. Qed.

(** X7.  The value [__serialize__] returns holds no [undefined], no NaN
    and no infinite number at any depth of its arrays and objects. *)
Theorem ts_serialize_leaves_no_sentinel (v : JsVal) :
  json_safe (__serialize__ v) = true.
Proof. apply serialize_safe. Qed.

(** An object that has a property of its own under the name
    [__proto__], as [JSON.parse] makes them, is serialized without
    it. *)
Lemma serialize_drops_proto :
  __serialize__ (JObj [("__proto__", JNum one); ("a", JNum nan)])
  = JObj [("a", JStr "NaN")].
Proof. reflexivity. Qed.

(** ** [__deepEquals__] on a value and its copy *)

Lemma every_index_refl cmp l :
  Forall (fun x => cmp x x = true) l -> every_index cmp l l = true.
Proof. induction 1 as [| x l Hx H IH]; simpl; [reflexivity |]. now rewrite Hx. Qed.

Lemma list_eqb_refl l : list_eqb l l = true.
Proof. induction l; simpl; [reflexivity |]. now rewrite String.eqb_refl. Qed.

Lemma get_field_first k v fields :
  no_repeat (map fst fields) = true -> In (k, v) fields ->
  get_field k fields = v.
Proof.
  induction fields as [| [k' v'] r IH]; simpl; intros Hn Hin; [destruct Hin |].
  apply andb_true_iff in Hn. destruct Hn as [Hk Hr].
  destruct Hin as [E | Hin].
  - inversion E; subst. now rewrite String.eqb_refl.
  - destruct (String.eqb k k') eqn:E; [| now apply IH].
    apply String.eqb_eq in E. subst k'. exfalso.
    apply negb_true_iff in Hk.
    assert (X : existsb (String.eqb k) (map fst r) = true).
    { apply existsb_exists. exists k. split; [| apply String.eqb_refl].
      apply in_map_iff. exists (k, v). auto. }
    congruence.
Qed.

Lemma every_field_true cmp ea b :
  every_field cmp ea b = true <->
  forall k v, In (k, v) ea -> cmp v (get b k) = true.
Proof.
  induction ea as [| [k v] ea IH]; simpl.
  - split; [intros _ k v [] | reflexivity].
  - rewrite andb_true_iff, IH. split.
    + intros [Hv H] k' v' [E | Hin]; [inversion E; subst; exact Hv | auto].
    + intros H. split; [apply H; now left |]. intros k' v' Hin. apply H. now right.
Qed.

Lemma deepEquals_refl v : proper v = true -> __deepEquals__ v v = true.
Proof.
  induction v as [| | b | f | s | l IH | fields IH] using JsVal_nested_ind;
    intros Hp.
  - reflexivity.
  - reflexivity.
  - simpl. now rewrite Bool.eqb_reflx.
  - simpl. destruct (is_nan f) eqn:En.
    + destruct (Double.eqb f f); reflexivity.
    + now rewrite double_eqb_refl.
  - simpl. now rewrite String.eqb_refl.
  - simpl. rewrite Nat.eqb_refl. simpl. apply every_index_refl.
    simpl in Hp. apply forallb_Forall in Hp.
    eapply Forall_impl2; [| exact IH | exact Hp]. auto.
  - simpl. rewrite Nat.eqb_refl, list_eqb_refl. simpl.
    simpl in Hp. apply andb_true_iff in Hp. destruct Hp as [Hn Hv].
    apply every_field_true. intros k v Hin.
    simpl get. rewrite (get_field_first _ _ _ Hn Hin).
    rewrite Forall_forall in IH. rewrite forallb_forall in Hv.
    apply (IH (k, v) Hin). exact (Hv (k, v) Hin).
Qed.

(** X8.  [__deepEquals__] accepts every value against a copy of itself,
    NaN and [undefined] included, at any depth. *)
Theorem deepEquals_accepts_a_copy (v : JsVal) :
  proper v = true -> __deepEquals__ v v = true.
Proof. apply deepEquals_refl. Qed.

Lemma deepEquals_accepts_a_copy_witness :
  let v := JArr [JNum nan; JUndefined;
                 JObj [("a", JNull); ("b", JArr [JStr "x"; JBool true])]] in
  proper v = true /\ __deepEquals__ v v = true.
Proof.
  intros v. split; [reflexivity |].
  apply (deepEquals_accepts_a_copy v). reflexivity.
Defined.

(** ** The names of the indices *)

Lemma to_int_not_nil z :
  Z.to_int z <> Decimal.Pos Decimal.Nil /\ Z.to_int z <> Decimal.Neg Decimal.Nil.
Proof.
  split; intros E; pose proof (DecimalZ.of_to z) as H; rewrite E in H;
    simpl in H; subst z; discriminate.
Qed.

Lemma decimal_inj a b : Text.decimal a = Text.decimal b -> a = b.
Proof.
  unfold Text.decimal. intros E.
  assert (H : Some (Z.to_int a) = Some (Z.to_int b)).
  { rewrite <- (NilZero.isi (Z.to_int a)) by apply to_int_not_nil.
    rewrite <- (NilZero.isi (Z.to_int b)) by apply to_int_not_nil.
    now rewrite E. }
  inversion H as [H']. apply (f_equal Z.of_int) in H'.
  now rewrite !DecimalZ.of_to in H'.
Qed.

Lemma index_name_inj : Injective index_name.
Proof. intros i j E. apply decimal_inj in E. lia. Qed.

Lemma indexed_keys l : forall n,
  map fst (indexed n l) = map index_name (seq n (List.length l)).
Proof.
  induction l as [| x l IH]; intros n; simpl; [reflexivity |]. now rewrite IH.
Qed.

Lemma no_repeat_NoDup l : no_repeat l = true <-> NoDup l.
Proof.
  induction l as [| x l IH]; simpl.
  - split; [constructor | reflexivity].
  - rewrite andb_true_iff, negb_true_iff, IH. split.
    + intros [Hx Hl]. constructor; [| exact Hl]. intros Hin.
      assert (X : existsb (String.eqb x) l = true).
      { apply existsb_exists. exists x. split; [exact Hin | apply String.eqb_refl]. }
      congruence.
    + intros H. inversion H as [| ? ? Hx Hl]; subst. split; [| exact Hl].
      destruct (existsb (String.eqb x) l) eqn:E; [| reflexivity].
      apply existsb_exists in E. destruct E as (y & Hy & E).
      apply String.eqb_eq in E. subst y. contradiction.
Qed.

Lemma indexed_NoDup l n : NoDup (map fst (indexed n l)).
Proof.
  rewrite indexed_keys. apply Injective_map_NoDup;
    [exact index_name_inj | apply seq_NoDup].
Qed.

Lemma entries_NoDup v : proper v = true -> NoDup (map fst (entries v)).
Proof.
  destruct v; simpl; intros H; try constructor.
  - apply indexed_NoDup.
  - apply andb_true_iff in H. now apply no_repeat_NoDup.
Qed.

Lemma indexed_values l : forall n k v, In (k, v) (indexed n l) -> In v l.
Proof.
  induction l as [| x l IH]; intros n k v; simpl; [tauto |].
  intros [E | H]; [inversion E; auto | right; eauto].
Qed.

Lemma entries_proper v k w :
  proper v = true -> In (k, w) (entries v) -> proper w = true.
Proof.
  destruct v; simpl; intros H Hin; try contradiction.
  - apply indexed_values in Hin. rewrite forallb_forall in H. auto.
  - apply andb_true_iff in H. destruct H as [_ H].
    rewrite forallb_forall in H. exact (H (k, w) Hin).
Qed.

(** ** Sorted keys *)

Lemma insert_key_perm k l : Permutation (insert_key k l) (k :: l).
Proof.
  induction l as [| y l IH]; simpl; [reflexivity |].
  destruct (String.ltb y k); [| reflexivity].
  rewrite IH. apply perm_swap.
Qed.

Lemma sort_keys_perm l : Permutation (sort_keys l) l.
Proof.
  induction l as [| x l IH]; simpl; [reflexivity |].
  rewrite insert_key_perm. now constructor.
Qed.

Lemma list_eqb_eq l : forall m, list_eqb l m = true <-> l = m.
Proof.
  induction l as [| x l IH]; intros [| y m]; simpl;
    try (split; [discriminate | discriminate]); [tauto |].
  rewrite andb_true_iff, String.eqb_eq, IH. split.
  - intros [-> ->]. reflexivity.
  - intros E. inversion E. auto.
Qed.

Lemma list_eqb_sym l m : list_eqb l m = list_eqb m l.
Proof.
  destruct (list_eqb l m) eqn:E.
  - apply list_eqb_eq in E. subst. symmetry. apply list_eqb_refl.
  - destruct (list_eqb m l) eqn:E'; [| reflexivity].
    apply list_eqb_eq in E'. subst. now rewrite list_eqb_refl in E.
Qed.

(** ** The test of the properties, both ways *)

Lemma every_element_indexed cmp l b : forall n,
  every_element cmp n l b = every_field cmp (indexed n l) b.
Proof.
  induction l as [| x l IH]; intros n; simpl; [reflexivity |]. now rewrite IH.
Qed.

Lemma get_entries b k : get b k = get_field k (entries b).
Proof. destruct b; reflexivity. Qed.

Lemma keys_entries b : keys b = map fst (entries b).
Proof. destruct b; reflexivity. Qed.

Lemma every_field_swap cmp a b :
  NoDup (keys a) -> NoDup (keys b) -> Permutation (keys a) (keys b) ->
  (forall k v k' w, In (k, v) (entries a) -> In (k', w) (entries b) ->
                    cmp v w = cmp w v) ->
  every_field cmp (entries a) b = true ->
  every_field cmp (entries b) a = true.
Proof.
  intros Na Nb Hp Hs H. rewrite every_field_true in *.
  intros k w Hin.
  assert (Hk : In k (keys a)).
  { eapply Permutation_in; [symmetry; exact Hp |].
    rewrite keys_entries. apply in_map_iff. exists (k, w). auto. }
  rewrite keys_entries in Hk. apply in_map_iff in Hk.
  destruct Hk as ([k0 v] & Ek & Hv). simpl in Ek. subst k0.
  rewrite keys_entries in Na, Nb. apply no_repeat_NoDup in Na, Nb.
  rewrite get_entries, (get_field_first _ _ _ Na Hv).
  specialize (H k v Hv).
  rewrite get_entries, (get_field_first _ _ _ Nb Hin) in H.
  rewrite <- (Hs k v k w Hv Hin). exact H.
Qed.

Lemma every_field_sym cmp a b :
  NoDup (keys a) -> NoDup (keys b) -> Permutation (keys a) (keys b) ->
  (forall k v k' w, In (k, v) (entries a) -> In (k', w) (entries b) ->
                    cmp v w = cmp w v) ->
  every_field cmp (entries a) b = every_field cmp (entries b) a.
Proof.
  intros Na Nb Hp Hs. apply eq_true_iff_eq. split.
  - now apply every_field_swap.
  - apply every_field_swap; auto.
    + now symmetry.
    + intros k v k' w Hv Hw. symmetry. eapply Hs; eauto.
Qed.

Lemma every_index_sym cmp xs : forall ys,
  List.length xs = List.length ys ->
  Forall (fun x => forall y, In y ys -> cmp x y = cmp y x) xs ->
  every_index cmp xs ys = every_index cmp ys xs.
Proof.
  induction xs as [| x xs IH]; intros [| y ys] Hl HF; simpl in *;
    try discriminate; [reflexivity |].
  inversion HF as [| ? ? Hx HF']; subst.
  rewrite (Hx y (or_introl eq_refl)). f_equal.
  apply IH; [lia |].
  eapply Forall_impl; [| exact HF']. intros a Ha z Hz. apply Ha. now right.
Qed.

Lemma same_properties_sym a b :
  proper a = true -> proper b = true ->
  (forall k v k' w, In (k, v) (entries a) -> In (k', w) (entries b) ->
                    __deepEquals__ v w = __deepEquals__ w v) ->
  same_properties a b = same_properties b a.
Proof.
  intros Pa Pb Hs. unfold same_properties.
  rewrite (list_eqb_sym (sort_keys (keys b))).
  rewrite (Nat.eqb_sym (List.length (sort_keys (keys b)))).
  destruct (Nat.eqb _ _); simpl; [| reflexivity].
  destruct (list_eqb _ _) eqn:E; simpl; [| reflexivity].
  apply list_eqb_eq in E.
  apply every_field_sym; auto.
  - rewrite keys_entries. now apply entries_NoDup.
  - rewrite keys_entries. now apply entries_NoDup.
  - rewrite <- (sort_keys_perm (keys a)), <- (sort_keys_perm (keys b)).
    now rewrite E.
Qed.

Lemma strict_eq_sym a b : strict_eq a b = strict_eq b a.
Proof.
  destruct a, b; simpl; try reflexivity.
  - destruct b, b0; reflexivity.
  - apply eq_true_iff_eq. rewrite !double_eqb_spec. intuition congruence.
  - apply String.eqb_sym.
Qed.

(** [__deepEquals__] on an array and an object. *)
Lemma deepEquals_array_object l gs :
  __deepEquals__ (JArr l) (JObj gs) = same_properties (JArr l) (JObj gs).
Proof.
  unfold same_properties. simpl entries. rewrite <- every_element_indexed.
  reflexivity.
Qed.

Lemma deepEquals_sym a : forall b,
  proper a = true -> proper b = true -> __deepEquals__ a b = __deepEquals__ b a.
Proof.
  induction a as [| | x | f | s | l IH | fields IH] using JsVal_nested_ind;
    intros b Pa Pb.
  - destruct b; reflexivity.
  - destruct b; reflexivity.
  - destruct b as [| | y | | | |]; try reflexivity. destruct x, y; reflexivity.
  - destruct b as [| | y | g | t | m | gs]; try reflexivity.
    simpl. pose proof (strict_eq_sym (JNum g) (JNum f)) as E. simpl in E.
    rewrite E, (andb_comm (is_nan g)). reflexivity.
  - destruct b; try reflexivity. simpl. rewrite (String.eqb_sym s s0).
    destruct (String.eqb s0 s); reflexivity.
  - destruct b as [| | y | g | t | m | gs]; try reflexivity.
    + simpl. rewrite (Nat.eqb_sym (List.length m)).
      destruct (Nat.eqb (List.length l) (List.length m)) eqn:El; simpl;
        [| reflexivity].
      apply Nat.eqb_eq in El. apply every_index_sym; [exact El |].
      simpl in Pa, Pb. rewrite forallb_forall in Pa, Pb.
      rewrite Forall_forall in *. intros x Hx y Hy. apply IH; auto.
    + rewrite deepEquals_array_object.
      change (__deepEquals__ (JObj gs) (JArr l))
        with (same_properties (JObj gs) (JArr l)).
      apply same_properties_sym; auto.
      intros k v k' w Hv Hw. simpl in Hv. apply indexed_values in Hv.
      rewrite Forall_forall in IH. apply IH; auto.
      * simpl in Pa. rewrite forallb_forall in Pa. auto.
      * eapply entries_proper; eauto.
  - destruct b as [| | y | g | t | m | gs]; try reflexivity.
    + rewrite deepEquals_array_object.
      change (__deepEquals__ (JObj fields) (JArr m))
        with (same_properties (JObj fields) (JArr m)).
      apply same_properties_sym; auto.
      intros k v k' w Hv Hw. rewrite Forall_forall in IH.
      apply (IH (k, v) Hv); simpl;
        [ eapply entries_proper; [exact Pa | exact Hv]
        | eapply entries_proper; [exact Pb | exact Hw] ].
    + change (__deepEquals__ (JObj fields) (JObj gs))
        with (same_properties (JObj fields) (JObj gs)).
      change (__deepEquals__ (JObj gs) (JObj fields))
        with (same_properties (JObj gs) (JObj fields)).
      apply same_properties_sym; auto.
      intros k v k' w Hv Hw. rewrite Forall_forall in IH.
      apply (IH (k, v) Hv); simpl;
        [ eapply entries_proper; [exact Pa | exact Hv]
        | eapply entries_proper; [exact Pb | exact Hw] ].
Qed.

(** X9.  On values whose arrays have no holes, as the arrays are here,
    [__deepEquals__] is symmetric: the answer does not depend on which of
    the two values is the actual one and which the expected one. *)
Theorem deepEquals_is_symmetric (a b : JsVal) :
  proper a = true -> proper b = true ->
  __deepEquals__ a b = __deepEquals__ b a.
Proof. apply deepEquals_sym. Qed.

Lemma deepEquals_is_symmetric_witness :
  let a := JArr [JNum one; JObj [("k", JNum nan); ("j", JNull)]] in
  let b := JArr [JNum one; JObj [("j", JNull); ("k", JNum nan)]] in
  proper a = true /\ proper b = true /\
  __deepEquals__ a b = true /\ __deepEquals__ a b = __deepEquals__ b a.
Proof.
  intros a b. repeat (split; [reflexivity |]).
  apply (deepEquals_is_symmetric a b); reflexivity.
Defined.

(** X10.  [__deepEquals__] does not tell an array from the object whose
    properties are the array's indices: the array of the values [l]
    equals the object that holds each of them under its index, as the
    empty array equals the empty object. *)
Theorem array_equals_object_of_its_indices (l : list JsVal) :
  proper (JArr l) = true ->
  __deepEquals__ (JArr l) (JObj (indexed 0 l)) = true.
Proof.
  intros Hp. rewrite deepEquals_array_object. unfold same_properties.
  change (keys (JObj (indexed 0 l))) with (keys (JArr l)).
  rewrite Nat.eqb_refl, list_eqb_refl. simpl negb. cbv iota.
  apply every_field_true. intros k v Hin. simpl get. simpl in Hin.
  rewrite (get_field_first k v (indexed 0 l)); [| | exact Hin].
  - apply deepEquals_refl. apply indexed_values in Hin.
    simpl in Hp. rewrite forallb_forall in Hp. auto.
  - apply no_repeat_NoDup. apply indexed_NoDup.
Qed.

Lemma array_equals_object_of_its_indices_witness :
  let l := [JStr "a"; JNum one] in
  proper (JArr l) = true /\
  indexed 0 l = [("0", JStr "a"); ("1", JNum one)] /\
  __deepEquals__ (JArr l) (JObj [("0", JStr "a"); ("1", JNum one)]) = true.
Proof.
  intros l. repeat (split; [reflexivity |]).
  apply (array_equals_object_of_its_indices l). reflexivity.
Defined.

End TypeScriptValues.

(* ------------------------------------------------------------------ *)
(** * The generators' helpers *)

Section Escaping.

Import JS Generators Shapes Cpp.

(** ** Escaping in one pass *)

Lemma replace_all_flat c r l :
  replace_all c r l = flat_map (fun x => if Ascii.eqb x c then r else [x]) l.
Proof.
  induction l as [| x l IH]; simpl; [reflexivity |].
  rewrite IH. destruct (Ascii.eqb x c); reflexivity.
Qed.

Lemma flat_map_flat_map A B C (f : A -> list B) (g : B -> list C) l :
  flat_map g (flat_map f l) = flat_map (fun x => flat_map g (f x)) l.
Proof.
  induction l as [| x l IH]; simpl; [reflexivity |].
  now rewrite flat_map_app, IH.
Qed.

Lemma escapeC_chars s :
  Text.chars (escapeC s) = flat_map CRunner.written (Text.chars s).
Proof.
  unfold escapeC. rewrite chars_of_chars, !replace_all_flat.
  rewrite !flat_map_flat_map. apply flat_map_ext. intros c.
  unfold CRunner.written.
  destruct (Ascii.eqb_spec c Text.quote) as [-> | Hq]; [reflexivity |].
  destruct (Ascii.eqb_spec c Text.backslash) as [-> | Hb]; [reflexivity |].
  destruct (Ascii.eqb_spec c newline) as [-> | Hn]; [reflexivity |].
  destruct (Ascii.eqb_spec c carriage_return) as [-> | Hr]; [reflexivity |].
  destruct (Ascii.eqb_spec c tab) as [-> | Ht]; [reflexivity |].
  apply Ascii.eqb_neq in Hq, Hb, Hn, Hr, Ht.
  simpl. rewrite Hq. simpl. rewrite Hn. simpl. rewrite Hr. simpl. rewrite Ht.
  reflexivity.
Qed.

Lemma print_escaped_flat l :
  forallb (fun c => negb (Ascii.eqb c Ascii.zero)) l = true ->
  CRunner.print_escaped_string l = flat_map CRunner.written l.
Proof.
  induction l as [| c l IH]; simpl; intros H; [reflexivity |].
  apply andb_true_iff in H. destruct H as [Hc Hl].
  apply negb_true_iff in Hc. rewrite Hc, (IH Hl). reflexivity.
Qed.

(** X11.  On a text without the zero character, the five successive
    replacements of [escapeC] (as of [escapeCpp], [escapeCSharp] and
    [escapeJava]) produce what the C runner's one-pass
    [print_escaped_string] writes: no later replacement touches a
    backslash that an earlier one put in. *)
Theorem print_escaped_string_is_escapeC (s : string) :
  forallb (fun c => negb (Ascii.eqb c Ascii.zero)) (Text.chars s) = true ->
  CRunner.print_escaped_string (Text.chars s) = Text.chars (escapeC s).
Proof. intros H. rewrite escapeC_chars. now apply print_escaped_flat. Qed.

Lemma print_escaped_string_is_escapeC_witness :
  let s := String Text.quote (String Text.backslash
             (String newline (String tab "a"))) in
  forallb (fun c => negb (Ascii.eqb c Ascii.zero)) (Text.chars s) = true /\
  CRunner.print_escaped_string (Text.chars s) = Text.chars (escapeC s) /\
  List.length (Text.chars (escapeC s)) = 9%nat.
Proof.
  intros s. split; [reflexivity |]. split; [| reflexivity].
  apply (print_escaped_string_is_escapeC s). reflexivity.
Defined.

(** ** Escaping loses nothing *)

Lemma unescape_char c rest :
  unescape (CRunner.written c ++ rest) = c :: unescape rest.
Proof.
  unfold CRunner.written.
  destruct (Ascii.eqb_spec c Text.quote) as [-> | Hq]; [reflexivity |].
  destruct (Ascii.eqb_spec c Text.backslash) as [-> | Hb]; [reflexivity |].
  destruct (Ascii.eqb_spec c newline) as [-> | Hn]; [reflexivity |].
  destruct (Ascii.eqb_spec c carriage_return) as [-> | Hr]; [reflexivity |].
  destruct (Ascii.eqb_spec c tab) as [-> | Ht]; [reflexivity |].
  apply Ascii.eqb_neq in Hb. simpl. now rewrite Hb.
Qed.

Lemma unescape_escaped l : unescape (flat_map CRunner.written l) = l.
Proof.
  induction l as [| c l IH]; simpl; [reflexivity |].
  now rewrite unescape_char, IH.
Qed.

Lemma chars_inj s t : Text.chars s = Text.chars t -> s = t.
Proof.
  intros E. apply (f_equal Text.of_chars) in E.
  unfold Text.of_chars, Text.chars in E.
  now rewrite !string_of_list_ascii_of_string in E.
Qed.

(** X12.  [escapeC] (as [escapeCpp], [escapeCSharp] and [escapeJava])
    is injective: two different texts never get the same escaped text. *)
Theorem escapeC_is_injective (s t : string) :
  escapeC s = escapeC t -> s = t.
Proof.
  intros E. apply chars_inj.
  rewrite <- (unescape_escaped (Text.chars s)),
          <- (unescape_escaped (Text.chars t)), <- !escapeC_chars.
  now rewrite E.
Qed.

Lemma escapeC_is_injective_witness :
  let s := String Text.backslash "n" in
  escapeC s = String Text.backslash (String Text.backslash "n") /\ s = s.
Proof.
  intros s. split; [reflexivity |].
  apply (escapeC_is_injective s s). reflexivity.
Defined.

(** ** An escaped text between double quotes *)

Lemma escaped_S l j :
  escaped l (S j) = Ascii.eqb (nth j l Ascii.zero) backslash && negb (escaped l j).
Proof. reflexivity. Qed.

Lemma inside_literal_S l j :
  inside_literal l (S j) =
  xorb (inside_literal l j)
       (Ascii.eqb (nth j l Ascii.zero) quote && negb (escaped l j)).
Proof. reflexivity. Qed.

Lemma closed_plain out c :
  Ascii.eqb c backslash = false -> Ascii.eqb c quote = false ->
  closed out -> closed (out ++ [c]).
Proof.
  intros Hb Hq [He Hi]. unfold closed. rewrite length_app. simpl List.length.
  rewrite Nat.add_1_r. split.
  - rewrite escaped_S, nth_last, Hb. reflexivity.
  - intros i Hle. destruct (Nat.eq_dec i (S (List.length out))) as [-> | Hne].
    + rewrite inside_literal_S, nth_last, Hq, inside_literal_app by lia.
      rewrite Hi by lia. reflexivity.
    + rewrite inside_literal_app by lia. apply Hi. lia.
Qed.

Lemma closed_pair out x :
  closed out -> closed (out ++ [backslash; x]).
Proof.
  intros [He Hi]. unfold closed. rewrite length_app. simpl List.length.
  replace (List.length out + 2)%nat with (S (S (List.length out))) by lia.
  change (out ++ [backslash; x])%list with (out ++ ([backslash] ++ [x]))%list.
  rewrite app_assoc.
  assert (L1 : List.length (out ++ [backslash]) = S (List.length out))
    by (rewrite length_app; simpl; lia).
  assert (E1 : escaped (out ++ [backslash]) (S (List.length out)) = true).
  { rewrite escaped_S, nth_last, escaped_app, He by lia. reflexivity. }
  assert (I1 : inside_literal (out ++ [backslash]) (S (List.length out)) = false).
  { rewrite inside_literal_S, nth_last, inside_literal_app, Hi by lia.
    reflexivity. }
  split.
  - rewrite escaped_S, escaped_app by lia. rewrite E1, andb_false_r.
    reflexivity.
  - intros i Hle.
    destruct (Nat.eq_dec i (S (S (List.length out)))) as [-> | Hne].
    + rewrite inside_literal_S, inside_literal_app, escaped_app by lia.
      rewrite I1, E1, andb_false_r. reflexivity.
    + rewrite inside_literal_app by lia.
      destruct (Nat.eq_dec i (S (List.length out))) as [-> | Hne'];
        [exact I1 |].
      rewrite inside_literal_app by lia. apply Hi. lia.
Qed.

Lemma closed_escaped l : closed (flat_map CRunner.written l).
Proof.
  induction l as [| c l IH] using rev_ind.
  - split; [reflexivity |]. intros i Hi. simpl in Hi.
    replace i with O by lia. reflexivity.
  - rewrite flat_map_app. simpl. rewrite app_nil_r. unfold CRunner.written.
    destruct (Ascii.eqb c Text.quote) eqn:Hq; [now apply closed_pair |].
    destruct (Ascii.eqb c Text.backslash) eqn:Hb; [now apply closed_pair |].
    destruct (Ascii.eqb c newline); [now apply closed_pair |].
    destruct (Ascii.eqb c carriage_return); [now apply closed_pair |].
    destruct (Ascii.eqb c tab); [now apply closed_pair |].
    now apply closed_plain.
Qed.

Lemma no_break_escaped l :
  forallb (fun c => negb (Ascii.eqb c newline || Ascii.eqb c carriage_return
                          || Ascii.eqb c tab))
          (flat_map CRunner.written l) = true.
Proof.
  induction l as [| c l IH]; simpl; [reflexivity |].
  rewrite forallb_app, IH, andb_true_r. unfold CRunner.written.
  destruct (Ascii.eqb c Text.quote) eqn:Hq; [reflexivity |].
  destruct (Ascii.eqb c Text.backslash) eqn:Hb; [reflexivity |].
  destruct (Ascii.eqb c newline) eqn:Hn; [reflexivity |].
  destruct (Ascii.eqb c carriage_return) eqn:Hr; [reflexivity |].
  destruct (Ascii.eqb c tab) eqn:Ht; [reflexivity |].
  simpl. now rewrite Hn, Hr, Ht.
Qed.

(** X13.  The text [escapeC] returns can stand between two double
    quotes: every double quote in it is escaped by a backslash, so none
    opens or closes a literal; it does not end on a backslash that would
    escape the closing quote; and it holds no line feed, carriage return
    or tabulation. *)
Theorem escapeC_stays_inside_its_quotes (s : string) :
  let out := Text.chars (escapeC s) in
  (forall i, (i <= List.length out)%nat -> inside_literal out i = false) /\
  escaped out (List.length out) = false /\
  forallb (fun c => negb (Ascii.eqb c newline || Ascii.eqb c carriage_return
                          || Ascii.eqb c tab)) out = true.
Proof.
  intros out. unfold out. rewrite escapeC_chars.
  destruct (closed_escaped (Text.chars s)) as [He Hi].
  split; [exact Hi |]. split; [exact He |]. apply no_break_escaped.
Qed.

End Escaping.

Section Reading.

Import JS Generators Shapes.

(** ** The two readers of an expected text *)

Lemma all_digits_break l : forall a b,
  Text.break Text.is_dot l = (a, b) ->
  Text.all_digits l =
  Text.all_digits a && match b with [] => true | _ => false end.
Proof.
  induction l as [| c l IH]; simpl; intros a b E.
  - inversion E; subst. reflexivity.
  - destruct (Text.is_dot c) eqn:Hd.
    + inversion E; subst. simpl.
      unfold Text.is_dot in Hd. apply Ascii.eqb_eq in Hd. subst c. reflexivity.
    + destruct (Text.break Text.is_dot l) as [a' b'] eqn:Eb.
      inversion E; subst. simpl. rewrite (IH a' b eq_refl).
      now rewrite andb_assoc.
Qed.

Lemma break_length l : forall a b,
  Text.break Text.is_dot l = (a, b) ->
  List.length l = (List.length a + List.length b)%nat.
Proof.
  induction l as [| c l IH]; simpl; intros a b E.
  - inversion E; subst. reflexivity.
  - destruct (Text.is_dot c).
    + inversion E; subst. reflexivity.
    + destruct (Text.break Text.is_dot l) as [a' b'] eqn:Eb.
      inversion E; subst. simpl. now rewrite (IH a' b eq_refl).
Qed.

Lemma decimal_literal_split s :
  is_decimal_literal s = Text.is_int_literal s || Text.is_frac_literal s.
Proof.
  unfold is_decimal_literal, Text.is_int_literal, Text.is_frac_literal.
  destruct (Text.break Text.is_dot (Text.drop_minus (Text.chars s)))
    as [a b] eqn:E.
  rewrite (all_digits_break _ E), (break_length _ E).
  destruct b as [| d b].
  - rewrite Nat.add_0_r, andb_true_r, orb_false_r. reflexivity.
  - rewrite !andb_false_r. reflexivity.
Qed.

(** X14.  [parseExpectedValue] of the C and C# generators reads every
    expected text as the TypeScript runner's [__parseExpected__] does,
    except the texts [undefined], [NaN], [Infinity] and [-Infinity]
    (blanks around them apart), which it returns as the texts given:
    after the integer test, its pattern for decimals accepts the same
    texts as the runner's. *)
Theorem parseExpectedValue_differs_on_sentinels_only
        (rt : TypeScript.Runtime) (text : string) :
  parseExpectedValue rt (JStr text) =
  if is_js_sentinel (trim text) then JStr text
  else TypeScript.__parseExpected__ rt (JStr text).
Proof.
  unfold parseExpectedValue, TypeScript.__parseExpected__, is_js_sentinel.
  set (trimmed := trim text).
  destruct (String.eqb_spec trimmed "undefined") as [-> | H1]; [reflexivity |].
  destruct (String.eqb_spec trimmed "NaN") as [-> | H2]; [reflexivity |].
  destruct (String.eqb_spec trimmed "Infinity") as [-> | H3]; [reflexivity |].
  destruct (String.eqb_spec trimmed "-Infinity") as [-> | H4]; [reflexivity |].
  simpl. rewrite decimal_literal_split.
  destruct (Text.is_int_literal trimmed); reflexivity.
Qed.

(** ** The class prefix *)

Lemma chars_app s t : Text.chars (s ++ t) = (Text.chars s ++ Text.chars t)%list.
Proof. induction s as [| c s IH]; simpl; [reflexivity |]. now f_equal. Qed.

Lemma drop_while_all p l r :
  forallb p l = true -> Text.drop_while p (l ++ r) = Text.drop_while p r.
Proof.
  induction l as [| c l IH]; simpl; intros H; [reflexivity |].
  apply andb_true_iff in H. destruct H as [Hc Hl]. rewrite Hc. now apply IH.
Qed.

Lemma prefix_recognised p call :
  is_name p = true -> hasClassPrefix (p ++ "." ++ call) = starts_upper p.
Proof.
  unfold is_name, hasClassPrefix, starts_upper. intros H.
  apply andb_true_iff in H. destruct H as [_ Hw].
  rewrite chars_app. destruct (Text.chars p) as [| c l] eqn:E.
  - simpl. reflexivity.
  - simpl in Hw. apply andb_true_iff in Hw. destruct Hw as [_ Hl].
    simpl. rewrite (@drop_while_all is_word l _ Hl). simpl. apply andb_true_r.
Qed.

Lemma primaryClass_is_name names p :
  forallb is_name names = true -> primaryClass names = Some p ->
  is_name p = true.
Proof.
  unfold primaryClass. intros Hn.
  destruct (find (String.eqb "Solution") names) as [n |] eqn:Ef.
  - intros E. inversion E; subst. apply find_some in Ef.
    rewrite forallb_forall in Hn. apply Hn. tauto.
  - destruct names as [| n r]; [discriminate |].
    destruct (String.eqb n ""); [discriminate |].
    intros E. inversion E; subst. simpl in Hn.
    now apply andb_true_iff in Hn.
Qed.

(** X15.  When the primary class of the Java or C# generator is the
    class name [p], the call the runner holds shows a class prefix exactly
    when the call given showed one or [p] begins with a capital letter;
    so with a capitalised primary class every call ends up prefixed, and
    prefixing a second time would change nothing. *)
Theorem callCode_prefix_is_recognised (classNames : list string)
        (p call : string) :
  forallb is_name classNames = true ->
  primaryClass classNames = Some p ->
  hasClassPrefix (callCode (Some p) call) = hasClassPrefix call || starts_upper p
  /\ (starts_upper p = true ->
      callCode (Some p) (callCode (Some p) call) = callCode (Some p) call).
Proof.
  intros Hn Hp. pose proof (primaryClass_is_name _ Hn Hp) as Hname.
  assert (E : hasClassPrefix (callCode (Some p) call)
              = hasClassPrefix call || starts_upper p).
  { unfold callCode. destruct (hasClassPrefix call) eqn:Hc; [exact Hc |].
    now rewrite prefix_recognised. }
  split; [exact E |].
  intros Hu. rewrite Hu, orb_true_r in E.
  unfold callCode at 1. now rewrite E.
Qed.

Lemma callCode_prefix_is_recognised_witness :
  let names := ["Helper"; "Solution"] in
  forallb is_name names = true /\ primaryClass names = Some "Solution" /\
  callCode (Some "Solution") "add(1, 2)" = "Solution.add(1, 2)" /\
  hasClassPrefix (callCode (Some "Solution") "add(1, 2)") = true.
Proof.
  intros names. repeat (split; [reflexivity |]).
  destruct (@callCode_prefix_is_recognised names "Solution" "add(1, 2)"
              eq_refl eq_refl) as [H _].
  exact H.
Defined.

(** ** What [convertCppToJson] hands to [JSON.parse] *)

Lemma starts_with_char c s :
  Text.starts_with (String c EmptyString) s =
  match Text.chars s with
  | x :: _ => Ascii.eqb c x
  | [] => false
  end.
Proof.
  unfold Text.starts_with. destruct s as [| x s]; simpl; [reflexivity |].
  destruct (Ascii.ascii_dec c x) as [-> | Hne].
  - rewrite Ascii.eqb_refl. now destruct s.
  - apply Ascii.eqb_neq in Hne. now rewrite Hne.
Qed.

Lemma rewrite_first trimmed :
  Text.starts_with "{" trimmed = true ->
  Text.starts_with "[" (Cpp.rewrite trimmed) = true.
Proof.
  rewrite !starts_with_char. unfold Cpp.rewrite. rewrite chars_of_chars.
  destruct (scanned_all (Text.chars trimmed)) as (Hlen & _ & _ & Hnth).
  remember (Text.chars trimmed) as l eqn:El.
  remember (Cpp.result (fold_left Cpp.step l Cpp.start)) as out eqn:Eo.
  clear El Eo. destruct l as [| x l]; [discriminate |].
  intros Hx. apply Ascii.eqb_eq in Hx. subst x.
  assert (H0 : nth 0 out Ascii.zero = "["%char)
    by (rewrite Hnth by (simpl; lia); reflexivity).
  destruct out as [| y out]; [discriminate |].
  simpl in H0. subst y. reflexivity.
Qed.

(** X16.  [convertCppToJson] returns the value given, or what
    [JSON.parse] made of a text that begins with an opening square
    bracket: the first brace of the text is always rewritten, so the text
    of a JSON object is never parsed as an object. *)
Theorem convertCppToJson_parses_bracketed_text_only
        (JSON_parse : string -> option JsVal) (value : JsVal) :
  Cpp.convertCppToJson JSON_parse value = value \/
  exists text, Text.starts_with "[" text = true /\
               JSON_parse text = Some (Cpp.convertCppToJson JSON_parse value).
Proof.
  destruct value as [| | b | f | s | l | fields]; try (left; reflexivity).
  unfold Cpp.convertCppToJson.
  destruct (Text.starts_with "{" (trim s)) eqn:Hs; [| left; reflexivity].
  destruct (Text.ends_with "}" (trim s)); [| left; reflexivity].
  simpl. destruct (JSON_parse (Cpp.rewrite (trim s))) as [parsed |] eqn:Ep;
    [| left; reflexivity].
  right. exists (Cpp.rewrite (trim s)). split; [| exact Ep].
  now apply rewrite_first.
Qed.

End Reading.

(* ------------------------------------------------------------------ *)
(** * The tolerance test on an infinite number *)

Lemma within_tolerance_infinite s b :
  CSharp.within_tolerance (S754_infinity s) b = false /\
  CSharp.within_tolerance b (S754_infinity s) = false.
Proof.
  unfold CSharp.within_tolerance, Double.ltb, Double.abs, Double.sub.
  split; destruct s, b as [t | t | | t m e]; try destruct t; reflexivity.
Qed.

(** X17.  The tolerance test of the C# runner's [DeepEquals] and of the
    generated C runner never accepts an infinite number, not even against
    the same infinity: the difference is NaN or infinite and is never
    below the tolerance. *)
Theorem infinite_numbers_never_pass (ToString : CSharp.CsVal -> string)
        (s : bool) (b : double) :
  CSharp.DeepEquals ToString (CSharp.CsDouble (S754_infinity s))
                    (CSharp.CsDouble b) = false /\
  CSharp.DeepEquals ToString (CSharp.CsDouble b)
                    (CSharp.CsDouble (S754_infinity s)) = false /\
  C.passed_double (S754_infinity s) b = false /\
  C.passed_double b (S754_infinity s) = false.
Proof.
  destruct (within_tolerance_infinite s b) as [H1 H2].
  repeat split.
  - simpl. exact H1.
  - simpl. rewrite andb_false_r. exact H2.
  - exact H1.
  - exact H2.
Qed.

(* ------------------------------------------------------------------ *)
(** * The C# runner *)

Section SplitScan.

Import CSharp Generators CSharpRunner.

Lemma substring_chars s : forall n m,
  substring n m s = Text.of_chars (firstn m (skipn n (Text.chars s))).
Proof.
  induction s as [| c s IH]; intros n m.
  - destruct n, m; reflexivity.
  - destruct n as [| n].
    + destruct m as [| m]; [reflexivity |]. simpl. now rewrite IH.
    + simpl. apply IH.
Qed.

Lemma chars_length s : List.length (Text.chars s) = String.length s.
Proof. induction s; simpl; [reflexivity |]. now f_equal. Qed.

Lemma firstn_snoc A (l : list A) d : forall k, (k < List.length l)%nat ->
  firstn (S k) l = (firstn k l ++ [nth k l d])%list.
Proof.
  induction l as [| x l IH]; intros k Hk; simpl in Hk; [lia |].
  destruct k as [| k]; [reflexivity |].
  simpl. f_equal. apply IH. lia.
Qed.

Lemma nth_skipn A (l : list A) d : forall n i,
  nth i (skipn n l) d = nth (n + i) l d.
Proof.
  induction l as [| x l IH]; intros n i.
  - rewrite skipn_nil. now destruct i, n.
  - destruct n as [| n]; [reflexivity |]. simpl. apply IH.
Qed.

Lemma current_grows (l : list ascii) s k :
  (s <= k)%nat -> (k < List.length l)%nat ->
  firstn (S k - s) (skipn s l) =
  (firstn (k - s) (skipn s l) ++ [nth k l Ascii.zero])%list.
Proof.
  intros Hs Hk. replace (S k - s)%nat with (S (k - s)) by lia.
  rewrite (firstn_snoc (skipn s l) Ascii.zero).
  - rewrite nth_skipn. now replace (s + (k - s))%nat with k by lia.
  - rewrite length_skipn. lia.
Qed.

Lemma agree_step json k st sc :
  (k < String.length json)%nat ->
  agree (Text.chars json) k st sc ->
  agree (Text.chars json) (S k) (split_step json st k)
        (scan_step sc (nth k (Text.chars json) Ascii.zero)).
Proof.
  intros Hk (Hr & Hd & Hi & Hs & Hc & Hp).
  rewrite <- chars_length in Hk.
  pose proof (current_grows (Text.chars json) Hs Hk) as Hg.
  assert (Eq : (Nat.eqb k 0
                || negb (Ascii.eqb (char_at json (k - 1)) Text.backslash))
               = match previous sc with
                 | None => true
                 | Some p => negb (Ascii.eqb p Text.backslash)
                 end).
  { rewrite Hp. destruct k as [| j]; [reflexivity |].
    simpl. unfold char_at. now rewrite Nat.sub_0_r. }
  unfold split_step, scan_step. rewrite Eq, Hi, Hd. unfold char_at.
  set (c := nth k (Text.chars json) Ascii.zero) in *.
  set (inStr := if Ascii.eqb c Text.quote && _ then _ else _).
  unfold agree.
  destruct (negb inStr);
    [ destruct (Ascii.eqb c "[" || Ascii.eqb c "{");
      [| destruct (Ascii.eqb c "]" || Ascii.eqb c "}");
         [| destruct (Ascii.eqb c "," && (level sc =? 0)) ] ] |];
    cbn [result depth start inString pieces level current inside previous];
    rewrite ?substring_chars, <- ?Hc, ?Hr;
    repeat split; try lia; try (rewrite Hc; symmetry; exact Hg).
  replace (S k - (k + 1))%nat with O by lia. reflexivity.
Qed.

Lemma agree_all json : forall k, (k <= String.length json)%nat ->
  agree (Text.chars json) k
        (fold_left (split_step json) (seq 0 k)
           {| result := []; depth := 0; start := 0; inString := false |})
        (fold_left scan_step (firstn k (Text.chars json)) scan_start).
Proof.
  induction k as [| k IH]; intros Hk.
  - repeat split. simpl. lia.
  - rewrite seq_S, fold_left_app. simpl fold_left at 1.
    rewrite (firstn_snoc (Text.chars json) Ascii.zero)
      by (rewrite chars_length; lia).
    rewrite fold_left_app. simpl fold_left at 1.
    apply agree_step; [lia | apply IH; lia].
Qed.

Lemma SplitJson_scan json :
  SplitJson json = scan_end (fold_left scan_step (Text.chars json) scan_start).
Proof.
  unfold SplitJson.
  destruct (agree_all json (Nat.le_refl _)) as (Hr & _ & _ & Hs & Hc & _).
  rewrite firstn_all2 in Hc by (rewrite chars_length; lia).
  rewrite firstn_all2 in Hr by (rewrite chars_length; lia).
  set (st := fold_left (split_step json) _ _) in *.
  set (sc := fold_left scan_step _ _) in *.
  unfold scan_end. rewrite Hc, <- Hr, substring_chars.
  destruct (Nat.ltb_spec (start st) (String.length json)) as [Hlt | Hge].
  - destruct (firstn _ _) eqn:E; [| reflexivity].
    apply (f_equal (@List.length ascii)) in E.
    rewrite length_firstn, length_skipn, chars_length in E. simpl in E. lia.
  - replace (String.length json - start st)%nat with O by lia. reflexivity.
Qed.

End SplitScan.

Section Seals.

Import CSharp Generators CSharpRunner Sealing.

Lemma fold_left_cons A B (f : A -> B -> A) x l a :
  fold_left f (x :: l) a = fold_left f l (f a x).
Proof. reflexivity. Qed.

Lemma last_cons A (l : list A) : forall d x, last (x :: l) d = last l x.
Proof.
  induction l as [| a l IH]; intros d x; [reflexivity |].
  change (last (x :: a :: l) d) with (last (a :: l) d).
  rewrite (IH d a). symmetry. apply IH.
Qed.

Lemma scan_plain_char ps d cur prev c :
  is_plain c = true ->
  scan_step {| pieces := ps; level := d; current := cur; inside := false;
               previous := prev |} c
  = {| pieces := ps; level := d; current := cur ++ [c]; inside := false;
       previous := Some c |}.
Proof.
  unfold is_plain. rewrite negb_true_iff, !orb_false_iff.
  intros ((((((Hq & Hb) & H1) & H2) & H3) & H4) & H5).
  unfold scan_step. simpl. rewrite Hq, H1, H2, H3, H4, H5. reflexivity.
Qed.

Lemma plain_unescaped c : is_plain c = true -> unescaped (Some c) = true.
Proof.
  unfold is_plain, unescaped. rewrite negb_true_iff, !orb_false_iff.
  intros ((((((Hq & Hb) & H1) & H2) & H3) & H4) & H5). now rewrite Hb.
Qed.

Lemma sealed_word c t : forallb is_plain (c :: t) = true -> sealed (c :: t).
Proof.
  revert c. induction t as [| c' t IH]; intros c H ps d cur prev Hd Hp;
    simpl in H; apply andb_true_iff in H; destruct H as [Hc Ht].
  - exists c. split; [now apply plain_unescaped |].
    simpl. now apply scan_plain_char.
  - simpl fold_left. rewrite (@scan_plain_char ps d cur prev c Hc).
    destruct (IH c' Ht ps d (cur ++ [c])%list (Some c) Hd (plain_unescaped _ Hc))
      as (p & Hp' & E).
    exists p. split; [exact Hp' |].
    simpl fold_left in E. rewrite E. now rewrite <- app_assoc.
Qed.

Lemma scan_inner s : forall ps d cur prev,
  forallb is_inner s = true -> unescaped prev = true ->
  exists p, unescaped p = true /\
    fold_left scan_step s
      {| pieces := ps; level := d; current := cur; inside := true;
         previous := prev |}
    = {| pieces := ps; level := d; current := cur ++ s; inside := true;
         previous := p |}.
Proof.
  induction s as [| c s IH]; intros ps d cur prev H Hp.
  - exists prev. split; [exact Hp |]. simpl. now rewrite app_nil_r.
  - simpl in H. apply andb_true_iff in H. destruct H as [Hc Hs].
    unfold is_inner in Hc. apply andb_true_iff in Hc. destruct Hc as [Hq Hb].
    apply negb_true_iff in Hq.
    assert (E : scan_step {| pieces := ps; level := d; current := cur;
                             inside := true; previous := prev |} c
                = {| pieces := ps; level := d; current := cur ++ [c];
                     inside := true; previous := Some c |}).
    { unfold scan_step. simpl. rewrite Hq. reflexivity. }
    simpl fold_left. rewrite E.
    destruct (IH ps d (cur ++ [c])%list (Some c) Hs Hb) as (p & Hp' & E').
    exists p. split; [exact Hp' |]. rewrite E'. now rewrite <- app_assoc.
Qed.

Lemma sealed_quoted s :
  forallb is_inner s = true -> sealed (Text.quote :: s ++ [Text.quote]).
Proof.
  intros H ps d cur prev Hd Hp. exists Text.quote. split; [reflexivity |].
  assert (E1 : scan_step {| pieces := ps; level := d; current := cur;
                            inside := false; previous := prev |} Text.quote
               = {| pieces := ps; level := d; current := cur ++ [Text.quote];
                    inside := true; previous := Some Text.quote |}).
  { unfold scan_step. cbn [previous inside pieces level current].
    unfold unescaped in Hp. rewrite Ascii.eqb_refl.
    destruct prev as [p |]; [rewrite Hp |]; reflexivity. }
  simpl fold_left. rewrite E1, fold_left_app.
  destruct (scan_inner s ps d (cur ++ [Text.quote])%list (Some Text.quote) H eq_refl)
    as (p & Hp' & E2).
  rewrite E2. simpl fold_left. unfold scan_step.
  cbn [previous inside pieces level current]. rewrite Ascii.eqb_refl.
  unfold unescaped in Hp'.
  replace (match p with
           | Some p0 => negb (Ascii.eqb p0 Text.backslash)
           | None => true
           end) with true by (symmetry; exact Hp').
  simpl. rewrite <- !app_assoc. reflexivity.
Qed.

Lemma scan_comma_nested ps d cur prev :
  0 < d ->
  scan_step {| pieces := ps; level := d; current := cur; inside := false;
               previous := prev |} ","
  = {| pieces := ps; level := d; current := cur ++ [","%char]; inside := false;
       previous := Some ","%char |}.
Proof.
  intros Hd. unfold scan_step. simpl.
  destruct (Z.eqb_spec d 0); [lia | reflexivity].
Qed.

Lemma scan_joined_nested items : Forall sealed items ->
  forall ps d cur prev, 0 < d -> unescaped prev = true ->
  exists p, unescaped p = true /\
    fold_left scan_step (joined items)
      {| pieces := ps; level := d; current := cur; inside := false;
         previous := prev |}
    = {| pieces := ps; level := d; current := cur ++ joined items;
         inside := false; previous := p |}.
Proof.
  induction 1 as [| t items Ht H IH]; intros ps d cur prev Hd Hp.
  - exists prev. split; [exact Hp |]. simpl. now rewrite app_nil_r.
  - destruct items as [| t' items].
    + destruct (Ht ps d cur prev (Z.lt_le_incl _ _ Hd) Hp) as (p & Hp' & E).
      exists (Some p). split; [exact Hp' | exact E].
    + change (joined (t :: t' :: items))
        with (t ++ ","%char :: joined (t' :: items))%list.
      rewrite fold_left_app.
      destruct (Ht ps d cur prev (Z.lt_le_incl _ _ Hd) Hp) as (p & Hp' & E).
      rewrite E, fold_left_cons, scan_comma_nested by exact Hd.
      destruct (IH ps d ((cur ++ t) ++ [","%char])%list (Some ","%char) Hd eq_refl)
        as (q & Hq & E').
      exists q. split; [exact Hq |]. rewrite E'.
      now rewrite <- !app_assoc.
Qed.

Lemma sealed_bracketed items :
  Forall sealed items -> sealed ("["%char :: joined items ++ ["]"%char]).
Proof.
  intros H ps d cur prev Hd Hp. exists "]"%char. split; [reflexivity |].
  assert (E1 : scan_step {| pieces := ps; level := d; current := cur;
                            inside := false; previous := prev |} "["
               = {| pieces := ps; level := d + 1; current := cur ++ ["["%char];
                    inside := false; previous := Some "["%char |})
    by reflexivity.
  simpl fold_left. rewrite E1, fold_left_app.
  destruct (scan_joined_nested H ps (cur ++ ["["%char])%list (Some "["%char)
              (d := d + 1) ltac:(lia) eq_refl) as (p & Hp' & E2).
  rewrite E2. simpl. unfold scan_step. simpl.
  replace (d + 1 - 1) with d by lia. now rewrite <- !app_assoc.
Qed.

Lemma scan_joined_top t items : Forall sealed (t :: items) ->
  forall ps prev, unescaped prev = true ->
  exists p,
    fold_left scan_step (joined (t :: items))
      {| pieces := ps; level := 0; current := []; inside := false;
         previous := prev |}
    = {| pieces := ps ++ map (fun x => Trim (Text.of_chars x))
                             (removelast (t :: items));
         level := 0; current := last items t; inside := false;
         previous := Some p |}.
Proof.
  revert t. induction items as [| t' items IH]; intros t H ps prev Hp;
    inversion H as [| ? ? Ht Hr]; subst.
  - destruct (Ht ps 0 [] prev (Z.le_refl 0) Hp) as (p & _ & E).
    exists p. simpl. rewrite E. now rewrite app_nil_r.
  - change (joined (t :: t' :: items))
      with (t ++ ","%char :: joined (t' :: items))%list.
    rewrite fold_left_app.
    destruct (Ht ps 0 [] prev (Z.le_refl 0) Hp) as (p & _ & E).
    rewrite E, fold_left_cons.
    assert (Ec : scan_step {| pieces := ps; level := 0; current := [] ++ t;
                              inside := false; previous := Some p |} ","
                 = {| pieces := ps ++ [Trim (Text.of_chars t)]; level := 0;
                      current := []; inside := false;
                      previous := Some ","%char |}) by reflexivity.
    rewrite Ec.
    destruct (IH t' Hr (ps ++ [Trim (Text.of_chars t)])%list (Some ","%char) eq_refl)
      as (q & E').
    exists q. rewrite E'. f_equal.
    + change (removelast (t :: t' :: items))
        with (t :: removelast (t' :: items)).
      simpl map. now rewrite <- app_assoc.
    + symmetry. apply last_cons.
Qed.

End Seals.

Section TextFacts.

Import CSharp Generators CSharpRunner Sealing Simple.

Lemma drop_while_head p c l :
  p c = false -> Text.drop_while p (c :: l) = c :: l.
Proof. intros H. simpl. now rewrite H. Qed.

Lemma last_rev_head A (l : list A) c d :
  hd d (rev (c :: l)) = last (c :: l) d.
Proof.
  revert c. induction l as [| x l IH]; intros c; [reflexivity |].
  change (last (c :: x :: l) d) with (last (x :: l) d). rewrite <- IH.
  simpl. destruct (rev l ++ [x])%list eqn:E; [| reflexivity].
  destruct (rev l); discriminate.
Qed.

Lemma Trim_tight s : tight (Text.chars s) = true -> Trim s = s.
Proof.
  unfold tight, Trim, Text.strip_with. destruct (Text.chars s) as [| c l] eqn:E;
    [discriminate |].
  intros H. apply andb_true_iff in H. destruct H as [Hc Hl].
  apply negb_true_iff in Hc, Hl.
  rewrite (drop_while_head _ _ _ Hc).
  pose proof (last_rev_head l c c) as Hh.
  destruct (rev (c :: l)) as [| x r] eqn:Er.
  - apply (f_equal (@rev ascii)) in Er. rewrite rev_involutive in Er.
    discriminate.
  - cbn [hd] in Hh. rewrite <- Hh in Hl.
    rewrite (drop_while_head _ _ _ Hl), <- Er.
    rewrite rev_involutive, <- E. unfold Text.of_chars, Text.chars.
    apply string_of_list_ascii_of_string.
Qed.

Lemma ends_with_char c s :
  Text.ends_with (String c EmptyString) s =
  match rev (Text.chars s) with
  | x :: _ => Ascii.eqb c x
  | [] => false
  end.
Proof.
  unfold Text.ends_with. change (rev (Text.chars (String c ""))) with [c].
  change (Text.of_chars [c]) with (String c "").
  fold (Text.starts_with (String c "") (Text.of_chars (rev (Text.chars s)))).
  rewrite starts_with_char. now rewrite chars_of_chars.
Qed.

Lemma of_chars_chars s : Text.of_chars (Text.chars s) = s.
Proof. apply string_of_list_ascii_of_string. Qed.

Lemma of_chars_app l m :
  Text.of_chars (l ++ m) = Text.of_chars l ++ Text.of_chars m.
Proof. induction l as [| c l IH]; simpl; [reflexivity |]. now f_equal. Qed.

Lemma chars_quoted s :
  Text.chars (Text.quoted s) = (Text.quote :: Text.chars s ++ [Text.quote])%list.
Proof. unfold Text.quoted. simpl. f_equal. now rewrite chars_app. Qed.

Lemma last_snoc A (l : list A) x d : last (l ++ [x]) d = x.
Proof.
  induction l as [| a l IH]; [reflexivity |].
  simpl. rewrite IH. destruct (l ++ [x])%list eqn:E; [| reflexivity].
  destruct l; discriminate.
Qed.

Lemma substring_middle c s t :
  substring 1 (String.length s) (String c (s ++ t)) = s.
Proof.
  rewrite substring_chars. simpl. rewrite chars_app, firstn_app.
  rewrite <- chars_length, Nat.sub_diag, firstn_all. simpl.
  rewrite app_nil_r. apply of_chars_chars.
Qed.

Lemma length_append s t :
  String.length (s ++ t) = (String.length s + String.length t)%nat.
Proof. induction s as [| c s IH]; simpl; [reflexivity |]. now rewrite IH. Qed.

End TextFacts.

Section Parsing.

Import CSharp Generators CSharpRunner Sealing Simple.

Variable ToString : CsVal -> string.
Variable TryParse : string -> option double.

(** A text between two double quotes. *)
Lemma ParseJson_quoted fuel s :
  ParseJson TryParse (S fuel) (Text.quoted s) = Some (Ok (JsonString s)).
Proof.
  assert (Ht : Trim (Text.quoted s) = Text.quoted s).
  { apply Trim_tight. rewrite chars_quoted. unfold tight.
    change (Text.quote :: Text.chars s ++ [Text.quote])%list
      with ((Text.quote :: Text.chars s) ++ [Text.quote])%list.
    rewrite last_snoc. reflexivity. }
  assert (He : Text.ends_with quote_mark (Text.quoted s) = true).
  { unfold quote_mark. rewrite ends_with_char, chars_quoted.
    change (Text.quote :: Text.chars s ++ [Text.quote])%list
      with ((Text.quote :: Text.chars s) ++ [Text.quote])%list.
    rewrite rev_app_distr. reflexivity. }
  assert (Hl : String.length (Text.quoted s) = S (S (String.length s))).
  { unfold Text.quoted. simpl. rewrite length_append. simpl. lia. }
  assert (Es : substring 1 (String.length (Text.quoted s) - 2) (Text.quoted s)
               = s).
  { rewrite Hl. replace (S (S (String.length s)) - 2)%nat
      with (String.length s) by lia.
    unfold Text.quoted. apply substring_middle. }
  assert (E1 : String.eqb (Text.quoted s) "null" = false) by reflexivity.
  assert (E2 : String.eqb (Text.quoted s) "true" = false) by reflexivity.
  assert (E3 : String.eqb (Text.quoted s) "false" = false) by reflexivity.
  assert (Hs : Text.starts_with quote_mark (Text.quoted s) = true).
  { unfold quote_mark. rewrite starts_with_char, chars_quoted. reflexivity. }
  cbn [ParseJson]. rewrite Ht, E1, E2, E3, Hs, He, Es, Hl. reflexivity.
Qed.

End Parsing.

Section RoundTripCs.

Import CSharp Generators CSharpRunner Sealing Simple.

(** ** Numbers *)

Lemma within_tolerance_self d :
  is_nan d = false -> is_inf d = false -> within_tolerance d d = true.
Proof.
  unfold within_tolerance, Double.ltb, Double.abs, Double.sub.
  destruct d as [s | s | | s m e]; try discriminate; intros _ _.
  - destruct s; reflexivity.
  - unfold SFsub. rewrite Z.sub_diag. reflexivity.
Qed.

Lemma same_double_eq f g : same_double f g = true -> f = g.
Proof.
  destruct f as [s | s | | s m e], g as [t | t | | t n d]; simpl;
    try discriminate; intros H.
  - apply Bool.eqb_prop in H. now subst.
  - apply Bool.eqb_prop in H. now subst.
  - reflexivity.
  - apply andb_true_iff in H. destruct H as [H He].
    apply andb_true_iff in H. destruct H as [Hs Hm].
    apply Bool.eqb_prop in Hs. apply Pos.eqb_eq in Hm. apply Z.eqb_eq in He.
    now subst.
Qed.

Lemma number_char_other c x :
  is_number_char c = true -> is_number_char x = false -> Ascii.eqb c x = false.
Proof.
  intros Hc Hx. destruct (Ascii.eqb_spec c x) as [-> | _]; [| reflexivity].
  congruence.
Qed.

Lemma number_char_plain c : is_number_char c = true -> is_plain c = true.
Proof.
  intros H. unfold is_plain.
  rewrite !(@number_char_other c _ H) by reflexivity. reflexivity.
Qed.

Lemma number_char_no_space c : is_number_char c = true -> cs_isspace c = false.
Proof.
  intros H. destruct (cs_isspace c) eqn:E; [| reflexivity].
  unfold cs_isspace in E. unfold is_number_char, Text.is_digit in H.
  repeat match type of H with
         | (_ || Ascii.eqb c ?x) = true =>
             let Heq := fresh "Heq" in
             destruct (Ascii.eqb_spec c x) as [Heq | _];
             [ exfalso; rewrite Heq in E; revert E; vm_compute; discriminate
             | rewrite orb_false_r in H ]
         end.
  set (n := Text.code c) in *.
  apply andb_true_iff in H. destruct H as [H1 H2].
  apply N.leb_le in H1, H2.
  rewrite !orb_true_iff, !andb_true_iff, !N.leb_le, !N.eqb_eq in E. lia.
Qed.

Lemma last_In A (l : list A) : forall c d, In (last (c :: l) d) (c :: l).
Proof.
  induction l as [| a l IH]; intros c d; [now left |].
  change (last (c :: a :: l) d) with (last (a :: l) d). right. apply IH.
Qed.

Lemma number_word_tight t : number_word t = true -> tight (Text.chars t) = true.
Proof.
  unfold number_word, tight. destruct (Text.chars t) as [| c l]; [discriminate |].
  intros H. rewrite forallb_forall in H.
  rewrite (@number_char_no_space c) by (apply H; now left).
  rewrite (@number_char_no_space (last (c :: l) c)) by (apply H; apply last_In).
  reflexivity.
Qed.

Lemma number_word_sealed t : number_word t = true -> sealed (Text.chars t).
Proof.
  unfold number_word. destruct (Text.chars t) as [| c l]; [discriminate |].
  intros H. apply sealed_word. rewrite forallb_forall in *.
  intros x Hx. apply number_char_plain. now apply H.
Qed.

Lemma ParseJson_number TryParse fuel t :
  number_word t = true ->
  ParseJson TryParse (S fuel) t =
  Some (Ok (match TryParse t with
            | Some d => JsonDouble d
            | None => JsonString t
            end)).
Proof.
  intros H. pose proof (Trim_tight _ (number_word_tight _ H)) as Ht.
  unfold number_word in H. destruct t as [| c t]; [discriminate |].
  simpl in H. apply andb_true_iff in H. destruct H as [Hc _].
  cbn [ParseJson]. rewrite Ht. unfold quote_mark.
  rewrite !starts_with_char. simpl Text.chars. cbn [String.eqb].
  rewrite !(Ascii.eqb_sym _ c).
  rewrite !(@number_char_other c _ Hc) by reflexivity. simpl.
  destruct (TryParse (String c t)); reflexivity.
Qed.

End RoundTripCs.

Section RoundTripCs2.

Import CSharp Generators CSharpRunner Sealing Simple.

(** ** Joined items *)

Lemma chars_Join texts :
  Text.chars (Join "," texts) = joined (map Text.chars texts).
Proof.
  induction texts as [| t texts IH]; [reflexivity |].
  destruct texts as [| t' texts]; [reflexivity |].
  change (Join "," (t :: t' :: texts)) with (t ++ "," ++ Join "," (t' :: texts)).
  rewrite !chars_app, IH. reflexivity.
Qed.

Lemma removelast_last A (l : list A) x :
  (removelast (x :: l) ++ [last l x])%list = x :: l.
Proof.
  rewrite <- (last_cons l x x). symmetry. apply app_removelast_last. discriminate.
Qed.

Lemma tight_not_nil t : tight t = true -> t <> [].
Proof. destruct t; [discriminate | discriminate]. Qed.

Lemma SplitJson_joined texts :
  texts <> [] ->
  Forall (fun t => sealed (Text.chars t) /\ tight (Text.chars t) = true) texts ->
  SplitJson (Join "," texts) = texts.
Proof.
  intros Hne H. destruct texts as [| t texts]; [contradiction |].
  rewrite SplitJson_scan, chars_Join.
  assert (Hs : Forall sealed (map Text.chars (t :: texts))).
  { apply Forall_map. eapply Forall_impl; [| exact H]. now intros x [Hx _]. }
  simpl map in Hs.
  destruct (scan_joined_top Hs [] None eq_refl) as (p & E).
  simpl map. unfold scan_start. rewrite E. unfold scan_end.
  cbn [current pieces].
  remember (last (map Text.chars texts) (Text.chars t)) as L eqn:EL.
  assert (Hlast : In L (map Text.chars (t :: texts))).
  { rewrite EL, <- (last_cons _ (Text.chars t) (Text.chars t)). apply last_In. }
  apply in_map_iff in Hlast. destruct Hlast as (u & Eu & Hu).
  rewrite Forall_forall in H. destruct (H u Hu) as [_ Htu].
  rewrite Eu in Htu. destruct L as [| c r]; [discriminate Htu |].
  rewrite EL, app_nil_l.
  rewrite <- (map_cons (fun x => Trim (Text.of_chars x)) _ []),
          <- map_app.
  rewrite removelast_last.
  change (Text.chars t :: map Text.chars texts)
    with (map Text.chars (t :: texts)).
  rewrite map_map.
  transitivity (map (fun x : string => x) (t :: texts)); [| apply map_id].
  apply map_ext_in. intros x Hx. rewrite of_chars_chars.
  apply Trim_tight. now destruct (H x Hx).
Qed.

End RoundTripCs2.

Section RoundTripCs3.

Import CSharp Generators CSharpRunner Sealing Simple.

Variable ToString : CsVal -> string.
Variable TryParse : string -> option double.

(** ** The text of a value *)

Lemma replace_all_absent c r l :
  forallb (fun x => negb (Ascii.eqb x c)) l = true -> replace_all c r l = l.
Proof.
  induction l as [| x l IH]; simpl; intros H; [reflexivity |].
  apply andb_true_iff in H. destruct H as [Hx Hl].
  apply negb_true_iff in Hx. rewrite Hx. now rewrite IH.
Qed.

Lemma escape_text_inner s :
  forallb is_inner (Text.chars s) = true -> escape_text s = s.
Proof.
  intros H. unfold escape_text.
  rewrite (replace_all_absent Text.backslash), (replace_all_absent Text.quote).
  - apply of_chars_chars.
  - rewrite forallb_forall in *. intros x Hx. specialize (H x Hx).
    unfold is_inner in H. now apply andb_true_iff in H.
  - rewrite forallb_forall in *. intros x Hx. specialize (H x Hx).
    unfold is_inner in H. now apply andb_true_iff in H.
Qed.

Lemma chars_bracketed inner :
  Text.chars ("[" ++ inner ++ "]") =
  ("["%char :: Text.chars inner ++ ["]"%char])%list.
Proof. simpl. f_equal. now rewrite chars_app. Qed.

Lemma tight_bracketed l : tight ("["%char :: l ++ ["]"%char]) = true.
Proof.
  unfold tight. change ("["%char :: l ++ ["]"%char])%list
    with (("["%char :: l) ++ ["]"%char])%list.
  now rewrite last_snoc.
Qed.

Lemma number_text_ok obj d :
  simple_number ToString TryParse obj d = true ->
  number_text ToString obj d = ToString obj /\
  number_word (ToString obj) = true /\
  TryParse (ToString obj) = Some d.
Proof.
  unfold simple_number, number_text. intros H.
  apply andb_true_iff in H. destruct H as [H Hp].
  apply andb_true_iff in H. destruct H as [H Hw].
  apply andb_true_iff in H. destruct H as [Hn Hi].
  apply negb_true_iff in Hn, Hi. rewrite Hn.
  split; [| split; [exact Hw |]].
  - destruct d as [s | s | | s m e]; try discriminate; reflexivity.
  - destruct (TryParse (ToString obj)) as [d' |]; [| discriminate].
    now rewrite (same_double_eq _ _ Hp).
Qed.

Lemma Serialize_ok v :
  simple ToString TryParse v = true -> item_ok (Serialize ToString v).
Proof.
  induction v as [| b | n | f | s | l IH | l IH] using CsVal_nested_ind;
    intros Hs; unfold item_ok; cbn [Serialize]; cbn [simple] in Hs.
  - split; [apply sealed_word |]; reflexivity.
  - destruct b; (split; [apply sealed_word |]; reflexivity).
  - destruct (number_text_ok _ _ Hs) as (E & Hw & _).
    rewrite E. split;
      [now apply number_word_sealed | now apply number_word_tight].
  - destruct (number_text_ok _ _ Hs) as (E & Hw & _).
    rewrite E. split;
      [now apply number_word_sealed | now apply number_word_tight].
  - rewrite (escape_text_inner _ Hs), chars_quoted. split.
    + now apply sealed_quoted.
    + unfold tight. change (Text.quote :: Text.chars s ++ [Text.quote])%list
        with ((Text.quote :: Text.chars s) ++ [Text.quote])%list.
      now rewrite last_snoc.
  - rewrite chars_bracketed, chars_Join. split.
    + apply sealed_bracketed. rewrite map_map. apply Forall_map.
      apply forallb_Forall in Hs.
      eapply Forall_impl2; [| exact IH | exact Hs].
      intros x Hx Sx. now destruct (Hx Sx).
    + apply tight_bracketed.
  - rewrite chars_bracketed, chars_Join. split.
    + apply sealed_bracketed. rewrite map_map. apply Forall_map.
      apply forallb_Forall in Hs.
      eapply Forall_impl2; [| exact IH | exact Hs].
      intros x Hx Sx. now destruct (Hx Sx).
    + apply tight_bracketed.
Qed.

(** ** A text between square brackets *)

Lemma last_app_ne A (l : list A) y m d d' :
  last (l ++ y :: m) d = last (y :: m) d'.
Proof.
  induction l as [| x l IH].
  - simpl app. rewrite !last_cons. reflexivity.
  - change ((x :: l) ++ y :: m)%list with (x :: (l ++ y :: m))%list.
    rewrite last_cons.
    destruct (l ++ y :: m)%list as [| z r] eqn:E; [destruct l; discriminate |].
    rewrite <- E, <- IH. rewrite E, !last_cons. reflexivity.
Qed.

Lemma tight_cons c l :
  tight (c :: l) = negb (cs_isspace c) && negb (cs_isspace (last (c :: l) c)).
Proof. reflexivity. Qed.

Lemma tight_app a x b :
  tight a = true -> tight b = true -> tight (a ++ x :: b) = true.
Proof.
  destruct a as [| c r]; [discriminate |].
  destruct b as [| c' r']; [discriminate |].
  rewrite !tight_cons. intros Ha Hb.
  apply andb_true_iff in Ha, Hb. destruct Ha as [Hc _], Hb as [_ Hl].
  change ((c :: r) ++ x :: c' :: r')%list
    with (c :: (r ++ x :: c' :: r'))%list.
  rewrite tight_cons, Hc.
  change (c :: (r ++ x :: c' :: r'))%list
    with ((c :: r) ++ x :: c' :: r')%list.
  rewrite (last_app_ne (c :: r) x (c' :: r') c c').
  rewrite !last_cons. rewrite last_cons in Hl. exact Hl.
Qed.

Lemma tight_joined t texts :
  Forall item_ok (t :: texts) ->
  tight (joined (map Text.chars (t :: texts))) = true.
Proof.
  intros H.
  assert (Hf : forall u, In u (t :: texts) -> tight (Text.chars u) = true).
  { rewrite Forall_forall in H. intros u Hu. now destruct (H u Hu). }
  clear H. revert t Hf. induction texts as [| t' texts IH]; intros t Hf.
  - apply Hf. now left.
  - change (joined (map Text.chars (t :: t' :: texts)))
      with (Text.chars t ++ ","%char :: joined (map Text.chars (t' :: texts)))%list.
    apply tight_app; [apply Hf; now left |].
    apply IH. intros u Hu. apply Hf. now right.
Qed.

End RoundTripCs3.

Section RoundTripCs4.

Import CSharp Generators CSharpRunner Sealing Simple.

Variable ToString : CsVal -> string.
Variable TryParse : string -> option double.

Lemma ParseJson_bracketed fuel texts :
  Forall item_ok texts ->
  ParseJson TryParse (S fuel) ("[" ++ Join "," texts ++ "]") =
  match parse_items (ParseJson TryParse fuel) texts [] with
  | Some (Ok parsed) => Some (Ok (JsonList parsed))
  | Some (Raise e) => Some (Raise e)
  | None => None
  end.
Proof.
  intros H. set (inner := Join "," texts).
  assert (Ht : Trim ("[" ++ inner ++ "]") = "[" ++ inner ++ "]").
  { apply Trim_tight. rewrite chars_bracketed. apply tight_bracketed. }
  assert (He : Text.ends_with "]" ("[" ++ inner ++ "]") = true).
  { rewrite ends_with_char, chars_bracketed.
    change ("["%char :: Text.chars inner ++ ["]"%char])%list
      with (("["%char :: Text.chars inner) ++ ["]"%char])%list.
    rewrite rev_app_distr. reflexivity. }
  assert (Es : substring 1 (String.length ("[" ++ inner ++ "]") - 2)
                 ("[" ++ inner ++ "]") = inner).
  { replace (String.length ("[" ++ inner ++ "]") - 2)%nat
      with (String.length inner)
      by (simpl; rewrite length_append; simpl; lia).
    apply (substring_middle "["%char inner "]"). }
  assert (E1 : String.eqb ("[" ++ inner ++ "]") "null" = false) by reflexivity.
  assert (E2 : String.eqb ("[" ++ inner ++ "]") "true" = false) by reflexivity.
  assert (E3 : String.eqb ("[" ++ inner ++ "]") "false" = false) by reflexivity.
  assert (Hq : Text.starts_with quote_mark ("[" ++ inner ++ "]") = false)
    by reflexivity.
  assert (Hs : Text.starts_with "[" ("[" ++ inner ++ "]") = true).
  { rewrite starts_with_char. reflexivity. }
  cbn [ParseJson]. rewrite Ht, E1, E2, E3, Hq, Hs, He, Es. cbn [andb].
  destruct texts as [| t texts].
  - reflexivity.
  - assert (Hi : tight (Text.chars inner) = true).
    { unfold inner. rewrite chars_Join. now apply tight_joined. }
    rewrite (Trim_tight _ Hi).
    assert (Hn : String.eqb inner "" = false).
    { destruct inner as [| c r]; [discriminate Hi | reflexivity]. }
    rewrite Hn. unfold inner. rewrite SplitJson_joined; [reflexivity | discriminate |].
    exact H.
Qed.

Lemma parse_items_map (parse : string -> option (Res Json))
      (text : CsVal -> string) (j : CsVal -> Json) l :
  Forall (fun x => parse (text x) = Some (Ok (j x))) l ->
  forall acc,
    parse_items parse (map text l) acc = Some (Ok (acc ++ map j l)%list).
Proof.
  induction 1 as [| x l Hx H IH]; intros acc; simpl.
  - now rewrite app_nil_r.
  - rewrite Hx, IH, <- app_assoc. reflexivity.
Qed.

Lemma length_Join_item sep x texts :
  In x texts -> (String.length x <= String.length (Join sep texts))%nat.
Proof.
  induction texts as [| t texts IH]; intros Hin; [destruct Hin |].
  destruct texts as [| t' texts].
  - destruct Hin as [-> | []]. simpl. lia.
  - change (Join sep (t :: t' :: texts))
      with (t ++ sep ++ Join sep (t' :: texts)).
    rewrite !length_append. destruct Hin as [-> | Hin]; [lia |].
    specialize (IH Hin). lia.
Qed.

Lemma ParseJson_Serialize v :
  simple ToString TryParse v = true ->
  forall fuel, (String.length (Serialize ToString v) < fuel)%nat ->
  ParseJson TryParse fuel (Serialize ToString v) = Some (Ok (json_of v)).
Proof.
  induction v as [| b | n | f | s | l IH | l IH] using CsVal_nested_ind;
    intros Hs [| fuel] Hf; try (exfalso; lia);
    cbn [Serialize json_of]; cbn [simple] in Hs.
  - reflexivity.
  - destruct b; reflexivity.
  - destruct (number_text_ok _ _ _ _ Hs) as (E & Hw & Hp).
    rewrite E, (ParseJson_number _ _ _ Hw), Hp. reflexivity.
  - destruct (number_text_ok _ _ _ _ Hs) as (E & Hw & Hp).
    rewrite E, (ParseJson_number _ _ _ Hw), Hp. reflexivity.
  - rewrite (escape_text_inner _ Hs). apply ParseJson_quoted.
  - rewrite ParseJson_bracketed.
    + rewrite (parse_items_map _ _ json_of); [reflexivity |].
      apply forallb_Forall in Hs. rewrite Forall_forall in *.
      intros x Hx. apply (IH x Hx (Hs x Hx)).
      cbn [Serialize] in Hf. simpl in Hf. rewrite length_append in Hf.
      pose proof (length_Join_item "," (Serialize ToString x)
                    (map (Serialize ToString) l) (in_map _ _ _ Hx)). lia.
    + apply Forall_map. apply forallb_Forall in Hs.
      eapply Forall_impl; [| exact Hs]. intros x. apply Serialize_ok.
  - rewrite ParseJson_bracketed.
    + rewrite (parse_items_map _ _ json_of); [reflexivity |].
      apply forallb_Forall in Hs. rewrite Forall_forall in *.
      intros x Hx. apply (IH x Hx (Hs x Hx)).
      cbn [Serialize] in Hf. simpl in Hf. rewrite length_append in Hf.
      pose proof (length_Join_item "," (Serialize ToString x)
                    (map (Serialize ToString) l) (in_map _ _ _ Hx)). lia.
    + apply Forall_map. apply forallb_Forall in Hs.
      eapply Forall_impl; [| exact Hs]. intros x. apply Serialize_ok.
Qed.

(** ** The comparison with the value read back *)

Lemma each_some_map l :
  Forall (fun v => value_of (json_of v) = Some (expected_of v)) l ->
  each_some value_of (map json_of l) = Some (map expected_of l).
Proof.
  induction 1 as [| x l Hx H IH]; simpl; [reflexivity |]. now rewrite Hx, IH.
Qed.

Lemma value_of_json_of v : value_of (json_of v) = Some (expected_of v).
Proof.
  induction v as [| b | n | f | s | l IH | l IH] using CsVal_nested_ind;
    try reflexivity.
  - cbn [json_of expected_of value_of]. now rewrite each_some_map.
  - cbn [json_of expected_of value_of]. now rewrite each_some_map.
Qed.

Lemma each_pair_expected l :
  Forall (fun x => DeepEquals ToString x (expected_of x) = true) l ->
  each_pair (DeepEquals ToString) l (map expected_of l) = true.
Proof.
  induction 1 as [| x l Hx H IH]; simpl; [reflexivity |]. now rewrite Hx.
Qed.

Lemma DeepEquals_expected v :
  simple ToString TryParse v = true ->
  DeepEquals ToString v (expected_of v) = true.
Proof.
  induction v as [| b | n | f | s | l IH | l IH] using CsVal_nested_ind;
    intros Hs; cbn [simple] in Hs.
  - reflexivity.
  - simpl. apply Bool.eqb_reflx.
  - unfold simple_number in Hs.
    apply andb_true_iff in Hs. destruct Hs as [Hs _].
    apply andb_true_iff in Hs. destruct Hs as [Hs _].
    apply andb_true_iff in Hs. destruct Hs as [Hn Hi].
    apply negb_true_iff in Hn, Hi. simpl. rewrite Hn. simpl.
    now apply within_tolerance_self.
  - unfold simple_number in Hs.
    apply andb_true_iff in Hs. destruct Hs as [Hs _].
    apply andb_true_iff in Hs. destruct Hs as [Hs _].
    apply andb_true_iff in Hs. destruct Hs as [Hn Hi].
    apply negb_true_iff in Hn, Hi. simpl. rewrite Hn. simpl.
    now apply within_tolerance_self.
  - simpl. apply String.eqb_refl.
  - simpl. rewrite length_map, Nat.eqb_refl. simpl.
    apply each_pair_expected. apply forallb_Forall in Hs.
    eapply Forall_impl2; [| exact IH | exact Hs]. auto.
  - simpl. rewrite length_map, Nat.eqb_refl. simpl.
    apply each_pair_expected. apply forallb_Forall in Hs.
    eapply Forall_impl2; [| exact IH | exact Hs]. auto.
Qed.

End RoundTripCs4.

Section Termination.

Import CSharp Generators CSharpRunner Sealing Simple.

Variable TryParse : string -> option double.

(** ** Lengths *)

Lemma drop_while_length p l :
  (List.length (Text.drop_while p l) <= List.length l)%nat.
Proof.
  induction l as [| c l IH]; simpl; [lia |].
  destruct (p c); simpl; lia.
Qed.

Lemma of_chars_length l : String.length (Text.of_chars l) = List.length l.
Proof. induction l; simpl; [reflexivity |]. now f_equal. Qed.

Lemma strip_length p s :
  (String.length (Text.strip_with p s) <= String.length s)%nat.
Proof.
  unfold Text.strip_with. rewrite of_chars_length, length_rev.
  etransitivity; [apply drop_while_length |]. rewrite length_rev.
  etransitivity; [apply drop_while_length |]. now rewrite chars_length.
Qed.

Lemma substring_length s n m :
  (String.length (substring n m s) <= String.length s - n)%nat.
Proof.
  rewrite substring_chars, of_chars_length, length_firstn, length_skipn,
    chars_length. lia.
Qed.

Lemma short_step k st c : short k st -> short (S k) (scan_step st c).
Proof.
  intros [Hp Hc].
  assert (H1 : forall p, In p (pieces st) -> (String.length p <= S k)%nat)
    by (intros p Hin; specialize (Hp p Hin); lia).
  assert (H2 : (List.length (current st ++ [c]) <= S k)%nat)
    by (rewrite length_app; simpl; lia).
  unfold scan_step.
  destruct (negb _);
    [ destruct (_ || _); [| destruct (_ || _); [| destruct (_ && _)] ] |];
    split; cbn [pieces current]; auto.
  - intros p Hin. apply in_app_or in Hin. destruct Hin as [Hin | [<- | []]];
      [auto |].
    etransitivity; [apply strip_length |]. rewrite of_chars_length. lia.
  - simpl. lia.
Qed.

Lemma short_all l : forall st k,
  short k st -> short (k + List.length l) (fold_left scan_step l st).
Proof.
  induction l as [| c l IH]; intros st k H; simpl.
  - now rewrite Nat.add_0_r.
  - replace (k + S (List.length l))%nat with (S k + List.length l)%nat by lia.
    apply IH. now apply short_step.
Qed.

Lemma SplitJson_short json p :
  In p (SplitJson json) -> (String.length p <= String.length json)%nat.
Proof.
  rewrite SplitJson_scan. intros Hin.
  assert (H0 : short 0 scan_start) by (split; [intros ? [] | simpl; lia]).
  destruct (short_all (Text.chars json) H0) as [Hp Hc].
  simpl in Hp, Hc. rewrite chars_length in Hp, Hc.
  unfold scan_end in Hin.
  destruct (current (fold_left scan_step (Text.chars json) scan_start))
    as [| c r] eqn:E; [now apply Hp |].
  apply in_app_or in Hin. destruct Hin as [Hin | [<- | []]]; [now apply Hp |].
  etransitivity; [apply strip_length |]. now rewrite of_chars_length.
Qed.

(** ** The nested calls *)

Lemma parse_items_ext (p1 p2 : string -> option (Res Json)) items :
  (forall x, In x items -> p1 x = p2 x) ->
  forall acc, parse_items p1 items acc = parse_items p2 items acc.
Proof.
  induction items as [| x items IH]; intros H acc; simpl; [reflexivity |].
  rewrite (H x (or_introl eq_refl)).
  destruct (p2 x) as [[v | e] |]; try reflexivity.
  apply IH. intros y Hy. apply H. now right.
Qed.

Lemma parse_items_some (p1 : string -> option (Res Json)) items :
  (forall x, In x items -> p1 x <> None) ->
  forall acc, parse_items p1 items acc <> None.
Proof.
  induction items as [| x items IH]; intros H acc; simpl; [discriminate |].
  pose proof (H x (or_introl eq_refl)) as Hx.
  destruct (p1 x) as [[v | e] |]; [| discriminate | contradiction].
  apply IH. intros y Hy. apply H. now right.
Qed.

Lemma value_text_short entry i :
  (String.length (value_text entry i) <= String.length entry)%nat.
Proof.
  unfold value_text. etransitivity; [apply strip_length |].
  etransitivity; [apply substring_length |]. lia.
Qed.

Lemma parse_pairs_ext (p1 p2 : string -> option (Res Json)) pairs :
  (forall x i, In x pairs -> p1 (value_text x i) = p2 (value_text x i)) ->
  forall acc, parse_pairs p1 pairs acc = parse_pairs p2 pairs acc.
Proof.
  induction pairs as [| x pairs IH]; intros H acc; cbn [parse_pairs];
    [reflexivity |].
  assert (Hr : forall y i, In y pairs ->
                 p1 (value_text y i) = p2 (value_text y i))
    by (intros y i Hy; apply H; now right).
  destruct (IndexOf ":" (Text.chars x)) as [[| n] |]; try (now apply IH).
  cbv zeta. fold (value_text x (S n)). rewrite (H x (S n) (or_introl eq_refl)).
  destruct (p2 (value_text x (S n))) as [[v | e] |]; try reflexivity.
  now apply IH.
Qed.

Lemma parse_pairs_some (p1 : string -> option (Res Json)) pairs :
  (forall x i, In x pairs -> p1 (value_text x i) <> None) ->
  forall acc, parse_pairs p1 pairs acc <> None.
Proof.
  induction pairs as [| x pairs IH]; intros H acc; cbn [parse_pairs];
    [discriminate |].
  assert (Hr : forall y i, In y pairs -> p1 (value_text y i) <> None)
    by (intros y i Hy; apply H; now right).
  destruct (IndexOf ":" (Text.chars x)) as [[| n] |]; try (now apply IH).
  cbv zeta. fold (value_text x (S n)).
  pose proof (H x (S n) (or_introl eq_refl)) as Hx.
  destruct (p1 (value_text x (S n))) as [[v | e] |];
    [| discriminate | contradiction].
  now apply IH.
Qed.

Lemma inner_short json :
  (String.length (inner_text json) < String.length json)%nat
  \/ Trim json = "".
Proof.
  unfold inner_text. pose proof (strip_length cs_isspace json) as Ht.
  fold (Trim json) in Ht.
  destruct (Trim json) as [| c r] eqn:E; [now right |]. left.
  pose proof (strip_length cs_isspace (substring 1 (String.length (String c r) - 2)
                                         (String c r))) as H1.
  pose proof (substring_length (String c r) 1 (String.length (String c r) - 2))
    as H2.
  fold (Trim (substring 1 (String.length (String c r) - 2) (String c r))) in H1.
  simpl String.length in *. lia.
Qed.

Lemma ParseJson_unfold fuel json :
  ParseJson TryParse (S fuel) json =
  let t := Trim json in
  if String.eqb t "null" then Some (Ok JsonNull)
  else if String.eqb t "true" then Some (Ok (JsonBool true))
  else if String.eqb t "false" then Some (Ok (JsonBool false))
  else if Text.starts_with quote_mark t && Text.ends_with quote_mark t
  then
    if (String.length t <? 2)%nat
    then Some (Raise ArgumentOutOfRangeException)
    else Some (Ok (JsonString (substring 1 (String.length t - 2) t)))
  else if Text.starts_with "[" t && Text.ends_with "]" t then
    if String.eqb (inner_text json) "" then Some (Ok (JsonList []))
    else
      match parse_items (ParseJson TryParse fuel)
              (SplitJson (inner_text json)) [] with
      | Some (Ok parsed) => Some (Ok (JsonList parsed))
      | Some (Raise e) => Some (Raise e)
      | None => None
      end
  else if Text.starts_with "{" t && Text.ends_with "}" t then
    if String.eqb (inner_text json) "" then Some (Ok (JsonDict []))
    else
      match parse_pairs (ParseJson TryParse fuel)
              (SplitJson (inner_text json)) [] with
      | Some (Ok dict) => Some (Ok (JsonDict dict))
      | Some (Raise e) => Some (Raise e)
      | None => None
      end
  else
    match TryParse t with
    | Some d => Some (Ok (JsonDouble d))
    | None => Some (Ok (JsonString t))
    end.
Proof. reflexivity. Qed.

Lemma ParseJson_enough : forall n json,
  (String.length json < n)%nat ->
  (forall fuel, (n <= fuel)%nat ->
     ParseJson TryParse fuel json = ParseJson TryParse n json) /\
  ParseJson TryParse n json <> None.
Proof.
  induction n as [| m IH]; intros json Hn; [lia |].
  assert (Hsub : forall x, (String.length x < String.length json)%nat ->
            (forall f, (m <= f)%nat ->
               ParseJson TryParse f x = ParseJson TryParse m x) /\
            ParseJson TryParse m x <> None)
    by (intros x Hx; apply IH; lia).
  assert (Hpiece : forall x, In x (SplitJson (inner_text json)) ->
            Trim json <> "" ->
            (String.length x < String.length json)%nat).
  { intros x Hx Hne. apply SplitJson_short in Hx.
    destruct (inner_short json) as [H | H]; [lia | contradiction]. }
  assert (Hval : forall x i, In x (SplitJson (inner_text json)) ->
            Trim json <> "" ->
            (String.length (value_text x i) < String.length json)%nat).
  { intros x i Hx Hne. pose proof (value_text_short x i).
    specialize (Hpiece x Hx Hne). lia. }
  assert (Hne : forall c, Text.starts_with (String c "") (Trim json) = true ->
                          Trim json <> "").
  { intros c H E. rewrite E in H. rewrite starts_with_char in H. discriminate. }
  split.
  - intros [| f] Hf; [lia |]. rewrite !ParseJson_unfold. cbv zeta.
    destruct (String.eqb (Trim json) "null"); [reflexivity |].
    destruct (String.eqb (Trim json) "true"); [reflexivity |].
    destruct (String.eqb (Trim json) "false"); [reflexivity |].
    destruct (Text.starts_with quote_mark (Trim json)
              && Text.ends_with quote_mark (Trim json)); [reflexivity |].
    destruct (Text.starts_with "[" (Trim json)) eqn:Hb; cbn [andb].
    + destruct (Text.ends_with "]" (Trim json)).
      * destruct (String.eqb (inner_text json) ""); [reflexivity |].
        rewrite (parse_items_ext (ParseJson TryParse f) (ParseJson TryParse m));
          [reflexivity |].
        intros x Hx. apply Hsub; [| lia]. apply Hpiece; auto.
        now apply (Hne "["%char).
      * destruct (Text.starts_with "{" (Trim json)) eqn:Hc; cbn [andb];
          [| reflexivity].
        rewrite starts_with_char in Hb, Hc.
        destruct (Text.chars (Trim json)) as [| c r]; [discriminate |].
        apply Ascii.eqb_eq in Hb, Hc. congruence.
    + destruct (Text.starts_with "{" (Trim json)) eqn:Hc; cbn [andb];
        [| reflexivity].
      destruct (Text.ends_with "}" (Trim json)); [| reflexivity].
      destruct (String.eqb (inner_text json) ""); [reflexivity |].
      rewrite (parse_pairs_ext (ParseJson TryParse f) (ParseJson TryParse m));
        [reflexivity |].
      intros x i Hx. apply Hsub; [| lia]. apply Hval; auto.
      now apply (Hne "{"%char).
  - rewrite ParseJson_unfold. cbv zeta.
    destruct (String.eqb (Trim json) "null"); [discriminate |].
    destruct (String.eqb (Trim json) "true"); [discriminate |].
    destruct (String.eqb (Trim json) "false"); [discriminate |].
    destruct (Text.starts_with quote_mark (Trim json)
              && Text.ends_with quote_mark (Trim json)).
    { destruct (String.length (Trim json) <? 2)%nat; discriminate. }
    destruct (Text.starts_with "[" (Trim json)) eqn:Hb; cbn [andb].
    + destruct (Text.ends_with "]" (Trim json)).
      * destruct (String.eqb (inner_text json) ""); [discriminate |].
        pose proof (parse_items_some (ParseJson TryParse m)
                      (SplitJson (inner_text json))) as Hs.
        destruct (parse_items _ _ []) as [[v | e] |] eqn:E;
          [discriminate | discriminate |].
        exfalso. apply (Hs ltac:(intros x Hx; apply Hsub; apply Hpiece; auto;
                                  now apply (Hne "["%char)) [] E).
      * destruct (Text.starts_with "{" (Trim json)) eqn:Hc; cbn [andb];
          [| destruct (TryParse (Trim json)); discriminate].
        rewrite starts_with_char in Hb, Hc.
        destruct (Text.chars (Trim json)) as [| c r]; [discriminate |].
        apply Ascii.eqb_eq in Hb, Hc. congruence.
    + destruct (Text.starts_with "{" (Trim json)) eqn:Hc; cbn [andb];
        [| destruct (TryParse (Trim json)); discriminate].
      destruct (Text.ends_with "}" (Trim json));
        [| destruct (TryParse (Trim json)); discriminate].
      destruct (String.eqb (inner_text json) ""); [discriminate |].
      pose proof (parse_pairs_some (ParseJson TryParse m)
                    (SplitJson (inner_text json))) as Hs.
      destruct (parse_pairs _ _ []) as [[v | e] |] eqn:E;
        [discriminate | discriminate |].
      exfalso. apply (Hs ltac:(intros x i Hx; apply Hsub; apply Hval; auto;
                                now apply (Hne "{"%char)) [] E).
Qed.

End Termination.

Section Escapes.

Import CSharp Generators CSharpRunner Sealing Simple Shapes.

(** ** Texts with a double quote or a backslash *)

Lemma replace_all_length c x y l :
  (List.length l <= List.length (replace_all c [x; y] l))%nat /\
  (existsb (fun a => Ascii.eqb a c) l = true ->
   (List.length l < List.length (replace_all c [x; y] l))%nat).
Proof.
  induction l as [| a l [IH1 IH2]]; simpl; [split; [lia | discriminate] |].
  destruct (Ascii.eqb a c); simpl; split; try lia.
  intros H. specialize (IH2 H). lia.
Qed.

Lemma escape_text_longer s :
  forallb is_inner (Text.chars s) = false ->
  (String.length s < String.length (escape_text s))%nat.
Proof.
  intros H. unfold escape_text. rewrite of_chars_length, <- chars_length.
  set (l := Text.chars s) in *.
  destruct (replace_all_length Text.backslash Text.backslash Text.backslash l)
    as [B1 B2].
  destruct (replace_all_length Text.quote Text.backslash Text.quote
              (replace_all Text.backslash [Text.backslash; Text.backslash] l))
    as [Q1 Q2].
  destruct (existsb (fun a => Ascii.eqb a Text.backslash) l) eqn:Eb;
    [specialize (B2 eq_refl); lia |].
  assert (Hl : replace_all Text.backslash [Text.backslash; Text.backslash] l = l).
  { apply replace_all_absent. clear -Eb. induction l as [| a l IH]; simpl in *;
      [reflexivity |]. apply orb_false_iff in Eb. destruct Eb as [Ea El].
    rewrite Ea. simpl. now apply IH. }
  rewrite Hl in *. apply Q2. clear -H Eb.
  induction l as [| a l IH]; simpl in *; [discriminate |].
  apply orb_false_iff in Eb. destruct Eb as [Ea El].
  unfold is_inner in H at 1. rewrite Ea in H. simpl in H.
  destruct (Ascii.eqb a Text.quote); simpl in *; [reflexivity |].
  now apply IH.
Qed.

Lemma escape_text_same s :
  String.eqb s (escape_text s) = forallb is_inner (Text.chars s).
Proof.
  destruct (forallb is_inner (Text.chars s)) eqn:E.
  - rewrite (escape_text_inner _ E). apply String.eqb_refl.
  - apply escape_text_longer in E.
    destruct (String.eqb_spec s (escape_text s)) as [Heq | _]; [| reflexivity].
    rewrite <- Heq in E. lia.
Qed.

End Escapes.

Section ReadingBack.

Import CSharp CSharpRunner Simple Sealing.

(** X18. [ParseJson] returns on every text: the nested calls are made on
    texts that are shorter than the text at hand, so for each text there
    is one outcome, a value or the exception of [Substring], that every
    run with more fuel than the text has characters ends with. *)
Theorem ParseJson_always_returns (TryParse : string -> option double)
        (json : string) :
  exists r, forall fuel, (String.length json < fuel)%nat ->
                         ParseJson TryParse fuel json = Some r.
Proof.
  destruct (ParseJson_enough TryParse (n := S (String.length json)) json
              (Nat.lt_succ_diag_r _)) as [Hf Hs].
  destruct (ParseJson TryParse (S (String.length json)) json) as [r |] eqn:E;
    [| contradiction].
  exists r. intros fuel Hlt. apply Hf. lia.
Qed.

(** X19. [ParseJson] does not undo what [Serialize] did to a text. The
    text written for a string is read back as the string with the
    backslashes that [Serialize] added still in it, so [DeepEquals]
    accepts the string read back exactly when the string has no double
    quote and no backslash; and an expected text that is a lone double
    quote makes [Substring] throw. *)
Theorem ParseJson_leaves_escapes_unread
        (ToString : CsVal -> string) (TryParse : string -> option double)
        (s : string) (fuel : nat) :
  ParseJson TryParse (S fuel) (Serialize ToString (CsString s))
  = Some (Ok (JsonString (escape_text s))) /\
  DeepEquals ToString (CsString s) (CsString (escape_text s))
  = forallb is_inner (Text.chars s) /\
  ParseJson TryParse (S fuel) quote_mark
  = Some (Raise ArgumentOutOfRangeException).
Proof.
  split; [apply ParseJson_quoted |]. split; [| reflexivity].
  simpl. apply escape_text_same.
Qed.

(** X20. What [Serialize] writes, [ParseJson] reads back as a value that
    [DeepEquals] accepts, for a value made of null, booleans, texts
    without double quote and backslash, finite numbers, and lists and
    tuples of such values, where [ToString] writes each number with
    digits, signs, a point and the letter of an exponent only and
    [double.TryParse] reads that text back as the same number; the fuel
    is more than the length of the text. *)
Theorem serialized_value_is_read_back_equal
        (ToString : CsVal -> string) (TryParse : string -> option double)
        (v : CsVal) :
  simple ToString TryParse v = true ->
  forall fuel, (String.length (Serialize ToString v) < fuel)%nat ->
  exists j e,
    ParseJson TryParse fuel (Serialize ToString v) = Some (Ok j) /\
    value_of j = Some e /\
    DeepEquals ToString v e = true.
Proof.
  intros Hs fuel Hf. exists (json_of v), (expected_of v).
  split; [now apply ParseJson_Serialize |].
  split; [apply value_of_json_of | now apply DeepEquals_expected with TryParse].
Qed.

Lemma serialized_value_is_read_back_equal_witness :
  let ToString := CsExamples.example_ToString in
  let TryParse := CsExamples.example_TryParse in
  let v := CsExamples.example_value in
  simple ToString TryParse v = true /\
  Serialize ToString v
  = "[1," ++ Text.quoted "a,b]" ++ ",[true,null,0.5],[]]" /\
  exists j e,
    ParseJson TryParse 40 (Serialize ToString v) = Some (Ok j) /\
    value_of j = Some e /\
    DeepEquals ToString v e = true.
Proof.
  intros ToString TryParse v.
  split; [vm_compute; reflexivity |]. split; [vm_compute; reflexivity |].
  apply (serialized_value_is_read_back_equal ToString TryParse v).
  - vm_compute. reflexivity.
  - apply Nat.ltb_lt. vm_compute. reflexivity.
Defined.

End ReadingBack.

Section Literals.

Import Generators Shapes Cpp Sealing.

Lemma java_escape_flat l : Java.escape l = flat_map guarded l.
Proof.
  induction l as [| c l IH]; simpl; [reflexivity |].
  unfold guarded at 1. rewrite IH.
  destruct (Ascii.eqb c Text.backslash || Ascii.eqb c Text.quote); reflexivity.
Qed.

Lemma escape_text_flat s :
  Text.chars (CSharpRunner.escape_text s) = flat_map guarded (Text.chars s).
Proof.
  unfold CSharpRunner.escape_text.
  rewrite chars_of_chars, !replace_all_flat, flat_map_flat_map.
  apply flat_map_ext. intros c. unfold guarded.
  destruct (Ascii.eqb_spec c Text.backslash) as [-> | Hb]; [reflexivity |].
  destruct (Ascii.eqb_spec c Text.quote) as [-> | Hq]; [reflexivity |].
  apply Ascii.eqb_neq in Hq. simpl. now rewrite Hq.
Qed.

Lemma closed_guarded l : closed (flat_map guarded l).
Proof.
  induction l as [| c l IH] using rev_ind.
  - split; [reflexivity |]. intros i Hi. simpl in Hi.
    replace i with O by lia. reflexivity.
  - rewrite flat_map_app. simpl. rewrite app_nil_r. unfold guarded.
    destruct (Ascii.eqb c Text.backslash) eqn:Hb; [now apply closed_pair |].
    destruct (Ascii.eqb c Text.quote) eqn:Hq; [now apply closed_pair |].
    now apply closed_plain.
Qed.

Lemma escaped_after_quote l : forall i,
  escaped (quote :: l) (S i) = escaped l i.
Proof.
  induction i as [| i IH]; [reflexivity |].
  rewrite (escaped_S (quote :: l)), IH. reflexivity.
Qed.

Lemma inside_after_quote l : forall i,
  inside_literal (quote :: l) (S i) = negb (inside_literal l i).
Proof.
  induction i as [| i IH]; [reflexivity |].
  rewrite (inside_literal_S (quote :: l)), IH, escaped_after_quote.
  rewrite (inside_literal_S l). simpl nth.
  destruct (inside_literal l i), (Ascii.eqb (nth i l Ascii.zero) quote && _);
    reflexivity.
Qed.

Lemma quoted_is_one_literal body :
  closed body ->
  let out := (quote :: body ++ [quote])%list in
  inside_literal out (List.length out) = false /\
  forall i, (1 <= i < List.length out)%nat -> inside_literal out i = true.
Proof.
  intros [He Hi] out. unfold out. simpl List.length.
  rewrite length_app. simpl List.length. rewrite Nat.add_1_r.
  assert (Hend : inside_literal (body ++ [quote]) (S (List.length body)) = true).
  { rewrite inside_literal_S, nth_last, inside_literal_app, escaped_app by lia.
    rewrite Hi, He by lia. unfold quote. now rewrite Ascii.eqb_refl. }
  split.
  - rewrite inside_after_quote, Hend. reflexivity.
  - intros [| i] Hr; [lia |]. rewrite inside_after_quote.
    rewrite inside_literal_app by lia. rewrite Hi by lia. reflexivity.
Qed.

End Literals.

(** X21. The Java [serialize] and the C# [Serialize] write a text as the
    same characters, and these are exactly one string literal: the
    literal opens at the first character, is open at every place inside
    and is closed at the end, whatever the text holds. *)
Theorem text_is_written_as_one_literal
        (toString : Java.JavaVal -> string)
        (ToString : CSharp.CsVal -> string) (s : string) :
  let out := Text.chars (Java.serialize toString (Java.JvString s)) in
  Text.chars (CSharpRunner.Serialize ToString (CSharp.CsString s)) = out /\
  Cpp.inside_literal out (List.length out) = false /\
  forall i, (1 <= i < List.length out)%nat -> Cpp.inside_literal out i = true.
Proof.
  intros out. unfold out. simpl Java.serialize. simpl CSharpRunner.Serialize.
  unfold Java.quoted. rewrite !chars_quoted, chars_of_chars.
  rewrite escape_text_flat, java_escape_flat.
  split; [reflexivity |].
  apply (quoted_is_one_literal (closed_guarded (Text.chars s))).
Qed.

Section EmptyItems.

Import CSharp Generators CSharpRunner Sealing Simple.

Lemma scan_top_comma ps cur prev :
  scan_step {| pieces := ps; level := 0; current := cur; inside := false;
               previous := prev |} ","%char
  = {| pieces := ps ++ [Trim (Text.of_chars cur)]; level := 0; current := [];
       inside := false; previous := Some ","%char |}.
Proof. reflexivity. Qed.

Lemma scan_end_current ps d cur i prev :
  cur <> [] ->
  scan_end {| pieces := ps; level := d; current := cur; inside := i;
              previous := prev |}
  = (ps ++ [Trim (Text.of_chars cur)])%list.
Proof. destruct cur; [contradiction | reflexivity]. Qed.

Lemma plain_word_sealed t :
  forallb is_plain (Text.chars t) = true -> tight (Text.chars t) = true ->
  sealed (Text.chars t).
Proof.
  intros Hp Ht. destruct (Text.chars t) as [| c l]; [discriminate |].
  now apply sealed_word.
Qed.

(** X22. [SplitJson] drops an empty item at the end only: a comma after
    the last item adds nothing, a comma before the first item or two
    commas in a row give an empty item. The items are words without
    quotes, backslashes, brackets, braces and commas, and without blanks
    at their ends. *)
Theorem SplitJson_drops_an_empty_last_item_only (t : string) :
  forallb is_plain (Text.chars t) = true -> tight (Text.chars t) = true ->
  SplitJson (t ++ ",") = [t] /\
  SplitJson ("," ++ t) = [""; t] /\
  SplitJson (t ++ ",," ++ t) = [t; ""; t].
Proof.
  intros Hp Ht. pose proof (plain_word_sealed t Hp Ht) as Hs.
  assert (Hne : Text.chars t <> []) by (intros E; rewrite E in Ht; discriminate).
  repeat split; rewrite SplitJson_scan.
  - rewrite chars_app, fold_left_app. unfold scan_start.
    destruct (Hs [] 0 [] None (Z.le_refl 0) eq_refl) as (p & _ & ->).
    change (Text.chars ",") with [","%char]. cbn [fold_left].
    rewrite scan_top_comma. unfold scan_end. cbn [current pieces app].
    now rewrite of_chars_chars, Trim_tight.
  - rewrite chars_app. change (Text.chars ",") with [","%char].
    cbn [app]. rewrite fold_left_cons.
    unfold scan_start. rewrite scan_top_comma.
    destruct (Hs ([] ++ [Trim (Text.of_chars [])])%list 0 [] (Some ","%char)
                 (Z.le_refl 0) eq_refl) as (p & _ & ->).
    cbn [app]. rewrite scan_end_current by exact Hne.
    rewrite of_chars_chars, (Trim_tight t Ht). reflexivity.
  - rewrite chars_app, fold_left_app. unfold scan_start.
    destruct (Hs [] 0 [] None (Z.le_refl 0) eq_refl) as (p & _ & ->).
    rewrite chars_app. change (Text.chars ",,") with [","%char; ","%char].
    cbn [app]. rewrite !fold_left_cons, !scan_top_comma.
    match goal with |- context [fold_left scan_step _ ?st] =>
      match st with {| pieces := ?ps; previous := ?pv |} =>
        destruct (Hs ps 0 [] pv (Z.le_refl 0) eq_refl) as (q & _ & ->)
      end end.
    cbn [app]. rewrite scan_end_current by exact Hne.
    rewrite of_chars_chars, (Trim_tight t Ht). reflexivity.
Qed.

Lemma SplitJson_drops_an_empty_last_item_only_witness :
  SplitJson "12," = ["12"] /\
  SplitJson ",12" = [""; "12"] /\
  SplitJson "12,,12" = ["12"; ""; "12"].
Proof.
  apply (SplitJson_drops_an_empty_last_item_only "12"); reflexivity.
Defined.

End EmptyItems.
